(** * Redux: store engine, reducer compositor and composer

    A shallow embedding of [createStore.js], [combineReducers.js] and
    [compose.js].  JavaScript values are a small inductive type, the
    closure variables of [createStore] become fields of an explicit
    world that every operation threads, and user callbacks (reducers and
    listeners) are programs over the store's own operations, run by a
    fuel-indexed interpreter.  The world holds one store.  The second
    half of the definitions embeds [bindActionCreators.js],
    [applyMiddleware.js] and the [subscribe] method of the store's
    observable, whose closures are function bodies. *)

From Stdlib Require Import ZArith String List Bool Lia.
From stdpp Require Import base option list pretty.
Import ListNotations.
Set Warnings "-register-all".
Local Open Scope string_scope.
Local Open Scope list_scope.

(** ** JavaScript values *)

(** What kind of object a reference denotes: an object literal (the only
    kind [lodash/isPlainObject] accepts), an array, or an instance of
    some class, given by its [Object.prototype.toString] tag. *)
Inductive kind : Type :=
| KPlain
| KArray
| KInstance (tag : string).

(** Objects carry the identity [id] of their allocation; [===] on
    objects compares identities only.  [props] lists the own enumerable
    properties in [Object.keys] order; inherited properties are not
    modelled, and primitives and functions are taken to have no
    properties of their own.  Error objects carry no identity: [===]
    never holds of them.  Numbers are integers plus [NaN].
    Function values are user functions (looked up in a function table),
    the [unsubscribe] closures returned by [subscribe], and the
    [combination] closures returned by [combineReducers]; the latter
    carry their captured [finalReducers] and [shapeAssertionError], and
    [id] names both their identity and their [unexpectedKeyCache]. *)
Inductive value : Type :=
| VUndefined
| VNull
| VBool (b : bool)
| VNum (n : Z)
| VNaN
| VStr (s : string)
| VObj (id : nat) (k : kind) (props : list (string * value))
| VError (name message : string)
| VFun (id : nat)
| VUnsubscribe (h : nat)
| VCombination (id : nat) (finalReducers : list (string * value))
               (shapeAssertionError : value).

(** Outcome of a call: a returned value or a thrown one. *)
Inductive result (A : Type) : Type :=
| Normal (a : A)
| Thrown (e : value).
Arguments Normal {A} a.
Arguments Thrown {A} e.

Module JS.

Definition typeof (v : value) : string :=
  match v with
  | VUndefined => "undefined"
  | VNull => "object"
  | VBool _ => "boolean"
  | VNum _ | VNaN => "number"
  | VStr _ => "string"
  | VObj _ _ _ | VError _ _ => "object"
  | VFun _ | VUnsubscribe _ | VCombination _ _ _ => "function"
  end.

Definition is_function (v : value) : bool :=
  String.eqb (typeof v) "function".

Definition is_undefined (v : value) : bool :=
  String.eqb (typeof v) "undefined".

(** [a === b]. *)
Definition strict_eq (a b : value) : bool :=
  match a, b with
  | VUndefined, VUndefined => true
  | VNull, VNull => true
  | VBool x, VBool y => Bool.eqb x y
  | VNum x, VNum y => Z.eqb x y
  | VStr x, VStr y => String.eqb x y
  | VObj i _ _, VObj j _ _ => Nat.eqb i j
  | VFun i, VFun j => Nat.eqb i j
  | VUnsubscribe i, VUnsubscribe j => Nat.eqb i j
  | VCombination i _ _, VCombination j _ _ => Nat.eqb i j
  | _, _ => false
  end.

(** [!!v]. *)
Definition truthy (v : value) : bool :=
  match v with
  | VUndefined | VNull | VNaN => false
  | VBool b => b
  | VNum n => negb (Z.eqb n 0)
  | VStr s => negb (String.eqb s EmptyString)
  | _ => true
  end.

(** [lodash/isPlainObject]. *)
Definition isPlainObject (v : value) : bool :=
  match v with
  | VObj _ KPlain _ => true
  | _ => false
  end.

(** Lookup in a property list. *)
Fixpoint lookup_prop (key : string) (props : list (string * value))
  : option value :=
  match props with
  | [] => None
  | (k, v) :: rest => if String.eqb k key then Some v else lookup_prop key rest
  end.

(** [o[key] = v] on a property list: overwrite in place, or append. *)
Fixpoint assign_prop (key : string) (v : value)
         (props : list (string * value)) : list (string * value) :=
  match props with
  | [] => [(key, v)]
  | (k, w) :: rest =>
      if String.eqb k key then (k, v) :: rest
      else (k, w) :: assign_prop key v rest
  end.

(** [Object.keys(v)] for a value that is not [undefined] or [null]. *)
Definition keys (v : value) : list string :=
  match v with
  | VObj _ _ props => map fst props
  | _ => []
  end.

(** [v[key]]: own properties only; reading a property of [undefined]
    or [null] throws a [TypeError].  This is the code's read when [v]
    is an object literal and [key] is an own property of it or no name
    of a member it inherits. *)
Definition get_prop (v : value) (key : string) : result value :=
  match v with
  | VUndefined | VNull =>
      Thrown (VError "TypeError" ("Cannot read property '" ++ key ++ "' of "
                ++ (if strict_eq v VNull then "null" else "undefined")))
  | VObj _ _ props => Normal (default VUndefined (lookup_prop key props))
  | _ => Normal VUndefined
  end.

(** [a + b] on primitives; objects and functions enter by their
    default string form. *)
Definition to_primitive (v : value) : value :=
  match v with
  | VObj _ _ _ => VStr "[object Object]"
  | VError name message => VStr (name ++ ": " ++ message)
  | VFun _ | VUnsubscribe _ | VCombination _ _ _ => VStr "function () { ... }"
  | other => other
  end.

Definition to_number (v : value) : option Z :=
  match v with
  | VNull => Some 0%Z
  | VBool b => Some (if b then 1 else 0)%Z
  | VNum n => Some n
  | _ => None
  end.

Definition prim_to_string (v : value) : string :=
  match v with
  | VUndefined => "undefined"
  | VNull => "null"
  | VBool true => "true"
  | VBool false => "false"
  | VNum n => pretty n
  | VNaN => "NaN"
  | VStr s => s
  | _ => EmptyString
  end.

(** [a + b]; the sum of numbers is the code's for integers that stay
    below [2^53] in size. *)
Definition add (a b : value) : value :=
  let a' := to_primitive a in
  let b' := to_primitive b in
  match a', b' with
  | VStr _, _ | _, VStr _ => VStr (prim_to_string a' ++ prim_to_string b')
  | _, _ =>
      match to_number a', to_number b' with
      | Some x, Some y => VNum (x + y)
      | _, _ => VNaN
      end
  end.

(** [Array.prototype.join] on strings. *)
Fixpoint join (sep : string) (l : list string) : string :=
  match l with
  | [] => EmptyString
  | [x] => x
  | x :: rest => x ++ sep ++ join sep rest
  end.

End JS.

(** ** The world: closure variables and objects behind references *)

(** Ghost record of the calls [dispatch] makes into user code, each with
    the value [isDispatching] has when the call is made. *)
Inductive event : Type :=
| EvReduce (dispatching : bool) (state action : value)
| EvNotify (dispatching : bool) (listener : value).

(** The first five fields are the [let] variables of [createStore];
    [currentListeners] and [nextListeners] are references into [arrays],
    so that the two variables can alias one array object.  Each call of
    [subscribe] owns one cell of [subscriptions], holding its [listener]
    argument and its [isSubscribed] flag.  Each call of [combineReducers]
    owns one cell of [unexpectedKeyCaches].  [entropy] feeds
    [Math.random], [console] collects warnings, [trace] is ghost. *)
Record world : Type := mkWorld {
  currentReducer : value;
  currentState : value;
  currentListeners : nat;
  nextListeners : nat;
  isDispatching : bool;
  arrays : list (list value);
  subscriptions : list (value * bool);
  unexpectedKeyCaches : list (list string);
  nextObjectId : nat;
  entropy : list string;
  console : list string;
  trace : list event
}.

Definition set_currentReducer (v : value) (w : world) : world :=
  mkWorld v (currentState w) (currentListeners w) (nextListeners w)
    (isDispatching w) (arrays w) (subscriptions w) (unexpectedKeyCaches w)
    (nextObjectId w) (entropy w) (console w) (trace w).

Definition set_currentState (v : value) (w : world) : world :=
  mkWorld (currentReducer w) v (currentListeners w) (nextListeners w)
    (isDispatching w) (arrays w) (subscriptions w) (unexpectedKeyCaches w)
    (nextObjectId w) (entropy w) (console w) (trace w).

Definition set_currentListeners (r : nat) (w : world) : world :=
  mkWorld (currentReducer w) (currentState w) r (nextListeners w)
    (isDispatching w) (arrays w) (subscriptions w) (unexpectedKeyCaches w)
    (nextObjectId w) (entropy w) (console w) (trace w).

Definition set_nextListeners (r : nat) (w : world) : world :=
  mkWorld (currentReducer w) (currentState w) (currentListeners w) r
    (isDispatching w) (arrays w) (subscriptions w) (unexpectedKeyCaches w)
    (nextObjectId w) (entropy w) (console w) (trace w).

Definition set_isDispatching (b : bool) (w : world) : world :=
  mkWorld (currentReducer w) (currentState w) (currentListeners w)
    (nextListeners w) b (arrays w) (subscriptions w) (unexpectedKeyCaches w)
    (nextObjectId w) (entropy w) (console w) (trace w).

Definition set_arrays (a : list (list value)) (w : world) : world :=
  mkWorld (currentReducer w) (currentState w) (currentListeners w)
    (nextListeners w) (isDispatching w) a (subscriptions w)
    (unexpectedKeyCaches w) (nextObjectId w) (entropy w) (console w) (trace w).

Definition set_subscriptions (s : list (value * bool)) (w : world) : world :=
  mkWorld (currentReducer w) (currentState w) (currentListeners w)
    (nextListeners w) (isDispatching w) (arrays w) s (unexpectedKeyCaches w)
    (nextObjectId w) (entropy w) (console w) (trace w).

Definition set_unexpectedKeyCaches (c : list (list string)) (w : world) : world :=
  mkWorld (currentReducer w) (currentState w) (currentListeners w)
    (nextListeners w) (isDispatching w) (arrays w) (subscriptions w) c
    (nextObjectId w) (entropy w) (console w) (trace w).

Definition set_nextObjectId (n : nat) (w : world) : world :=
  mkWorld (currentReducer w) (currentState w) (currentListeners w)
    (nextListeners w) (isDispatching w) (arrays w) (subscriptions w)
    (unexpectedKeyCaches w) n (entropy w) (console w) (trace w).

Definition set_entropy (e : list string) (w : world) : world :=
  mkWorld (currentReducer w) (currentState w) (currentListeners w)
    (nextListeners w) (isDispatching w) (arrays w) (subscriptions w)
    (unexpectedKeyCaches w) (nextObjectId w) e (console w) (trace w).

Definition set_console (c : list string) (w : world) : world :=
  mkWorld (currentReducer w) (currentState w) (currentListeners w)
    (nextListeners w) (isDispatching w) (arrays w) (subscriptions w)
    (unexpectedKeyCaches w) (nextObjectId w) (entropy w) c (trace w).

Definition set_trace (t : list event) (w : world) : world :=
  mkWorld (currentReducer w) (currentState w) (currentListeners w)
    (nextListeners w) (isDispatching w) (arrays w) (subscriptions w)
    (unexpectedKeyCaches w) (nextObjectId w) (entropy w) (console w) t.

(** A world in which nothing has been created yet. *)
Definition empty_world : world :=
  mkWorld VUndefined VUndefined 0 0 false [] [] [] 0 [] [] [].

(** ** Computations

    A computation threads the world and ends by returning, by throwing,
    or not at all ([None]: the interpreter ran out of fuel). *)
Definition M (A : Type) : Type := world -> option (result A * world).

Definition ret {A : Type} (a : A) : M A :=
  fun w => Some (Normal a, w).

Definition bind {A B : Type} (m : M A) (k : A -> M B) : M B :=
  fun w =>
    match m w with
    | None => None
    | Some (Normal a, w') => k a w'
    | Some (Thrown e, w') => Some (Thrown e, w')
    end.

Declare Scope js_scope.
Delimit Scope js_scope with js.
Notation "'let*' x := c 'in' k" := (bind c (fun x => k))
  (at level 10, x pattern, c at level 100, k at level 200,
   format "'[v' 'let*'  x  :=  c  'in' '/' k ']'") : js_scope.
Notation "c ;; k" := (bind c (fun _ => k))
  (at level 100, k at level 200, right associativity) : js_scope.
Local Open Scope js_scope.

Definition throw {A : Type} (e : value) : M A :=
  fun w => Some (Thrown e, w).

Definition diverge {A : Type} : M A :=
  fun _ => None.

Definition gets {A : Type} (f : world -> A) : M A :=
  fun w => Some (Normal (f w), w).

Definition modify (f : world -> world) : M unit :=
  fun w => Some (Normal tt, f w).

Definition lift {A : Type} (r : result A) : M A :=
  fun w => Some (r, w).

(** [try { body } finally { fin }], for a [fin] that only assigns. *)
Definition try_finally {A : Type} (body : M A) (fin : world -> world) : M A :=
  fun w =>
    match body w with
    | None => None
    | Some (r, w') => Some (r, fin w')
    end.

(** The outcome of a call, handed to the caller as data. *)
Definition attempt {A : Type} (m : M A) : M (result A) :=
  fun w =>
    match m w with
    | None => None
    | Some (r, w') => Some (Normal r, w')
    end.

(** The double-quote character, for messages. *)
Definition dq : string := String (Ascii.ascii_of_nat 34) EmptyString.

Definition new_error (message : string) : value := VError "Error" message.
Definition new_type_error (message : string) : value := VError "TypeError" message.

(** The identity of a newly allocated object. *)
Definition fresh_id : M nat :=
  fun w => Some (Normal (nextObjectId w), set_nextObjectId (S (nextObjectId w)) w).

(** An object literal: a fresh identity and the given properties. *)
Definition new_object (k : kind) (props : list (string * value)) : M value :=
  let* id := fresh_id in ret (VObj id k props).

Definition log_event (e : event) : M unit :=
  modify (fun w => set_trace (trace w ++ [e]) w).

(** ** Arrays of listeners *)

Definition array_at (w : world) (r : nat) : list value :=
  default [] (arrays w !! r).

(** [a.slice()]: a new array object with the same elements. *)
Definition array_slice (r : nat) : M nat :=
  fun w => Some (Normal (length (arrays w)),
                 set_arrays (arrays w ++ [array_at w r]) w).

(** [a.push(x)]. *)
Definition array_push (r : nat) (x : value) : M unit :=
  modify (fun w => set_arrays (<[r := array_at w r ++ [x]]> (arrays w)) w).

(** [a.indexOf(x)]: first index holding a value [===] to [x], or -1. *)
Fixpoint index_from (i : Z) (x : value) (l : list value) : Z :=
  match l with
  | [] => (-1)%Z
  | y :: rest => if JS.strict_eq y x then i else index_from (i + 1)%Z x rest
  end.

Definition indexOf (x : value) (l : list value) : Z := index_from 0%Z x l.

(** [a.splice(start, 1)] on the elements: a negative [start] counts from
    the end (and is clamped to 0), a [start] past the end removes
    nothing. *)
Definition splice_one (start : Z) (l : list value) : list value :=
  let len := Z.of_nat (length l) in
  let actual := if (start <? 0)%Z then Z.max (len + start) 0 else Z.min start len in
  let n := Z.to_nat actual in
  take n l ++ drop (S n) l.

Definition array_splice_one (r : nat) (start : Z) : M unit :=
  modify (fun w => set_arrays (<[r := splice_one start (array_at w r)]> (arrays w)) w).

(** ** User code

    A user function is a program over the operations it can reach: the
    store's methods, calls of function values (among them [unsubscribe]
    and [combination] closures), and object literals.  The continuation
    of an operation receives its outcome, so a program may catch what
    the operation throws. *)
Inductive op : Type :=
| OpDispatch (action : value)
| OpGetState
| OpSubscribe (listener : value)
| OpReplaceReducer (nextReducer : value)
| OpCall (f : value) (args : list value)
| OpObject (k : kind) (props : list (string * value)).

Inductive prog : Type :=
| Ret (v : value)
| Throw (e : value)
| Do (o : op) (k : result value -> prog).

(** Sequencing of programs: the rest runs on a normal return. *)
Fixpoint seq (p : prog) (k : value -> prog) : prog :=
  match p with
  | Ret v => k v
  | Throw e => Throw e
  | Do o k' => Do o (fun r => seq (k' r) k)
  end.

(** A JavaScript function body: from the argument list to a program. *)
Definition jsfun : Type := list value -> prog.

Definition arg (i : nat) (args : list value) : value :=
  default VUndefined (args !! i).

(** ** The library, over a way to call function values *)

Definition ActionTypes_INIT : string := "@@redux/INIT".

(** What [createStore] returns: the store object, whose methods act on
    the world, or, when an enhancer is given, the value of
    [enhancer(createStore)(reducer, preloadedState)], which is left
    uninterpreted. *)
Inductive created : Type :=
| StoreObject
| Enhanced (enhancer reducer preloadedState : value).

Section Library.

(** [invoke f args] is the call [f(...args)]; [budget] bounds the
    iterations of the notification loop, whose array is read anew at
    every iteration. *)
Variable invoke : value -> list value -> M value.
Variable budget : nat.

(** *** createStore.js *)

Definition ensureCanMutateNextListeners : M unit :=
  let* next := gets nextListeners in
  let* cur := gets currentListeners in
  if Nat.eqb next cur then
    let* copy := array_slice cur in
    modify (set_nextListeners copy)
  else ret tt.

Definition getState : M value := gets currentState.

(** The closure returned by the [h]-th call of [subscribe]. *)
Definition unsubscribe (h : nat) : M value :=
  let* cell := gets (fun w : world => subscriptions w !! h) in
  match cell with
  | None => throw (new_type_error "unsubscribe is not a function")
  | Some (listener, isSubscribed) =>
      if negb isSubscribed then ret VUndefined
      else
        modify (fun w => set_subscriptions
                           (<[h := (listener, false)]> (subscriptions w)) w);;
        ensureCanMutateNextListeners;;
        let* next := gets nextListeners in
        let* index := gets (fun w => indexOf listener (array_at w next)) in
        array_splice_one next index;;
        ret VUndefined
  end.

Definition subscribe (listener : value) : M value :=
  if negb (JS.is_function listener) then
    throw (new_error "Expected listener to be a function.")
  else
    let* h := gets (fun w => length (subscriptions w)) in
    modify (fun w => set_subscriptions (subscriptions w ++ [(listener, true)]) w);;
    ensureCanMutateNextListeners;;
    let* next := gets nextListeners in
    array_push next listener;;
    ret (VUnsubscribe h).

(** [for (let i = 0; i < listeners.length; i++) listeners[i]()],
    entered at index [i]. *)
Fixpoint notify (steps : nat) (listeners : nat) (i : nat) : M unit :=
  match steps with
  | O => diverge
  | S steps' =>
      let* len := gets (fun w => length (array_at w listeners)) in
      if Nat.ltb i len then
        let* listener := gets (fun w => default VUndefined (array_at w listeners !! i)) in
        let* dispatching := gets isDispatching in
        log_event (EvNotify dispatching listener);;
        invoke listener [];;
        notify steps' listeners (S i)
      else ret tt
  end.

Definition dispatch (action : value) : M value :=
  if negb (JS.isPlainObject action) then
    throw (new_error
      "Actions must be plain objects. Use custom middleware for async actions.")
  else
    let* type := lift (JS.get_prop action "type") in
    if JS.is_undefined type then
      throw (new_error
        ("Actions may not have an undefined " ++ dq ++ "type" ++ dq
         ++ " property. Have you misspelled a constant?"))
    else
      let* dispatching := gets isDispatching in
      if dispatching then throw (new_error "Reducers may not dispatch actions.")
      else
        try_finally
          (modify (set_isDispatching true);;
           let* reducer := gets currentReducer in
           let* state := gets currentState in
           let* dispatching := gets isDispatching in
           log_event (EvReduce dispatching state action);;
           let* next := invoke reducer [state; action] in
           modify (set_currentState next))
          (set_isDispatching false);;
        modify (fun w => set_currentListeners (nextListeners w) w);;
        let* listeners := gets currentListeners in
        notify budget listeners 0;;
        ret action.

Definition init_action : M value :=
  new_object KPlain [("type", VStr ActionTypes_INIT)].

Definition replaceReducer (nextReducer : value) : M value :=
  if negb (JS.is_function nextReducer) then
    throw (new_error "Expected the nextReducer to be a function.")
  else
    modify (set_currentReducer nextReducer);;
    let* init := init_action in
    dispatch init;;
    ret VUndefined.

Definition createStore (reducer preloadedState enhancer : value) : M created :=
  let swap := JS.is_function preloadedState && JS.is_undefined enhancer in
  let enhancer' := if swap then preloadedState else enhancer in
  let preloadedState' := if swap then VUndefined else preloadedState in
  if negb (JS.is_undefined enhancer') then
    if negb (JS.is_function enhancer') then
      throw (new_error "Expected the enhancer to be a function.")
    else ret (Enhanced enhancer' reducer preloadedState')
  else if negb (JS.is_function reducer) then
    throw (new_error "Expected the reducer to be a function.")
  else
    modify (set_currentReducer reducer);;
    modify (set_currentState preloadedState');;
    let* fresh := gets (fun w => length (arrays w)) in
    modify (fun w => set_arrays (arrays w ++ [[]]) w);;
    modify (set_currentListeners fresh);;
    modify (set_nextListeners fresh);;
    modify (set_isDispatching false);;
    let* init := init_action in
    dispatch init;;
    ret StoreObject.

End Library.

(** ** compose.js *)

(** [funcs.reduce((a, b) => (...args) => a(b(...args)))] starts from
    [funcs[0]] and folds the remaining functions in from the left. *)
Definition compose (funcs : list jsfun) : jsfun :=
  match funcs with
  | [] => fun args => Ret (arg 0 args)
  | [f] => f
  | f :: rest =>
      fold_left (fun a b => fun args => seq (b args) (fun x => a [x])) rest f
  end.

(** ** combineReducers.js *)

Module Messages.

(** [String(v)] for the values an action type usually is; objects
    print their default tag and functions a placeholder for their
    source text.  It is the text of [v.toString()] for booleans,
    strings and the integers below [1e21] in size; larger numbers
    print in exponent form, arrays print their elements. *)
Definition to_string (v : value) : string :=
  match v with
  | VUndefined => "undefined"
  | VNull => "null"
  | VBool true => "true"
  | VBool false => "false"
  | VNum n => pretty n
  | VNaN => "NaN"
  | VStr s => s
  | VObj _ _ _ => "[object Object]"
  | VError name message => name ++ ": " ++ message
  | VFun _ | VUnsubscribe _ | VCombination _ _ _ => "function () { ... }"
  end.

(** [({}).toString.call(v).match(/\s([a-z|A-Z]+)/)[1]]. *)
Definition class_name (v : value) : string :=
  match v with
  | VUndefined => "Undefined"
  | VNull => "Null"
  | VBool _ => "Boolean"
  | VNum _ | VNaN => "Number"
  | VStr _ => "String"
  | VObj _ KPlain _ => "Object"
  | VObj _ KArray _ => "Array"
  | VObj _ (KInstance tag) _ => tag
  | VError _ _ => "Error"
  | VFun _ | VUnsubscribe _ | VCombination _ _ _ => "Function"
  end.

Definition undefined_during_initialization (key : string) : string :=
  "Reducer " ++ dq ++ key ++ dq ++ " returned undefined during initialization. "
  ++ "If the state passed to the reducer is undefined, you must "
  ++ "explicitly return the initial state. The initial state may "
  ++ "not be undefined. If you don't want to set a value for this reducer, "
  ++ "you can use null instead of undefined.".

Definition undefined_when_probed (key : string) : string :=
  "Reducer " ++ dq ++ key ++ dq ++ " returned undefined when probed with a random type. "
  ++ "Don't try to handle " ++ ActionTypes_INIT ++ " or other actions in "
  ++ dq ++ "redux/*" ++ dq ++ " "
  ++ "namespace. They are considered private. Instead, you must return the "
  ++ "current state for any unknown actions, unless it is undefined, "
  ++ "in which case you must return the initial state, regardless of the "
  ++ "action type. The initial state may not be undefined, but can be null.".

Definition no_valid_reducer : string :=
  "Store does not have a valid reducer. Make sure the argument passed "
  ++ "to combineReducers is an object whose values are reducers.".

Definition quoted_keys (keys : list string) : string :=
  dq ++ JS.join (dq ++ ", " ++ dq) keys ++ dq.

End Messages.

(** [action && action.type]. *)
Definition action_and_type (action : value) : value :=
  if JS.truthy action then
    match JS.get_prop action "type" with
    | Normal t => t
    | Thrown _ => VUndefined
    end
  else action.

Definition getUndefinedStateErrorMessage (key : string) (action : value) : string :=
  let actionType := action_and_type action in
  let actionName :=
    (if JS.truthy actionType then dq ++ Messages.to_string actionType ++ dq
     else "an action")%string in
  ("Given action " ++ actionName ++ ", reducer " ++ dq ++ key ++ dq
   ++ " returned undefined. "
   ++ "To ignore an action, you must explicitly return the previous state. "
   ++ "If you want this reducer to hold no value, you can return null instead of undefined.")%string.

(** Modelled from the spec: [utils/warning], of which only the calls are
    in the sources; a warning is advisory output and never throws. *)
Definition warning (message : string) : M unit :=
  modify (fun w => set_console (console w ++ [message]) w).

(** [o.hasOwnProperty(key)], for an object [o] with the properties
    [props] none of which is named [hasOwnProperty]. *)
Definition has_own (key : string) (props : list (string * value)) : bool :=
  match JS.lookup_prop key props with
  | Some _ => true
  | None => false
  end.

(** The names of the members every object literal inherits from
    [Object.prototype].  [o[key]] for one of these names, when [o] has
    no own property of that name, is the inherited member. *)
Definition Object_prototype_members : list string :=
  ["constructor"; "__defineGetter__"; "__defineSetter__"; "hasOwnProperty";
   "__lookupGetter__"; "__lookupSetter__"; "isPrototypeOf"; "propertyIsEnumerable";
   "toString"; "valueOf"; "__proto__"; "toLocaleString"].

Definition inherited (key : string) : bool :=
  existsb (String.eqb key) Object_prototype_members.

(** [unexpectedKeyCache[key]], read for its truth value.  The cache is
    an object literal that starts empty and gets [true] under the keys
    it marks, so the read is truthy for the marked keys and for the
    names of inherited members, which are functions or, for
    [__proto__], an object. *)
Definition in_cache (key : string) (cache : list string) : bool :=
  existsb (String.eqb key) cache || inherited key.

(** Returns the message, or [None] for [undefined]; marks the keys it
    reports in the cache [cacheId]. *)
Definition getUnexpectedStateShapeWarningMessage
    (inputState : value) (reducers : list (string * value)) (action : value)
    (cacheId : nat) : M (option string) :=
  let reducerKeys := map fst reducers in
  let argumentName :=
    if JS.truthy action && JS.strict_eq (action_and_type action) (VStr ActionTypes_INIT)
    then "preloadedState argument passed to createStore"
    else "previous state received by the reducer" in
  if Nat.eqb (length reducerKeys) 0 then ret (Some Messages.no_valid_reducer)
  else if negb (JS.isPlainObject inputState) then
    ret (Some ("The " ++ argumentName ++ " has unexpected type of " ++ dq
               ++ Messages.class_name inputState ++ dq
               ++ ". Expected argument to be an object with the following "
               ++ "keys: " ++ Messages.quoted_keys reducerKeys)%string)
  else
    let* cache := gets (fun w => default [] (unexpectedKeyCaches w !! cacheId)) in
    let unexpectedKeys :=
      List.filter (fun key => negb (has_own key reducers) && negb (in_cache key cache))
             (JS.keys inputState) in
    modify (fun w => set_unexpectedKeyCaches
                       (<[cacheId := cache ++ unexpectedKeys]> (unexpectedKeyCaches w)) w);;
    if Nat.ltb 0 (length unexpectedKeys) then
      ret (Some ("Unexpected " ++ (if Nat.ltb 1 (length unexpectedKeys) then "keys" else "key")
                 ++ " " ++ Messages.quoted_keys unexpectedKeys
                 ++ " found in " ++ argumentName ++ ". "
                 ++ "Expected to find one of the known reducer keys instead: "
                 ++ Messages.quoted_keys reducerKeys
                 ++ ". Unexpected keys will be ignored.")%string)
    else ret None.

(** [Math.random().toString(36).substring(7)]: the next string of the
    world's entropy. *)
Definition random_tail : M string :=
  fun w =>
    match entropy w with
    | [] => Some (Normal EmptyString, w)
    | s :: rest => Some (Normal s, set_entropy rest w)
    end.

(** [s.split('').join('.')]. *)
Definition dotted (s : string) : string :=
  JS.join "." (map (fun c => String c EmptyString) (list_ascii_of_string s)).

(** The action type of the probe, from the random tail. *)
Definition probe_type (tail : string) : string :=
  ("@@redux/PROBE_UNKNOWN_ACTION_" ++ dotted tail)%string.

Section Combine.

Variable production : bool.
Variable invoke : value -> list value -> M value.

(** [Object.keys(reducers).forEach(key => ...)], over the keys that
    remain. *)
Fixpoint assertReducerShape_each (reducers : list (string * value))
         (keys : list string) : M unit :=
  match keys with
  | [] => ret tt
  | key :: rest =>
      let reducer := default VUndefined (JS.lookup_prop key reducers) in
      let* init := new_object KPlain [("type", VStr ActionTypes_INIT)] in
      let* initialState := invoke reducer [VUndefined; init] in
      if JS.is_undefined initialState then
        throw (new_error (Messages.undefined_during_initialization key))
      else
        let* tail := random_tail in
        let type := probe_type tail in
        let* probe := new_object KPlain [("type", VStr type)] in
        let* probed := invoke reducer [VUndefined; probe] in
        if JS.is_undefined probed then
          throw (new_error (Messages.undefined_when_probed key))
        else assertReducerShape_each reducers rest
  end.

Definition assertReducerShape (reducers : list (string * value)) : M unit :=
  assertReducerShape_each reducers (map fst reducers).

(** The first loop of [combineReducers], over the keys that remain,
    with [finalReducers] as built so far. *)
Fixpoint collect_reducers (reducers : value) (keys : list string)
         (finalReducers : list (string * value)) : M (list (string * value)) :=
  match keys with
  | [] => ret finalReducers
  | key :: rest =>
      let* r := lift (JS.get_prop reducers key) in
      (if negb production && JS.is_undefined r then
         warning ("No reducer provided for key " ++ dq ++ key ++ dq)%string
       else ret tt);;
      collect_reducers reducers rest
        (if JS.is_function r then JS.assign_prop key r finalReducers
         else finalReducers)
  end.

(** The loop of [combination] over the keys that remain; [nextState]
    holds the properties assigned so far. *)
Fixpoint combination_each (finalReducers : list (string * value))
         (state action : value) (keys : list string)
         (hasChanged : bool) (nextState : list (string * value))
  : M (bool * list (string * value)) :=
  match keys with
  | [] => ret (hasChanged, nextState)
  | key :: rest =>
      let reducer := default VUndefined (JS.lookup_prop key finalReducers) in
      let* previousStateForKey := lift (JS.get_prop state key) in
      let* nextStateForKey := invoke reducer [previousStateForKey; action] in
      if JS.is_undefined nextStateForKey then
        throw (new_error (getUndefinedStateErrorMessage key action))
      else
        combination_each finalReducers state action rest
          (hasChanged || negb (JS.strict_eq nextStateForKey previousStateForKey))
          (JS.assign_prop key nextStateForKey nextState)
  end.

(** The reducer returned by [combineReducers], with its captured
    variables as arguments.  [const nextState = {}] takes its identity
    before the loop; the loop accumulates its properties. *)
Definition combination (cacheId : nat) (finalReducers : list (string * value))
           (shapeAssertionError : value) (state0 action : value) : M value :=
  let* state := (if JS.is_undefined state0 then new_object KPlain [] else ret state0) in
  if JS.truthy shapeAssertionError then throw shapeAssertionError
  else
    (if negb production then
       let* warningMessage :=
         getUnexpectedStateShapeWarningMessage state finalReducers action cacheId in
       match warningMessage with
       | Some message => warning message
       | None => ret tt
       end
     else ret tt);;
    let* nextStateId := fresh_id in
    let* looped :=
      combination_each finalReducers state action (map fst finalReducers) false [] in
    let hasChanged := fst looped in
    let nextState := VObj nextStateId KPlain (snd looped) in
    ret (if hasChanged then nextState else state).

Definition object_keys (v : value) : result (list string) :=
  match v with
  | VUndefined | VNull =>
      Thrown (new_type_error "Cannot convert undefined or null to object")
  | _ => Normal (JS.keys v)
  end.

Definition combineReducers (reducers : value) : M value :=
  let* reducerKeys := lift (object_keys reducers) in
  let* finalReducers := collect_reducers reducers reducerKeys [] in
  let* cacheId := gets (fun w => length (unexpectedKeyCaches w)) in
  modify (fun w => set_unexpectedKeyCaches (unexpectedKeyCaches w ++ [[]]) w);;
  let* outcome := attempt (assertReducerShape finalReducers) in
  let shapeAssertionError :=
    match outcome with
    | Normal _ => VUndefined
    | Thrown e => e
    end in
  ret (VCombination cacheId finalReducers shapeAssertionError).

End Combine.

(** ** Running user code *)

Section Interpreter.

(** [production] is [process.env.NODE_ENV === 'production'];
    [functions] gives the body of each user function. *)
Variable production : bool.
Variable functions : nat -> jsfun.

Section Level.

Variable invoke : value -> list value -> M value.
Variable budget : nat.

Definition perform (o : op) : M value :=
  match o with
  | OpDispatch action => dispatch invoke budget action
  | OpGetState => getState
  | OpSubscribe listener => subscribe listener
  | OpReplaceReducer nextReducer => replaceReducer invoke budget nextReducer
  | OpCall f args => invoke f args
  | OpObject k props => new_object k props
  end.

Fixpoint run (p : prog) : M value :=
  match p with
  | Ret v => ret v
  | Throw e => throw e
  | Do o k => let* r := attempt (perform o) in run (k r)
  end.

End Level.

(** [f(...args)] with [fuel] levels of nested calls into user code. *)
Fixpoint invoke (fuel : nat) (f : value) (args : list value) : M value :=
  match fuel with
  | O => diverge
  | S n =>
      match f with
      | VFun id => run (invoke n) n (functions id args)
      | VUnsubscribe h => unsubscribe h
      | VCombination id finalReducers shapeAssertionError =>
          combination production (invoke n) id finalReducers shapeAssertionError
                      (arg 0 args) (arg 1 args)
      | _ => throw (new_type_error (Messages.to_string f ++ " is not a function"))
      end
  end.

End Interpreter.

(** ** The dispatch loop as the specification words it

    Steps 5 and 6 of the specification: take the listener list as it
    stands after the reducer call, then call each of its members in
    order.  [notify_snapshot] walks an immutable copy of that list,
    where [notify] reads the array object again at every iteration. *)

Section Snapshot.

Variable invoke : value -> list value -> M value.

Fixpoint notify_snapshot (snapshot : list value) : M unit :=
  match snapshot with
  | [] => ret tt
  | listener :: rest =>
      let* dispatching := gets isDispatching in
      log_event (EvNotify dispatching listener);;
      invoke listener [];;
      notify_snapshot rest
  end.

(** The [try]/[finally] block of [dispatch]. *)
Definition reduce_block (action : value) : M unit :=
  try_finally
    (modify (set_isDispatching true);;
     let* reducer := gets currentReducer in
     let* state := gets currentState in
     let* dispatching := gets isDispatching in
     log_event (EvReduce dispatching state action);;
     let* next := invoke reducer [state; action] in
     modify (set_currentState next))
    (set_isDispatching false).

Definition dispatch_by_snapshot (action : value) : M value :=
  if negb (JS.isPlainObject action) then
    throw (new_error
      "Actions must be plain objects. Use custom middleware for async actions.")
  else
    let* type := lift (JS.get_prop action "type") in
    if JS.is_undefined type then
      throw (new_error
        ("Actions may not have an undefined " ++ dq ++ "type" ++ dq
         ++ " property. Have you misspelled a constant?"))
    else
      let* dispatching := gets isDispatching in
      if dispatching then throw (new_error "Reducers may not dispatch actions.")
      else
        reduce_block action;;
        let* snapshot := gets (fun w => array_at w (nextListeners w)) in
        modify (fun w => set_currentListeners (nextListeners w) w);;
        notify_snapshot snapshot;;
        ret action.

End Snapshot.

(** ** Invariants of the store *)

(** Both listener variables refer to allocated arrays. *)
Definition store_ok (w : world) : Prop :=
  currentListeners w < length (arrays w) /\ nextListeners w < length (arrays w).

(** An array no operation will write again: it is allocated, and if
    [nextListeners] refers to it then so does [currentListeners], so
    that [ensureCanMutateNextListeners] copies it first. *)
Definition frozen (r : nat) (w : world) : Prop :=
  r < length (arrays w) /\ (nextListeners w = r -> currentListeners w = r).

(** Reducers are entered with the guard set, listeners with it clear. *)
Definition event_ok (e : event) : Prop :=
  match e with
  | EvReduce dispatching _ _ => dispatching = true
  | EvNotify dispatching _ => dispatching = false
  end.

(** What any terminated piece of code leaves behind. *)
Record evolves (w w' : world) : Prop := mkEvolves {
  ev_guard : isDispatching w' = isDispatching w;
  ev_ok : store_ok w';
  ev_frozen : forall r, frozen r w -> frozen r w' /\ array_at w' r = array_at w r;
  ev_trace : exists t, trace w' = trace w ++ t /\ Forall event_ok t
}.

(** Computations that keep the store's invariants. *)
Definition safe {A : Type} (m : M A) : Prop :=
  forall w r w', store_ok w -> m w = Some (r, w') -> evolves w w'.

(** State changes outside the store's listener structure. *)
Definition inert (f : world -> world) : Prop :=
  forall w,
    isDispatching (f w) = isDispatching w
    /\ currentListeners (f w) = currentListeners w
    /\ nextListeners (f w) = nextListeners w
    /\ arrays (f w) = arrays w
    /\ trace (f w) = trace w.

(** [m'] does whatever [m] does, wherever [m] terminates. *)
Definition extends {A : Type} (m m' : M A) : Prop :=
  forall w x, m w = Some x -> m' w = Some x.

(** How many members of [l] are [===] to [x]. *)
Definition occurrences (x : value) (l : list value) : nat :=
  length (List.filter (fun y => JS.strict_eq y x) l).

(** How many times [listener] stands in the list the next dispatch
    will use. *)
Definition registrations (listener : value) (w : world) : nat :=
  occurrences listener (array_at w (nextListeners w)).

(** A reducer that is a function of its two arguments on the actions a
    store hands it. *)
Definition pure_reducer (functions : nat -> jsfun) (reducer : value)
           (f : value -> value -> value) : Prop :=
  exists id, reducer = VFun id
             /\ forall state action, JS.isPlainObject action = true ->
                                     functions id [state; action] = Ret (f state action).

(** The world [createStore] has built when it comes to its initial
    dispatch: the five variables initialised, the empty listener array
    allocated, and the INIT action object allocated. *)
Definition prepared_store (reducer preloadedState : value) (w : world) : world :=
  set_nextObjectId (S (nextObjectId w))
    (set_isDispatching false
       (set_nextListeners (length (arrays w))
          (set_currentListeners (length (arrays w))
             (set_arrays (arrays w ++ [[]])
                (set_currentState preloadedState
                   (set_currentReducer reducer w)))))).

(** ** Vocabulary for composed reducers *)

(** The entries of a mapping that [combineReducers] keeps. *)
Definition surviving (props : list (string * value)) : list (string * value) :=
  List.filter (fun kv => JS.is_function (snd kv)) props.

(** [state[key]] for a state whose properties can be read. *)
Definition prev_part (state : value) (key : string) : value :=
  match JS.get_prop state key with
  | Normal v => v
  | Thrown _ => VUndefined
  end.

(** Error objects, of which [===] never holds here. *)
Definition is_error (v : value) : bool :=
  match v with
  | VError _ _ => true
  | _ => false
  end.

(** Values whose [toString()] is what [Messages.to_string] prints: the
    primitives, numbers below [1e21] in size. *)
Definition printable (v : value) : bool :=
  match v with
  | VUndefined | VNull | VBool _ | VNaN | VStr _ => true
  | VNum n => (Z.abs n <? 10 ^ 21)%Z
  | _ => false
  end.

(** [nextStateForKey !== previousStateForKey]. *)
Definition part_changed (state : value) (kv : string * value) : bool :=
  negb (JS.strict_eq (snd kv) (prev_part state (fst kv))).

Definition action_of_type (id : nat) (type : string) : value :=
  VObj id KPlain [("type", VStr type)].

(** ** Sample user code *)

Module Demo.

(** [(s = 0, a) => a.type === 'INC' ? s + 1 : s]. *)
Definition counter : jsfun := fun args =>
  let s := if JS.is_undefined (arg 0 args) then VNum 0 else arg 0 args in
  match JS.get_prop (arg 1 args) "type" with
  | Thrown e => Throw e
  | Normal type =>
      Ret (if JS.strict_eq type (VStr "INC") then JS.add s (VNum 1) else s)
  end.

Definition counter_fn (state action : value) : value :=
  let s := if JS.is_undefined state then VNum 0 else state in
  if JS.strict_eq (prev_part action "type") (VStr "INC")
  then JS.add s (VNum 1) else s.

(** [() => { store.subscribe(noop) }]. *)
Definition subscriber : jsfun := fun _ =>
  Do (OpSubscribe (VFun 2)) (fun r =>
    match r with
    | Normal _ => Ret VUndefined
    | Thrown e => Throw e
    end).

(** [() => {}]. *)
Definition noop : jsfun := fun _ => Ret VUndefined.

(** [() => { unsubscribe0() }], for the closure the first call of
    [subscribe] returned. *)
Definition unsubscriber : jsfun := fun _ =>
  Do (OpCall (VUnsubscribe 0) []) (fun r =>
    match r with
    | Normal _ => Ret VUndefined
    | Thrown e => Throw e
    end).

(** [(s, a) => { try { store.getState(); return 'getState returned' }
                 catch (e) { return 'getState threw' } }]. *)
Definition peeking_reducer : jsfun := fun _ =>
  Do OpGetState (fun r =>
    match r with
    | Normal _ => Ret (VStr "getState returned")
    | Thrown _ => Ret (VStr "getState threw")
    end).

(** [(s, a) => { try { store.dispatch({ type: 'X' }); return 'dispatched' }
                 catch (e) { return e.message } }]. *)
Definition dispatching_reducer : jsfun := fun _ =>
  Do (OpObject KPlain [("type", VStr "X")]) (fun r =>
    match r with
    | Thrown e => Throw e
    | Normal action =>
        Do (OpDispatch action) (fun r' =>
          match r' with
          | Normal _ => Ret (VStr "dispatched")
          | Thrown (VError _ message) => Ret (VStr message)
          | Thrown _ => Ret VUndefined
          end)
    end).

(** [() => { if (store.getState() === 1) store.dispatch({ type: 'INC' }) }]. *)
Definition dispatching_listener : jsfun := fun _ =>
  Do OpGetState (fun r =>
    match r with
    | Thrown e => Throw e
    | Normal state =>
        if JS.strict_eq state (VNum 1) then
          Do (OpObject KPlain [("type", VStr "INC")]) (fun r' =>
            match r' with
            | Thrown e => Throw e
            | Normal action =>
                Do (OpDispatch action) (fun r'' =>
                  match r'' with
                  | Normal _ => Ret VUndefined
                  | Thrown e => Throw e
                  end)
            end)
        else Ret VUndefined
    end).

(** [(s, a) => a.type === 'X' ? s : (s === undefined ? 0 : s)]. *)
Definition lenient_reducer : jsfun := fun args =>
  match JS.get_prop (arg 1 args) "type" with
  | Thrown e => Throw e
  | Normal type =>
      Ret (if JS.strict_eq type (VStr "X") then arg 0 args
           else if JS.is_undefined (arg 0 args) then VNum 0 else arg 0 args)
  end.

(** [(s, a) => s]. *)
Definition silent_reducer : jsfun := fun args => Ret (arg 0 args).

Definition functions (id : nat) : jsfun :=
  match id with
  | 0 => counter
  | 1 => subscriber
  | 2 => noop
  | 3 => unsubscriber
  | 4 => peeking_reducer
  | 5 => dispatching_reducer
  | 6 => dispatching_listener
  | 7 => lenient_reducer
  | 8 => silent_reducer
  | _ => noop
  end.

(** Calls at ten levels of nesting, outside production. *)
Definition call : value -> list value -> M value := invoke false functions 10.

Definition dispatch_type (type : string) : M value :=
  let* action := new_object KPlain [("type", VStr type)] in
  dispatch call 10 action.

Definition world_after {A : Type} (m : M A) : world :=
  match m empty_world with
  | Some (_, w) => w
  | None => empty_world
  end.

(** [createStore(counter)], then three times [dispatch({ type: 'INC' })]
    and [getState()]. *)
Definition counter_scenario (invoke : value -> list value -> M value)
           (budget : nat) (reducer : value) : M value :=
  createStore invoke budget reducer VUndefined VUndefined;;
  (let* a := new_object KPlain [("type", VStr "INC")] in dispatch invoke budget a);;
  (let* a := new_object KPlain [("type", VStr "INC")] in dispatch invoke budget a);;
  (let* a := new_object KPlain [("type", VStr "INC")] in dispatch invoke budget a);;
  getState.

(** A counter store with two listeners: one unsubscribes itself, the
    other subscribes a third. *)
Definition busy_world : world :=
  Eval vm_compute in
    world_after (createStore call 10 (VFun 0) VUndefined VUndefined;;
                 subscribe (VFun 3);;
                 subscribe (VFun 1)).

(** A counter store whose listener dispatches once more. *)
Definition nested_world : world :=
  Eval vm_compute in
    world_after (createStore call 10 (VFun 0) VUndefined VUndefined;;
                 subscribe (VFun 6)).

(** What the reducers of [{ count: counter, silent: silent_reducer }]
    return on an undefined state, by key and action type. *)
Definition response (key type : string) : value :=
  if String.eqb key "count" then
    if String.eqb type "INC" then VNum 1 else VNum 0
  else VUndefined.

(** A fresh counter store. *)
Definition counter_world : world :=
  Eval vm_compute in
    world_after (createStore call 10 (VFun 0) VUndefined VUndefined).

End Demo.

(** * Further parts of the library *)

(** ** Subscriptions and the listener list *)

(** How many subscriptions that are still active hold a listener [===]
    to [listener]. *)
Definition active (listener : value) (subs : list (value * bool)) : nat :=
  length (List.filter (fun cell => snd cell && JS.strict_eq (fst cell) listener) subs).

(** The listener list and the subscription cells agree: every active
    cell holds a function, and a listener stands in the list as often
    as it has active subscriptions. *)
Definition listed (w : world) : Prop :=
  (forall h listener, subscriptions w !! h = Some (listener, true) ->
                      JS.is_function listener = true)
  /\ forall listener, registrations listener w = active listener (subscriptions w).

(** What code leaves behind beyond [evolves]: the agreement of list and
    cells, and, when entered under the guard, the state and the trace. *)
Definition tidy (w w' : world) : Prop :=
  (listed w -> listed w')
  /\ (isDispatching w = true ->
      currentState w' = currentState w /\ trace w' = trace w).

Definition neat {A : Type} (m : M A) : Prop :=
  forall w r w', store_ok w -> m w = Some (r, w') -> tidy w w'.

(** State changes outside the listener list, the cells, the state and
    the trace. *)
Definition discreet (f : world -> world) : Prop :=
  forall w,
    nextListeners (f w) = nextListeners w
    /\ arrays (f w) = arrays w
    /\ subscriptions (f w) = subscriptions w
    /\ currentState (f w) = currentState w
    /\ trace (f w) = trace w.

Definition one_if (b : bool) : nat := if b then 1 else 0.

(** Computations that leave the console as it is. *)
Definition silent {A : Type} (m : M A) : Prop :=
  forall w r w', m w = Some (r, w') -> console w' = console w.

(** A listener that returns at once. *)
Definition returns_at_once (functions : nat -> jsfun) (listener : value) : Prop :=
  exists id v, listener = VFun id /\ functions id [] = Ret v.

(** A listener that throws at once. *)
Definition throws_at_once (functions : nat -> jsfun) (listener e : value) : Prop :=
  exists id, listener = VFun id /\ functions id [] = Throw e.

(** The world in which [dispatch] starts to notify, when the reducer
    has returned [next] and done nothing else. *)
Definition reduced (next action : value) (w : world) : world :=
  set_currentListeners (nextListeners w)
    (set_isDispatching false
       (set_currentState next
          (set_trace (trace w ++ [EvReduce true (currentState w) action])
                     (set_isDispatching true w)))).

(** ** Store methods and function values inside programs *)

(** The outcome of an operation passed on as the program's own. *)
Definition outcome (r : result value) : prog :=
  match r with
  | Normal v => Ret v
  | Thrown e => Throw e
  end.

(** [f(...args)] for a function value [f]. *)
Definition call_value (f : value) : jsfun :=
  fun args => Do (OpCall f args) outcome.

(** The store's [dispatch] and [getState] as function bodies. *)
Definition store_dispatch : jsfun :=
  fun args => Do (OpDispatch (arg 0 args)) outcome.

Definition store_getState : jsfun :=
  fun _ => Do OpGetState outcome.

(** ** compose.js, calls in a row *)

(** [funcs[0](funcs[1](... funcs[n-1](x)))]: the calls are made from
    the last function to the first. *)
Fixpoint nested_calls (run : prog -> M value) (funcs : list jsfun) (x : value)
  : M value :=
  match funcs with
  | [] => ret x
  | f :: rest => let* y := nested_calls run rest x in run (f [y])
  end.

(** The function [compose] folds with: [(a, b) => (...args) => a(b(...args))]. *)
Definition compose_step (a b : jsfun) : jsfun :=
  fun args => seq (b args) (fun x => a [x]).

(** ** bindActionCreators.js *)

(** [(...args) => dispatch(actionCreator(...args))]. *)
Definition bindActionCreator (actionCreator : value) (dispatch : jsfun) : jsfun :=
  fun args => seq (call_value actionCreator args) (fun action => dispatch [action]).

(** What [bindActionCreators] returns: one bound function, or the
    object [boundActionCreators], given by its properties in order.
    The object's identity is not modelled. *)
Inductive bound : Type :=
| BoundFunction (f : jsfun)
| BoundObject (boundActionCreators : list (string * jsfun)).

(** [boundActionCreators[key] = f]. *)
Fixpoint assign_bound (key : string) (f : jsfun) (members : list (string * jsfun))
  : list (string * jsfun) :=
  match members with
  | [] => [(key, f)]
  | (k, g) :: rest =>
      if String.eqb k key then (k, f) :: rest
      else (k, g) :: assign_bound key f rest
  end.

(** The loop over [keys], with [boundActionCreators] as built so far. *)
Fixpoint bind_each (actionCreators : value) (dispatch : jsfun) (keys : list string)
         (boundActionCreators : list (string * jsfun))
  : result (list (string * jsfun)) :=
  match keys with
  | [] => Normal boundActionCreators
  | key :: rest =>
      match JS.get_prop actionCreators key with
      | Thrown e => Thrown e
      | Normal actionCreator =>
          bind_each actionCreators dispatch rest
            (if JS.is_function actionCreator
             then assign_bound key (bindActionCreator actionCreator dispatch)
                               boundActionCreators
             else boundActionCreators)
      end
  end.

Definition bindActionCreators_message (actionCreators : value) : string :=
  (("bindActionCreators expected an object or a function, instead received "
    ++ (if JS.strict_eq actionCreators VNull then "null" else JS.typeof actionCreators)
    ++ ". ")
   ++ ("Did you write " ++ dq ++ "import ActionCreators from" ++ dq
       ++ " instead of " ++ dq ++ "import * as ActionCreators from" ++ dq ++ "?"))%string.

Definition bindActionCreators (actionCreators : value) (dispatch : jsfun)
  : result bound :=
  if JS.is_function actionCreators then
    Normal (BoundFunction (bindActionCreator actionCreators dispatch))
  else if negb (String.eqb (JS.typeof actionCreators) "object")
          || JS.strict_eq actionCreators VNull then
    Thrown (new_error (bindActionCreators_message actionCreators))
  else
    match bind_each actionCreators dispatch (JS.keys actionCreators) [] with
    | Normal boundActionCreators => Normal (BoundObject boundActionCreators)
    | Thrown e => Thrown e
    end.

(** The entries [bindActionCreators] makes of the properties [props]. *)
Definition bound_entries (dispatch : jsfun) (props : list (string * value))
  : list (string * jsfun) :=
  map (fun kv => (fst kv, bindActionCreator (snd kv) dispatch)) (surviving props).

(** ** combineReducers.js, missing reducers *)

(** The warning for a key without reducer. *)
Definition no_reducer_warning (kv : string * value) : string :=
  ("No reducer provided for key " ++ dq ++ fst kv ++ dq)%string.

(** The entries whose value is [undefined]. *)
Definition missing (props : list (string * value)) : list (string * value) :=
  List.filter (fun kv => JS.is_undefined (snd kv)) props.

(** ** createStore.js, the observable *)

(** The closure [observeState] of [observable().subscribe(observer)]:
    [if (observer.next) observer.next(getState())]. *)
Definition observeState (observer : value) : jsfun :=
  fun _ =>
    match JS.get_prop observer "next" with
    | Thrown e => Throw e
    | Normal next =>
        if JS.truthy next then
          Do OpGetState (fun r =>
            match r with
            | Thrown e => Throw e
            | Normal state =>
                Do (OpCall next [state]) (fun r' =>
                  match r' with
                  | Normal _ => Ret VUndefined
                  | Thrown e => Throw e
                  end)
            end)
        else Ret VUndefined
    end.

Section Observable.

Variable invoke : value -> list value -> M value.

(** [observable().subscribe(observer)].  The closure [observeState] it
    creates is the function value [VFun closure], whose body the
    function table gives as [observeState observer]; the methods
    [[$$observable]] of the observable and of the store are not
    modelled. *)
Definition observable_subscribe (closure : nat) (observer : value) : M value :=
  if negb (String.eqb (JS.typeof observer) "object") then
    throw (new_type_error "Expected the observer to be an object.")
  else
    invoke (VFun closure) [];;
    let* unsubscribe := subscribe (VFun closure) in
    new_object KPlain [("unsubscribe", unsubscribe)].

End Observable.

(** ** applyMiddleware.js *)

(** Code that ends with a result of any type.  A middleware is called
    twice before it sees an action, with the API object and with the
    next dispatch function; both calls run user code, which may use the
    store, throw, or not return, and both return a function. *)
Inductive code (A : Type) : Type :=
| Done (a : A)
| Fail (e : value)
| Step (o : op) (k : result value -> code A).
Arguments Done {A} a.
Arguments Fail {A} e.
Arguments Step {A} o k.

(** The rest of the code runs on a normal return. *)
Fixpoint code_then {A B : Type} (c : code A) (k : A -> code B) : code B :=
  match c with
  | Done a => k a
  | Fail e => Fail e
  | Step o k' => Step o (fun r => code_then (k' r) k)
  end.

(** A program, then code on the value it returns. *)
Fixpoint prog_then {A : Type} (p : prog) (k : value -> code A) : code A :=
  match p with
  | Ret v => k v
  | Throw e => Fail e
  | Do o k' => Step o (fun r => prog_then (k' r) k)
  end.

(** The object a middleware receives. *)
Record middlewareAPI : Type := mkMiddlewareAPI {
  api_getState : jsfun;
  api_dispatch : jsfun
}.

(** [next => action => ...], a member of [chain]. *)
Definition wrapper : Type := jsfun -> code jsfun.

(** [api => next => action => ...]. *)
Definition middleware : Type := middlewareAPI -> code wrapper.

(** [compose] on the members of [chain]:
    [funcs.reduce((a, b) => (...args) => a(b(...args)))]. *)
Definition compose_chain (funcs : list wrapper) : wrapper :=
  match funcs with
  | [] => fun arg => Done arg
  | [f] => f
  | f :: rest => fold_left (fun a b => fun arg => code_then (b arg) a) rest f
  end.

(** The API object.  Its [dispatch] is [(action) => dispatch(action)],
    which reads the variable [dispatch] of the enhancer at every call.
    That variable is the function value [VFun slot], and the function
    table gives what it holds: the store's own [dispatch] while the
    enhancer runs, the dispatch function the enhancer returns from
    then on. *)
Definition the_middlewareAPI (slot : nat) : middlewareAPI :=
  {| api_getState := store_getState;
     api_dispatch := fun args => call_value (VFun slot) [arg 0 args] |}.

(** What the enhancer returns: the store with [dispatch] replaced, or,
    when the inner [createStore] was itself given an enhancer, a store
    that is left uninterpreted. *)
Inductive enhanced_store : Type :=
| WithDispatch (dispatch : jsfun)
| Deferred (enhancer reducer preloadedState : value).

Section ApplyMiddleware.

Variable invoke : value -> list value -> M value.
Variable budget : nat.

Fixpoint run_code {A : Type} (c : code A) : M A :=
  match c with
  | Done a => ret a
  | Fail e => throw e
  | Step o k => let* r := attempt (perform invoke budget o) in run_code (k r)
  end.

(** [middlewares.map(middleware => middleware(middlewareAPI))]. *)
Fixpoint map_middlewares (middlewareAPI : middlewareAPI) (middlewares : list middleware)
  : M (list wrapper) :=
  match middlewares with
  | [] => ret []
  | middleware :: rest =>
      let* f := run_code (middleware middlewareAPI) in
      let* fs := map_middlewares middlewareAPI rest in
      ret (f :: fs)
  end.

(** [applyMiddleware(...middlewares)(createStore)(reducer, preloadedState,
    enhancer)], for the [createStore] of this library.  Of the object
    returned, [dispatch] is kept; the other members are the store's. *)
Definition applyMiddleware (middlewares : list middleware) (slot : nat)
           (reducer preloadedState enhancer : value) : M enhanced_store :=
  let* store := createStore invoke budget reducer preloadedState enhancer in
  match store with
  | Enhanced e r p => ret (Deferred e r p)
  | StoreObject =>
      let* chain := map_middlewares (the_middlewareAPI slot) middlewares in
      let* dispatch := run_code (compose_chain chain store_dispatch) in
      ret (WithDispatch dispatch)
  end.

(** The members of [chain] called in turn, from the last to the first,
    each with the result of the one after it. *)
Fixpoint apply_chain (chain : list wrapper) (next : jsfun) : M jsfun :=
  match chain with
  | [] => ret next
  | f :: rest => let* inner := apply_chain rest next in run_code (f inner)
  end.

End ApplyMiddleware.

(** A middleware whose two outer calls only return: [layer api next]
    is the dispatch function it makes. *)
Definition settled (layer : middlewareAPI -> jsfun -> jsfun) : middleware :=
  fun api => Done (fun next => Done (layer api next)).

(** [api => { api.dispatch(action); return next => next }]: a middleware
    that dispatches while it is being set up. *)
Definition dispatching_early (action : value) : middleware :=
  fun api => prog_then (api_dispatch api [action]) (fun _ => Done (fun next => Done next)).

(** The dispatch function made of [layers], the first outermost. *)
Definition nested_dispatch (slot : nat) (layers : list (middlewareAPI -> jsfun -> jsfun))
  : jsfun :=
  fold_right (fun layer next => layer (the_middlewareAPI slot) next) store_dispatch layers.

(** ** More sample user code *)

Module More.

(** [() => { throw new Error('boom') }]. *)
Definition failing : jsfun := fun _ => Throw (new_error "boom").

(** [() => ({ type: 'INC' })]. *)
Definition increment : jsfun := fun _ =>
  Do (OpObject KPlain [("type", VStr "INC")]) outcome.

(** An observer whose [next] does nothing. *)
Definition observer : value := VObj 70 KPlain [("next", VFun 2)].

(** [api => next => action => next(action)]. *)
Definition forwarding : middlewareAPI -> jsfun -> jsfun :=
  fun _ next args => next [arg 0 args].

(** [api => next => action => { api.getState(); return next(action) }]. *)
Definition peeking : middlewareAPI -> jsfun -> jsfun :=
  fun api next args => seq (api_getState api []) (fun _ => next [arg 0 args]).

(** The function table while an enhancer with the variable [dispatch]
    at 23 runs. *)
Definition functions (id : nat) : jsfun :=
  match id with
  | 20 => failing
  | 21 => increment
  | 22 => observeState observer
  | 23 => store_dispatch
  | _ => Demo.functions id
  end.

(** A counter store with three listeners, the second of which throws. *)
Definition failing_world : world :=
  Eval vm_compute in
    Demo.world_after (createStore Demo.call 10 (VFun 0) VUndefined VUndefined;;
                      subscribe (VFun 2);;
                      subscribe (VFun 20);;
                      subscribe (VFun 2)).

Definition call : value -> list value -> M value := invoke false functions 10.

(** The function table once that enhancer has returned the dispatch
    function made of [peeking] and [forwarding]. *)
Definition enhanced_functions (id : nat) : jsfun :=
  match id with
  | 23 => nested_dispatch 23 [peeking; forwarding]
  | _ => functions id
  end.

(** A counter store with the listener [() => {}] subscribed twice. *)
Definition listening_world : world :=
  Eval vm_compute in
    Demo.world_after (createStore Demo.call 10 (VFun 0) VUndefined VUndefined;;
                      subscribe (VFun 2);;
                      subscribe (VFun 2)).

End More.

(** * Proofs *)

(** ** The invariants hold of all code *)

Lemma evolves_refl w : store_ok w -> evolves w w.
Proof.
  split; auto. exists []. rewrite app_nil_r. auto.
Qed.

Lemma evolves_trans w1 w2 w3 : evolves w1 w2 -> evolves w2 w3 -> evolves w1 w3.
Proof.
  intros [g1 o1 f1 [t1 [e1 a1]]] [g2 o2 f2 [t2 [e2 a2]]]. split.
  - congruence.
  - auto.
  - intros r Hr. destruct (f1 r Hr) as [Hr2 E1]. destruct (f2 r Hr2) as [Hr3 E2].
    split; [assumption | congruence].
  - exists (t1 ++ t2). rewrite e2, e1, app_assoc. split; [reflexivity|].
    apply Forall_app; auto.
Qed.

(** A change of fields that no invariant mentions. *)
Lemma evolves_same w w' :
  store_ok w ->
  isDispatching w' = isDispatching w ->
  currentListeners w' = currentListeners w ->
  nextListeners w' = nextListeners w ->
  arrays w' = arrays w ->
  trace w' = trace w ->
  evolves w w'.
Proof.
  intros [H1 H2] Hg Hc Hn Ha Ht. split.
  - assumption.
  - unfold store_ok. rewrite Hc, Hn, Ha. auto.
  - intros r [Hr Hf]. unfold frozen, array_at. rewrite Hc, Hn, Ha. auto.
  - exists []. rewrite app_nil_r. auto.
Qed.

(** Case analysis on a bind that terminated. *)
Lemma bind_inv {A B : Type} (m : M A) (k : A -> M B) w r w' :
  bind m k w = Some (r, w') ->
  (exists a w1, m w = Some (Normal a, w1) /\ k a w1 = Some (r, w'))
  \/ (exists e, m w = Some (Thrown e, w') /\ r = Thrown e).
Proof.
  unfold bind. destruct (m w) as [[[a|e] w1]|]; intros H.
  - left; eauto.
  - right. inversion H; subst. eauto.
  - discriminate.
Qed.

Lemma ensureCanMutateNextListeners_spec w :
  store_ok w ->
  exists w', ensureCanMutateNextListeners w = Some (Normal tt, w')
  /\ evolves w w'
  /\ array_at w' (nextListeners w') = array_at w (nextListeners w)
  /\ nextListeners w' <> currentListeners w'
  /\ subscriptions w' = subscriptions w.
Proof.
  intros [Hc Hn].
  unfold ensureCanMutateNextListeners, bind, gets, array_slice, modify, ret. simpl.
  destruct (Nat.eqb_spec (nextListeners w) (currentListeners w)) as [E|NE];
    simpl; eexists; (split; [reflexivity|]).
  - split; [|split; [|split]]; simpl; auto.
    + split; simpl; auto.
      * unfold store_ok; simpl. rewrite length_app; simpl. lia.
      * intros r [Hr Ha]. unfold frozen, array_at; simpl. rewrite length_app; simpl.
        split; [split; [lia|lia]|]. rewrite lookup_app_l by lia. reflexivity.
      * exists []. rewrite app_nil_r. auto.
    + unfold array_at; simpl. rewrite E.
      rewrite list_lookup_middle by reflexivity. reflexivity.
    + lia.
  - split; [apply evolves_refl; split; auto|]. repeat split; auto.
Qed.

(** Writing the array that only [nextListeners] refers to. *)
Lemma write_next_evolves w l :
  store_ok w ->
  nextListeners w <> currentListeners w ->
  evolves w (set_arrays (<[nextListeners w := l]> (arrays w)) w).
Proof.
  intros [Hc Hn] NE. split; simpl; auto.
  - unfold store_ok; simpl. rewrite length_insert. auto.
  - intros r [Hr Hf]. unfold frozen, array_at; simpl. rewrite length_insert.
    split; [auto|].
    rewrite list_lookup_insert_ne; [reflexivity|].
    intros E. apply NE. rewrite E. symmetry. apply Hf. exact E.
  - exists []. rewrite app_nil_r. auto.
Qed.

Lemma array_at_write w r l :
  r < length (arrays w) ->
  array_at (set_arrays (<[r := l]> (arrays w)) w) r = l.
Proof.
  intros H. unfold array_at; simpl. rewrite list_lookup_insert_eq by assumption.
  reflexivity.
Qed.

Lemma subscribe_spec listener w :
  store_ok w ->
  JS.is_function listener = true ->
  exists w', subscribe listener w = Some (Normal (VUnsubscribe (length (subscriptions w))), w')
  /\ evolves w w'
  /\ array_at w' (nextListeners w') = array_at w (nextListeners w) ++ [listener]
  /\ subscriptions w' = subscriptions w ++ [(listener, true)].
Proof.
  intros Hok Hf. unfold subscribe. rewrite Hf. simpl.
  set (w1 := set_subscriptions (subscriptions w ++ [(listener, true)]) w).
  assert (Hok1 : store_ok w1) by exact Hok.
  destruct (ensureCanMutateNextListeners_spec w1 Hok1) as (w2 & E2 & Ev2 & A2 & NE2 & S2).
  unfold bind at 1, gets at 1. unfold bind at 1, modify at 1. fold w1.
  unfold bind at 1. rewrite E2.
  unfold bind, gets, array_push, modify, ret.
  eexists; split; [reflexivity|].
  split; [|split].
  - apply evolves_trans with w1; [apply evolves_same; auto|].
    apply evolves_trans with w2; [assumption|].
    apply write_next_evolves; [apply Ev2 | assumption].
  - change (nextListeners (set_arrays _ w2)) with (nextListeners w2).
    rewrite array_at_write by apply Ev2. rewrite A2. reflexivity.
  - simpl. rewrite S2. reflexivity.
Qed.

Lemma subscribe_evolves listener w r w' :
  store_ok w -> subscribe listener w = Some (r, w') -> evolves w w'.
Proof.
  intros Hok H. destruct (JS.is_function listener) eqn:Hf.
  - destruct (subscribe_spec listener w Hok Hf) as (w2 & E & Ev & _).
    rewrite E in H. inversion H; subst. exact Ev.
  - unfold subscribe in H. rewrite Hf in H. simpl in H. inversion H; subst.
    apply evolves_refl; assumption.
Qed.

Lemma unsubscribe_active h listener w :
  store_ok w ->
  subscriptions w !! h = Some (listener, true) ->
  exists w', unsubscribe h w = Some (Normal VUndefined, w')
  /\ evolves w w'
  /\ array_at w' (nextListeners w')
     = splice_one (indexOf listener (array_at w (nextListeners w)))
                  (array_at w (nextListeners w))
  /\ subscriptions w' = <[h := (listener, false)]> (subscriptions w).
Proof.
  intros Hok Hh. unfold unsubscribe.
  unfold bind at 1, gets at 1. rewrite Hh. simpl.
  set (w1 := set_subscriptions (<[h := (listener, false)]> (subscriptions w)) w).
  assert (Hok1 : store_ok w1) by exact Hok.
  destruct (ensureCanMutateNextListeners_spec w1 Hok1) as (w2 & E2 & Ev2 & A2 & NE2 & S2).
  unfold bind at 1, modify at 1. fold w1.
  unfold bind at 1. rewrite E2.
  unfold bind, gets, array_splice_one, modify, ret.
  eexists; split; [reflexivity|].
  split; [|split].
  - apply evolves_trans with w1; [apply evolves_same; auto|].
    apply evolves_trans with w2; [assumption|].
    apply write_next_evolves; [apply Ev2 | assumption].
  - change (nextListeners (set_arrays _ w2)) with (nextListeners w2).
    rewrite array_at_write by apply Ev2. rewrite A2. reflexivity.
  - simpl. rewrite S2. reflexivity.
Qed.

Lemma unsubscribe_inactive h listener w :
  subscriptions w !! h = Some (listener, false) ->
  unsubscribe h w = Some (Normal VUndefined, w).
Proof.
  intros Hh. unfold unsubscribe, bind, gets. rewrite Hh. reflexivity.
Qed.

Lemma unsubscribe_evolves h w r w' :
  store_ok w -> unsubscribe h w = Some (r, w') -> evolves w w'.
Proof.
  intros Hok H. destruct (subscriptions w !! h) as [[l [|]]|] eqn:Hh.
  - destruct (unsubscribe_active h l w Hok Hh) as (w2 & E & Ev & _).
    rewrite E in H. inversion H; subst. exact Ev.
  - rewrite (unsubscribe_inactive h l w Hh) in H. inversion H; subst.
    apply evolves_refl; assumption.
  - unfold unsubscribe, bind, gets in H. rewrite Hh in H. inversion H; subst.
    apply evolves_refl; assumption.
Qed.

Lemma log_event_evolves e w :
  store_ok w -> event_ok e -> evolves w (set_trace (trace w ++ [e]) w).
Proof.
  intros Hok He. split; auto. simpl. exists [e]. auto.
Qed.

Section Library_evolves.

Variable invoke : value -> list value -> M value.
Variable budget : nat.
Hypothesis invoke_evolves :
  forall f args w r w', store_ok w -> invoke f args w = Some (r, w') -> evolves w w'.

Lemma notify_evolves steps listeners i w r w' :
  store_ok w ->
  isDispatching w = false ->
  notify invoke steps listeners i w = Some (r, w') ->
  evolves w w'.
Proof.
  revert i w. induction steps as [|steps IH]; intros i w Hok Hg H; [discriminate|].
  simpl in H. unfold bind at 1, gets at 1 in H.
  destruct (Nat.ltb i (length (array_at w listeners))).
  - unfold bind at 1, gets at 1 in H. unfold bind at 1, gets at 1 in H.
    unfold bind at 1, log_event, modify in H. rewrite Hg in H.
    set (w1 := set_trace _ w) in H.
    assert (Ev1 : evolves w w1) by (apply log_event_evolves; simpl; auto).
    unfold bind at 1 in H.
    destruct (invoke _ [] w1) as [[[v|e] w2]|] eqn:E; [| |discriminate].
    + assert (Ev2 : evolves w1 w2) by (eapply invoke_evolves; [apply Ev1 | exact E]).
      apply evolves_trans with w1; [assumption|].
      apply evolves_trans with w2; [assumption|].
      eapply IH; [apply Ev2 | | exact H].
      rewrite (ev_guard _ _ Ev2). exact Hg.
    + inversion H; subst.
      apply evolves_trans with w1; [assumption|].
      eapply invoke_evolves; [apply Ev1 | exact E].
  - inversion H; subst. apply evolves_refl; assumption.
Qed.

Lemma reduce_block_inv action w r w' :
  reduce_block invoke action w = Some (r, w') ->
  exists r1 w1,
    invoke (currentReducer w) [currentState w; action]
           (set_trace (trace w ++ [EvReduce true (currentState w) action])
                      (set_isDispatching true w)) = Some (r1, w1)
    /\ match r1 with
       | Normal v => r = Normal tt
                     /\ w' = set_isDispatching false (set_currentState v w1)
       | Thrown e => r = Thrown e /\ w' = set_isDispatching false w1
       end.
Proof.
  unfold reduce_block, try_finally, bind, modify, gets, log_event. simpl.
  destruct (invoke _ _ _) as [[[v|e] w1]|]; intros H; inversion H; subst;
    eexists; eexists; (split; [reflexivity|]); simpl; auto.
Qed.

Lemma reduce_block_evolves action w r w' :
  store_ok w ->
  isDispatching w = false ->
  reduce_block invoke action w = Some (r, w') ->
  evolves w w'
  /\ exists t, trace w' = trace w ++ EvReduce true (currentState w) action :: t.
Proof.
  intros Hok Hg H.
  destruct (reduce_block_inv _ _ _ _ H) as (r1 & w1 & E & Hr).
  apply invoke_evolves in E; [|exact Hok].
  destruct E as [g2 [o2c o2n] f2 [t2 [e2 a2]]]. simpl in *.
  assert (Hfin : forall w2, isDispatching w2 = false ->
             currentListeners w2 = currentListeners w1 ->
             nextListeners w2 = nextListeners w1 ->
             arrays w2 = arrays w1 -> trace w2 = trace w1 ->
             evolves w w2
             /\ exists t, trace w2 = trace w ++ EvReduce true (currentState w) action :: t).
  { intros w2 Hg2 Hc Hn Ha Ht. split; [split|].
    - congruence.
    - unfold store_ok. rewrite Hc, Hn, Ha. auto.
    - intros r0 Hr0. destruct (f2 r0 Hr0) as [[Hlen Hal] Harr].
      unfold frozen, array_at in *. rewrite Hc, Hn, Ha. auto.
    - exists (EvReduce true (currentState w) action :: t2).
      rewrite Ht, e2, <- app_assoc. simpl. split; [reflexivity|].
      constructor; simpl; auto.
    - exists t2. rewrite Ht, e2, <- app_assoc. reflexivity. }
  destruct r1 as [v|e]; destruct Hr as [_ ->]; apply Hfin; reflexivity.
Qed.

Lemma dispatch_evolves action w r w' :
  store_ok w ->
  dispatch invoke budget action w = Some (r, w') ->
  evolves w w'.
Proof.
  intros Hok H. unfold dispatch in H.
  destruct (JS.isPlainObject action); simpl in H;
    [| inversion H; subst; apply evolves_refl; assumption].
  unfold bind at 1, lift at 1 in H.
  destruct (JS.get_prop action "type") as [ty|e];
    [| inversion H; subst; apply evolves_refl; assumption].
  destruct (JS.is_undefined ty);
    [inversion H; subst; apply evolves_refl; assumption|].
  unfold bind at 1, gets at 1 in H.
  destruct (isDispatching w) eqn:Hg;
    [inversion H; subst; apply evolves_refl; assumption|].
  fold (reduce_block invoke action) in H.
  apply bind_inv in H. destruct H as [(u & w2 & E & H) | (e & E & _)].
  - apply reduce_block_evolves in E; [|assumption..]. destruct E as [Ev2 _].
    unfold bind at 1, modify at 1 in H. unfold bind at 1, gets at 1 in H.
    simpl in H.
    set (w3 := set_currentListeners _ _) in H.
    assert (Ev3 : evolves w2 w3).
    { destruct Ev2 as [g2 [o2c o2n] _ _]. split; auto.
      - split; simpl; auto.
      - intros r0 [Hlen Hal]. split; [split; simpl; auto | reflexivity].
      - exists []. rewrite app_nil_r. auto. }
    apply bind_inv in H.
    assert (Hg3 : isDispatching w3 = false).
    { rewrite (ev_guard _ _ Ev3), (ev_guard _ _ Ev2). exact Hg. }
    destruct H as [(u' & w4 & En & H) | (e & En & _)].
    + inversion H; subst.
      apply evolves_trans with w2; [assumption|].
      apply evolves_trans with w3; [assumption|].
      eapply notify_evolves; [apply Ev3 | exact Hg3 | exact En].
    + apply evolves_trans with w2; [assumption|].
      apply evolves_trans with w3; [assumption|].
      eapply notify_evolves; [apply Ev3 | exact Hg3 | exact En].
  - apply reduce_block_evolves in E; [|assumption..]. apply E.
Qed.

End Library_evolves.

Lemma safe_ret {A : Type} (a : A) : safe (ret a).
Proof. intros w r w' Hok H. inversion H; subst. apply evolves_refl; assumption. Qed.

Lemma safe_throw {A : Type} (e : value) : safe (@throw A e).
Proof. intros w r w' Hok H. inversion H; subst. apply evolves_refl; assumption. Qed.

Lemma safe_lift {A : Type} (x : result A) : safe (lift x).
Proof. intros w r w' Hok H. inversion H; subst. apply evolves_refl; assumption. Qed.

Lemma safe_gets {A : Type} (f : world -> A) : safe (gets f).
Proof. intros w r w' Hok H. inversion H; subst. apply evolves_refl; assumption. Qed.

Lemma safe_modify (f : world -> world) : inert f -> safe (modify f).
Proof.
  intros Hf w r w' Hok H. inversion H; subst.
  destruct (Hf w) as (? & ? & ? & ? & ?). apply evolves_same; assumption.
Qed.

Lemma safe_bind {A B : Type} (m : M A) (k : A -> M B) :
  safe m -> (forall a, safe (k a)) -> safe (bind m k).
Proof.
  intros Hm Hk w r w' Hok H.
  destruct (bind_inv _ _ _ _ _ H) as [(a & w1 & E1 & E2) | (e & E1 & _)].
  - pose proof (Hm _ _ _ Hok E1) as Ev1.
    apply evolves_trans with w1; [assumption|].
    eapply Hk; [apply Ev1 | exact E2].
  - eapply Hm; eauto.
Qed.

Lemma safe_attempt {A : Type} (m : M A) : safe m -> safe (attempt m).
Proof.
  intros Hm w r w' Hok H. unfold attempt in H.
  destruct (m w) as [[r1 w1]|] eqn:E; [|discriminate].
  inversion H; subst. eapply Hm; eauto.
Qed.

Lemma safe_fresh_id : safe fresh_id.
Proof.
  intros w r w' Hok H. inversion H; subst. apply evolves_same; auto.
Qed.

Lemma safe_new_object k props : safe (new_object k props).
Proof.
  unfold new_object. apply safe_bind; [apply safe_fresh_id | intros; apply safe_ret].
Qed.

Lemma safe_warning message : safe (warning message).
Proof. apply safe_modify. intros w. simpl. auto. Qed.

Lemma safe_random_tail : safe random_tail.
Proof.
  intros w r w' Hok H. unfold random_tail in H.
  destruct (entropy w); inversion H; subst;
    [apply evolves_refl | apply evolves_same]; auto.
Qed.

Lemma safe_getUnexpectedStateShapeWarningMessage inputState reducers action cacheId :
  safe (getUnexpectedStateShapeWarningMessage inputState reducers action cacheId).
Proof.
  unfold getUnexpectedStateShapeWarningMessage.
  destruct (Nat.eqb _ 0); [apply safe_ret|].
  destruct (negb _); [apply safe_ret|].
  apply safe_bind; [apply safe_gets|]. intros cache.
  apply safe_bind; [apply safe_modify; intros w; simpl; auto|]. intros _.
  destruct (Nat.ltb 0 _); apply safe_ret.
Qed.

Lemma safe_subscribe listener : safe (subscribe listener).
Proof. intros w r w' Hok H. eapply subscribe_evolves; eauto. Qed.

Lemma safe_unsubscribe h : safe (unsubscribe h).
Proof. intros w r w' Hok H. eapply unsubscribe_evolves; eauto. Qed.

Section Safe.

Variable production : bool.
Variable invoke : value -> list value -> M value.
Variable budget : nat.
Hypothesis safe_invoke : forall f args, safe (invoke f args).

Lemma safe_dispatch action : safe (dispatch invoke budget action).
Proof.
  intros w r w' Hok H. eapply dispatch_evolves; eauto.
Qed.

Lemma safe_replaceReducer nextReducer : safe (replaceReducer invoke budget nextReducer).
Proof.
  unfold replaceReducer. destruct (negb _); [apply safe_throw|].
  apply safe_bind; [apply safe_modify; intros w; simpl; auto|]. intros _.
  apply safe_bind; [apply safe_new_object|]. intros init.
  apply safe_bind; [apply safe_dispatch|]. intros _. apply safe_ret.
Qed.

Lemma safe_combination_each finalReducers state action keys hasChanged nextState :
  safe (combination_each invoke finalReducers state action keys hasChanged nextState).
Proof.
  revert hasChanged nextState.
  induction keys as [|key rest IH]; intros hasChanged nextState; simpl.
  - apply safe_ret.
  - apply safe_bind; [apply safe_lift|]. intros prev.
    apply safe_bind; [apply safe_invoke|]. intros next.
    destruct (JS.is_undefined next); [apply safe_throw | apply IH].
Qed.

Lemma safe_combination cacheId finalReducers shapeAssertionError state action :
  safe (combination production invoke cacheId finalReducers shapeAssertionError
                    state action).
Proof.
  unfold combination.
  apply safe_bind.
  { destruct (JS.is_undefined state); [apply safe_new_object | apply safe_ret]. }
  intros state'.
  destruct (JS.truthy shapeAssertionError); [apply safe_throw|].
  apply safe_bind.
  { destruct (negb production); [|apply safe_ret].
    apply safe_bind; [apply safe_getUnexpectedStateShapeWarningMessage|].
    intros [message|]; [apply safe_warning | apply safe_ret]. }
  intros _.
  apply safe_bind; [apply safe_fresh_id|]. intros nextStateId.
  apply safe_bind; [apply safe_combination_each|]. intros looped.
  apply safe_ret.
Qed.

Lemma safe_perform o : safe (perform invoke budget o).
Proof.
  destruct o; simpl.
  - apply safe_dispatch.
  - apply safe_gets.
  - apply safe_subscribe.
  - apply safe_replaceReducer.
  - apply safe_invoke.
  - apply safe_new_object.
Qed.

Lemma safe_run p : safe (run invoke budget p).
Proof.
  induction p as [v|e|o k IH]; simpl.
  - apply safe_ret.
  - apply safe_throw.
  - apply safe_bind; [apply safe_attempt, safe_perform | exact IH].
Qed.

End Safe.

Lemma safe_invoke production functions fuel :
  forall f args, safe (invoke production functions fuel f args).
Proof.
  induction fuel as [|n IH]; intros f args.
  - intros w r w' _ H. discriminate.
  - destruct f; simpl; try apply safe_throw.
    + apply safe_run. exact IH.
    + apply safe_unsubscribe.
    + apply safe_combination. exact IH.
Qed.

(** ** Fuel only decides whether a call terminates *)

Lemma extends_refl {A : Type} (m : M A) : extends m m.
Proof. intros w x H. exact H. Qed.

Lemma extends_bind {A B : Type} (m m' : M A) (k k' : A -> M B) :
  extends m m' -> (forall a, extends (k a) (k' a)) ->
  extends (bind m k) (bind m' k').
Proof.
  intros Hm Hk w x H. unfold bind in *.
  destruct (m w) as [[[a|e] w1]|] eqn:E; [| |discriminate];
    rewrite (Hm _ _ E); [apply Hk|]; exact H.
Qed.

Lemma extends_try_finally {A : Type} (m m' : M A) fin :
  extends m m' -> extends (try_finally m fin) (try_finally m' fin).
Proof.
  intros Hm w x H. unfold try_finally in *.
  destruct (m w) as [[r w1]|] eqn:E; [|discriminate].
  rewrite (Hm _ _ E). exact H.
Qed.

Lemma extends_attempt {A : Type} (m m' : M A) :
  extends m m' -> extends (attempt m) (attempt m').
Proof.
  intros Hm w x H. unfold attempt in *.
  destruct (m w) as [[r w1]|] eqn:E; [|discriminate].
  rewrite (Hm _ _ E). exact H.
Qed.

Section Monotone.

Variable production : bool.
Variables invoke invoke' : value -> list value -> M value.
Variables budget budget' : nat.
Hypothesis invoke_extends : forall f args, extends (invoke f args) (invoke' f args).
Hypothesis budget_le : budget <= budget'.

Lemma notify_extends steps steps' listeners i :
  steps <= steps' ->
  extends (notify invoke steps listeners i) (notify invoke' steps' listeners i).
Proof.
  revert steps' i. induction steps as [|steps IH]; intros steps' i Hle.
  - intros w x H. discriminate.
  - destruct steps' as [|steps']; [lia|]. simpl.
    apply extends_bind; [apply extends_refl|]. intros len.
    destruct (Nat.ltb i len); [|apply extends_refl].
    apply extends_bind; [apply extends_refl|]. intros l.
    apply extends_bind; [apply extends_refl|]. intros d.
    apply extends_bind; [apply extends_refl|]. intros _.
    apply extends_bind; [apply invoke_extends|]. intros _.
    apply IH. lia.
Qed.

Lemma dispatch_extends action :
  extends (dispatch invoke budget action) (dispatch invoke' budget' action).
Proof.
  unfold dispatch. destruct (negb _); [apply extends_refl|].
  apply extends_bind; [apply extends_refl|]. intros ty.
  destruct (JS.is_undefined ty); [apply extends_refl|].
  apply extends_bind; [apply extends_refl|]. intros d.
  destruct d; [apply extends_refl|].
  apply extends_bind.
  { apply extends_try_finally.
    apply extends_bind; [apply extends_refl|]. intros _.
    apply extends_bind; [apply extends_refl|]. intros r.
    apply extends_bind; [apply extends_refl|]. intros s.
    apply extends_bind; [apply extends_refl|]. intros d.
    apply extends_bind; [apply extends_refl|]. intros _.
    apply extends_bind; [apply invoke_extends|]. intros v. apply extends_refl. }
  intros _.
  apply extends_bind; [apply extends_refl|]. intros _.
  apply extends_bind; [apply extends_refl|]. intros l.
  apply extends_bind; [apply notify_extends; exact budget_le|]. intros _.
  apply extends_refl.
Qed.

Lemma replaceReducer_extends nextReducer :
  extends (replaceReducer invoke budget nextReducer)
          (replaceReducer invoke' budget' nextReducer).
Proof.
  unfold replaceReducer. destruct (negb _); [apply extends_refl|].
  apply extends_bind; [apply extends_refl|]. intros _.
  apply extends_bind; [apply extends_refl|]. intros init.
  apply extends_bind; [apply dispatch_extends|]. intros _. apply extends_refl.
Qed.

Lemma combination_each_extends finalReducers state action keys hasChanged nextState :
  extends (combination_each invoke finalReducers state action keys hasChanged nextState)
          (combination_each invoke' finalReducers state action keys hasChanged nextState).
Proof.
  revert hasChanged nextState. induction keys as [|key rest IH]; intros hasChanged nextState;
    simpl; [apply extends_refl|].
  apply extends_bind; [apply extends_refl|]. intros prev.
  apply extends_bind; [apply invoke_extends|]. intros next.
  destruct (JS.is_undefined next); [apply extends_refl | apply IH].
Qed.

Lemma combination_extends cacheId finalReducers shapeAssertionError state action :
  extends (combination production invoke cacheId finalReducers shapeAssertionError
                       state action)
          (combination production invoke' cacheId finalReducers shapeAssertionError
                       state action).
Proof.
  unfold combination.
  apply extends_bind; [apply extends_refl|]. intros state'.
  destruct (JS.truthy shapeAssertionError); [apply extends_refl|].
  apply extends_bind; [apply extends_refl|]. intros _.
  apply extends_bind; [apply extends_refl|]. intros id.
  apply extends_bind; [apply combination_each_extends|]. intros looped.
  apply extends_refl.
Qed.

Lemma perform_extends o :
  extends (perform invoke budget o) (perform invoke' budget' o).
Proof.
  destruct o; simpl; try apply extends_refl.
  - apply dispatch_extends.
  - apply replaceReducer_extends.
  - apply invoke_extends.
Qed.

Lemma run_extends p :
  extends (run invoke budget p) (run invoke' budget' p).
Proof.
  induction p as [v|e|o k IH]; simpl; try apply extends_refl.
  apply extends_bind; [apply extends_attempt, perform_extends | exact IH].
Qed.

End Monotone.

(** More fuel never changes what a call does. *)
Lemma invoke_extends_succ production functions fuel f args :
  extends (invoke production functions fuel f args)
          (invoke production functions (S fuel) f args).
Proof.
  revert f args. induction fuel as [|n IH]; intros f args.
  - intros w x H. discriminate.
  - destruct f; try apply extends_refl.
    + apply run_extends; [exact IH | lia].
    + apply combination_extends. exact IH.
Qed.

Lemma invoke_extends_le production functions fuel fuel' f args :
  fuel <= fuel' ->
  extends (invoke production functions fuel f args)
          (invoke production functions fuel' f args).
Proof.
  induction 1 as [|m Hle IH]; [apply extends_refl|].
  intros w x H. apply invoke_extends_succ. apply IH. exact H.
Qed.

Lemma dispatch_extends_le production functions fuel fuel' action :
  fuel <= fuel' ->
  extends (dispatch (invoke production functions fuel) fuel action)
          (dispatch (invoke production functions fuel') fuel' action).
Proof.
  intros Hle. apply dispatch_extends; [|exact Hle].
  intros f args. apply invoke_extends_le. exact Hle.
Qed.

(** ** The notification loop walks the snapshot *)

Section Snapshot_facts.

Variable invoke : value -> list value -> M value.
Hypothesis safe_invoke : forall f args, safe (invoke f args).

Lemma notify_refines steps listeners i w x :
  store_ok w ->
  isDispatching w = false ->
  frozen listeners w ->
  notify invoke steps listeners i w = Some x ->
  notify_snapshot invoke (drop i (array_at w listeners)) w = Some x.
Proof.
  revert i w. induction steps as [|steps IH]; intros i w Hok Hg Hfr H; [discriminate|].
  simpl in H. unfold bind at 1, gets at 1 in H.
  destruct (Nat.ltb_spec i (length (array_at w listeners))) as [Hlt|Hge].
  - destruct (lookup_lt_is_Some_2 _ _ Hlt) as [l Hl].
    rewrite (drop_S _ _ _ Hl). simpl.
    unfold bind at 1, gets at 1 in H. rewrite Hl in H. simpl in H.
    unfold bind at 1, gets at 1 in H. unfold bind at 1, gets at 1.
    unfold bind at 1, log_event, modify in H. unfold bind at 1, log_event, modify.
    rewrite Hg in *.
    set (w1 := set_trace _ w) in *.
    assert (Ev1 : evolves w w1) by (apply log_event_evolves; simpl; auto).
    unfold bind at 1 in H. unfold bind at 1.
    destruct (invoke l [] w1) as [[[v|e] w2]|] eqn:E; [| exact H | discriminate].
    assert (Ev2 : evolves w w2).
    { apply evolves_trans with w1; [assumption|]. eapply safe_invoke; [apply Ev1|exact E]. }
    destruct (ev_frozen _ _ Ev2 _ Hfr) as [Hfr2 Harr].
    rewrite <- Harr. apply IH; [apply Ev2 | | assumption | exact H].
    rewrite (ev_guard _ _ Ev2). exact Hg.
  - rewrite drop_ge by lia. exact H.
Qed.

Lemma dispatch_refines budget action w x :
  store_ok w ->
  dispatch invoke budget action w = Some x ->
  dispatch_by_snapshot invoke action w = Some x.
Proof.
  intros Hok H. unfold dispatch in H. unfold dispatch_by_snapshot.
  destruct (JS.isPlainObject action); simpl in *; [|exact H].
  unfold bind at 1, lift at 1 in H. unfold bind at 1, lift at 1.
  destruct (JS.get_prop action "type") as [ty|e]; [|exact H].
  destruct (JS.is_undefined ty); [exact H|].
  unfold bind at 1, gets at 1 in H. unfold bind at 1, gets at 1.
  destruct (isDispatching w) eqn:Hg; [exact H|].
  fold (reduce_block invoke action) in *.
  unfold bind at 1 in H. unfold bind at 1.
  destruct (reduce_block invoke action w) as [[[u|e] w2]|] eqn:E; [| exact H | exact H].
  apply (reduce_block_evolves invoke) in E; [| intros; eapply safe_invoke; eauto | assumption..].
  destruct E as [Ev2 _].
  unfold bind at 1, modify at 1 in H. unfold bind at 1, gets at 1 in H.
  simpl in H.
  unfold bind at 1, gets at 1. unfold bind at 1, modify at 1.
  set (w3 := set_currentListeners _ _) in *.
  assert (Hok3 : store_ok w3).
  { destruct (ev_ok _ _ Ev2). split; simpl; auto. }
  assert (Hg3 : isDispatching w3 = false).
  { simpl. rewrite (ev_guard _ _ Ev2). exact Hg. }
  assert (Hfr : frozen (nextListeners w2) w3).
  { destruct (ev_ok _ _ Ev2). split; simpl; auto. }
  unfold bind at 1 in H. unfold bind at 1.
  destruct (notify invoke budget (nextListeners w2) 0 w3) as [x'|] eqn:En; [|discriminate].
  apply notify_refines in En; try assumption.
  rewrite drop_0 in En. change (array_at w3 (nextListeners w2)) with (array_at w2 (nextListeners w2)) in En.
  rewrite En. exact H.
Qed.

(** With steps to spare, the loop over the array does what the walk
    over the snapshot does. *)
Lemma notify_complete steps listeners i w x :
  store_ok w ->
  isDispatching w = false ->
  frozen listeners w ->
  length (array_at w listeners) - i < steps ->
  notify_snapshot invoke (drop i (array_at w listeners)) w = Some x ->
  notify invoke steps listeners i w = Some x.
Proof.
  revert i w. induction steps as [|steps IH]; intros i w Hok Hg Hfr Hlen H; [lia|].
  simpl. unfold bind at 1, gets at 1.
  destruct (Nat.ltb_spec i (length (array_at w listeners))) as [Hlt|Hge].
  - destruct (lookup_lt_is_Some_2 _ _ Hlt) as [l Hl].
    rewrite (drop_S _ _ _ Hl) in H. simpl in H.
    unfold bind at 1, gets at 1. rewrite Hl. simpl.
    unfold bind at 1, gets at 1 in H. unfold bind at 1, gets at 1.
    unfold bind at 1, log_event, modify in H. unfold bind at 1, log_event, modify.
    rewrite Hg in *.
    set (w1 := set_trace _ w) in *.
    assert (Ev1 : evolves w w1) by (apply log_event_evolves; simpl; auto).
    unfold bind at 1 in H. unfold bind at 1.
    destruct (invoke l [] w1) as [[[v|e] w2]|] eqn:E; [| exact H | discriminate].
    assert (Ev2 : evolves w w2).
    { apply evolves_trans with w1; [assumption|]. eapply safe_invoke; [apply Ev1|exact E]. }
    destruct (ev_frozen _ _ Ev2 _ Hfr) as [Hfr2 Harr].
    apply IH; [apply Ev2 | | assumption | rewrite Harr; lia | rewrite Harr; exact H].
    rewrite (ev_guard _ _ Ev2). exact Hg.
  - rewrite drop_ge in H by lia. exact H.
Qed.

Lemma dispatch_complete action w x :
  store_ok w ->
  dispatch_by_snapshot invoke action w = Some x ->
  exists n, forall budget, n <= budget -> dispatch invoke budget action w = Some x.
Proof.
  intros Hok H. unfold dispatch_by_snapshot in H. unfold dispatch.
  destruct (JS.isPlainObject action); simpl in *; [|exists 0; intros; exact H].
  unfold bind at 1, lift at 1 in H. unfold bind at 1, lift at 1.
  destruct (JS.get_prop action "type") as [ty|e]; [|exists 0; intros; exact H].
  destruct (JS.is_undefined ty); [exists 0; intros; exact H|].
  unfold bind at 1, gets at 1 in H. unfold bind at 1, gets at 1.
  destruct (isDispatching w) eqn:Hg; [exists 0; intros; exact H|].
  fold (reduce_block invoke action).
  unfold bind at 1 in H. unfold bind at 1.
  destruct (reduce_block invoke action w) as [[[u|e] w2]|] eqn:E;
    [| exists 0; intros; exact H | discriminate].
  apply (reduce_block_evolves invoke) in E; [| intros; eapply safe_invoke; eauto | assumption..].
  destruct E as [Ev2 _].
  unfold bind at 1, gets at 1 in H. unfold bind at 1, modify at 1 in H.
  exists (S (length (array_at w2 (nextListeners w2)))). intros budget Hb.
  unfold bind at 1, modify at 1. unfold bind at 1, gets at 1. simpl.
  set (w3 := set_currentListeners _ _) in *.
  assert (Hok3 : store_ok w3).
  { destruct (ev_ok _ _ Ev2). split; simpl; auto. }
  assert (Hg3 : isDispatching w3 = false).
  { simpl. rewrite (ev_guard _ _ Ev2). exact Hg. }
  assert (Hfr : frozen (nextListeners w2) w3).
  { destruct (ev_ok _ _ Ev2). split; simpl; auto. }
  unfold bind at 1 in H. unfold bind at 1.
  destruct (notify_snapshot invoke (array_at w2 (nextListeners w2)) w3) as [x'|] eqn:En;
    [|discriminate].
  rewrite (notify_complete budget (nextListeners w2) 0 w3 x' Hok3 Hg3 Hfr).
  - exact H.
  - change (array_at w3 (nextListeners w2)) with (array_at w2 (nextListeners w2)). lia.
  - rewrite drop_0. exact En.
Qed.

(** A listener's exception is the only way [notify_snapshot] fails. *)
Lemma notify_snapshot_thrown snapshot w e w' :
  store_ok w ->
  isDispatching w = false ->
  notify_snapshot invoke snapshot w = Some (Thrown e, w') ->
  exists listener w1, In listener snapshot
                      /\ isDispatching w1 = false
                      /\ invoke listener [] w1 = Some (Thrown e, w').
Proof.
  revert w. induction snapshot as [|l rest IH]; intros w Hok Hg H; [discriminate|].
  simpl in H. unfold bind at 1, gets at 1 in H.
  unfold bind at 1, log_event, modify in H. rewrite Hg in H.
  set (w1 := set_trace _ w) in *.
  assert (Ev1 : evolves w w1) by (apply log_event_evolves; simpl; auto).
  apply bind_inv in H. destruct H as [(v & w2 & E & H) | (e' & E & He)].
  - assert (Ev2 : evolves w1 w2) by (eapply safe_invoke; [apply Ev1 | exact E]).
    destruct (IH w2) as (l' & w3 & Hin & Hg3 & Hl').
    + apply Ev2.
    + rewrite (ev_guard _ _ Ev2). exact Hg.
    + exact H.
    + exists l', w3. split; [right|]; auto.
  - inversion He; subst. exists l, w1. split; [left|]; auto.
Qed.

(** A dispatch that passes validation and finds the guard clear. *)
Lemma dispatch_by_snapshot_entered action w :
  JS.isPlainObject action = true ->
  JS.is_undefined (prev_part action "type") = false ->
  isDispatching w = false ->
  dispatch_by_snapshot invoke action w
  = (reduce_block invoke action;;
     let* snapshot := gets (fun w => array_at w (nextListeners w)) in
     modify (fun w => set_currentListeners (nextListeners w) w);;
     notify_snapshot invoke snapshot;;
     ret action) w.
Proof.
  intros Hplain Htype Hg. unfold dispatch_by_snapshot. rewrite Hplain. simpl.
  destruct action as [| | | | | |aid [| |] props| | | |]; try discriminate Hplain.
  unfold prev_part in Htype. simpl in Htype.
  unfold bind at 1, lift at 1. simpl. rewrite Htype.
  unfold bind at 1, gets at 1. rewrite Hg. reflexivity.
Qed.

End Snapshot_facts.

(** ** Composed reducers *)

Lemma lookup_prop_None key props :
  ~ In key (map fst props) -> JS.lookup_prop key props = None.
Proof.
  induction props as [|[k v] rest IH]; simpl; intros H; [reflexivity|].
  destruct (String.eqb_spec k key) as [E|NE]; [tauto|]. apply IH. tauto.
Qed.

Lemma lookup_prop_In key v props :
  NoDup (map fst props) -> In (key, v) props -> JS.lookup_prop key props = Some v.
Proof.
  induction props as [|[k u] rest IH]; simpl; intros Hnd Hin; [tauto|].
  apply NoDup_cons in Hnd. destruct Hnd as [Hk Hnd].
  destruct Hin as [E|Hin].
  - inversion E; subst. rewrite String.eqb_refl. reflexivity.
  - destruct (String.eqb_spec k key) as [E|NE].
    + subst. exfalso. apply Hk. apply list_elem_of_In.
      change key with (fst (key, v)). apply in_map. exact Hin.
    + apply IH; assumption.
Qed.

Lemma assign_prop_fresh key v props :
  ~ In key (map fst props) -> JS.assign_prop key v props = props ++ [(key, v)].
Proof.
  induction props as [|[k u] rest IH]; simpl; intros H; [reflexivity|].
  destruct (String.eqb_spec k key) as [E|NE]; [tauto|]. rewrite IH by tauto. reflexivity.
Qed.

Lemma fold_assign_fresh (parts acc : list (string * value)) :
  NoDup (map fst (acc ++ parts)) ->
  fold_left (fun a kv => JS.assign_prop (fst kv) (snd kv) a) parts acc = acc ++ parts.
Proof.
  revert acc. induction parts as [|[k v] rest IH]; intros acc Hnd; simpl.
  - rewrite app_nil_r. reflexivity.
  - rewrite assign_prop_fresh.
    + rewrite IH; rewrite <- app_assoc; [reflexivity | exact Hnd].
    + rewrite map_app in Hnd. simpl in Hnd. apply NoDup_app in Hnd.
      destruct Hnd as (_ & Hd & _). intros Hin. apply (Hd k).
      * apply list_elem_of_In. exact Hin.
      * left.
Qed.

Lemma surviving_keys_NoDup props :
  NoDup (map fst props) -> NoDup (map fst (surviving props)).
Proof.
  induction props as [|[k v] rest IH]; simpl; intros Hnd; [constructor|].
  apply NoDup_cons in Hnd. destruct Hnd as [Hk Hnd].
  destruct (JS.is_function v); simpl; [|auto].
  apply NoDup_cons. split; [|auto].
  intros Hin. apply Hk. apply list_elem_of_In. apply list_elem_of_In in Hin.
  apply in_map_iff in Hin. destruct Hin as ([k' v'] & E & Hin). simpl in E. subst.
  apply filter_In in Hin. destruct Hin as [Hin _].
  change k with (fst (k, v')). apply in_map. exact Hin.
Qed.

Section Combine_facts.

Variable production : bool.
Variable invoke : value -> list value -> M value.

(** The first loop keeps exactly the callable entries. *)
Lemma collect_reducers_surviving id k (done rest : list (string * value)) w :
  NoDup (map fst (done ++ rest)) ->
  exists w',
    collect_reducers production (VObj id k (done ++ rest)) (map fst rest)
                     (surviving done) w
    = Some (Normal (surviving (done ++ rest)), w')
    /\ unexpectedKeyCaches w' = unexpectedKeyCaches w.
Proof.
  revert done w. induction rest as [|[key v] rest IH]; intros done w Hnd.
  - rewrite app_nil_r. simpl. eexists; split; reflexivity.
  - simpl. unfold bind at 1, lift at 1.
    rewrite (lookup_prop_In key v) by (auto; apply in_or_app; right; left; reflexivity).
    simpl.
    assert (Hw : exists w1,
               (if negb production && JS.is_undefined v
                then warning ("No reducer provided for key " ++ dq ++ key ++ dq)%string
                else ret tt) w = Some (Normal tt, w1)
               /\ unexpectedKeyCaches w1 = unexpectedKeyCaches w).
    { destruct (negb production && JS.is_undefined v); eexists; split; reflexivity. }
    destruct Hw as (w1 & Ew & Hc). unfold bind at 1. rewrite Ew.
    assert (Hs : (if JS.is_function v
                  then JS.assign_prop key v (surviving done)
                  else surviving done) = surviving (done ++ [(key, v)])).
    { unfold surviving. rewrite List.filter_app. simpl.
      destruct (JS.is_function v); [|rewrite app_nil_r; reflexivity].
      apply assign_prop_fresh.
      intros Hin. apply in_map_iff in Hin. destruct Hin as ([k' v'] & E & Hin).
      simpl in E. subst. apply filter_In in Hin. destruct Hin as [Hin _].
      rewrite map_app in Hnd. apply NoDup_app in Hnd. destruct Hnd as (_ & Hd & _).
      apply (Hd key).
      - apply list_elem_of_In. change key with (fst (key, v')). apply in_map. exact Hin.
      - left. }
    rewrite Hs.
    replace (done ++ (key, v) :: rest) with ((done ++ [(key, v)]) ++ rest)
      by (rewrite <- app_assoc; reflexivity).
    destruct (IH (done ++ [(key, v)]) w1) as (w2 & E2 & Hc2).
    { rewrite <- app_assoc. exact Hnd. }
    exists w2. split; [exact E2 | congruence].
Qed.

(** What a terminated loop of [combination] has computed. *)
Lemma combination_each_inv finalReducers state action keys hasChanged nextState w
      hasChanged' nextState' w' :
  combination_each invoke finalReducers state action keys hasChanged nextState w
  = Some (Normal (hasChanged', nextState'), w') ->
  exists parts,
    map fst parts = keys
    /\ nextState' = fold_left (fun a kv => JS.assign_prop (fst kv) (snd kv) a) parts nextState
    /\ hasChanged' = hasChanged || existsb (part_changed state) parts
    /\ Forall (fun kv =>
                 JS.is_undefined (snd kv) = false
                 /\ exists w1 w2,
                     invoke (default VUndefined (JS.lookup_prop (fst kv) finalReducers))
                            [prev_part state (fst kv); action] w1
                     = Some (Normal (snd kv), w2)) parts.
Proof.
  revert hasChanged nextState w.
  induction keys as [|key rest IH]; intros hasChanged nextState w H; simpl in H.
  - inversion H; subst. exists []. simpl. rewrite orb_false_r. auto.
  - unfold bind at 1, lift at 1 in H.
    destruct (JS.get_prop state key) as [prev|e] eqn:Hp; [|discriminate].
    apply bind_inv in H. destruct H as [(v & w1 & E & H) | (e & _ & He)]; [|discriminate].
    destruct (JS.is_undefined v) eqn:Hu; [discriminate|].
    destruct (IH _ _ _ H) as (parts & Hk & Hn & Hc & Hf).
    exists ((key, v) :: parts). simpl.
    assert (Hprev : prev_part state key = prev) by (unfold prev_part; rewrite Hp; reflexivity).
    split; [congruence|]. split; [exact Hn|]. split.
    + rewrite Hc. unfold part_changed at 2. simpl. rewrite Hprev.
      rewrite orb_assoc. reflexivity.
    + constructor; [|exact Hf]. simpl. split; [exact Hu|].
      rewrite Hprev. eauto.
Qed.

(** The loop returns when every reducer it calls returns a defined
    value. *)
Lemma combination_each_total finalReducers state action keys :
  (forall key, In key keys -> exists prev, JS.get_prop state key = Normal prev) ->
  (forall key w1, In key keys ->
     exists v w2,
       invoke (default VUndefined (JS.lookup_prop key finalReducers))
              [prev_part state key; action] w1 = Some (Normal v, w2)
       /\ JS.is_undefined v = false) ->
  forall hasChanged nextState w,
  exists hasChanged' nextState' w',
    combination_each invoke finalReducers state action keys hasChanged nextState w
    = Some (Normal (hasChanged', nextState'), w').
Proof.
  intros Hread Htot. induction keys as [|key rest IH]; intros hasChanged nextState w; simpl.
  - eexists _, _, _. reflexivity.
  - destruct (Hread key) as [prev Hp]; [left; reflexivity|].
    unfold bind at 1, lift at 1. rewrite Hp.
    destruct (Htot key w) as (v & w2 & E & Hu); [left; reflexivity|].
    unfold prev_part in E. rewrite Hp in E.
    unfold bind at 1. rewrite E, Hu.
    apply IH.
    + intros k Hk. apply Hread. right. exact Hk.
    + intros k w1 Hk. apply Htot. right. exact Hk.
Qed.

End Combine_facts.

(** ** compose *)

Lemma run_seq invoke budget p k w :
  run invoke budget (seq p k) w
  = (let* v := run invoke budget p in run invoke budget (k v)) w.
Proof.
  revert w. induction p as [v|e|o k' IH]; intros w; simpl; try reflexivity.
  unfold bind, attempt.
  destruct (perform invoke budget o w) as [[r w1]|]; [|reflexivity].
  apply IH.
Qed.

(** C8.  [compose()] hands back its first argument, [compose(f)] is [f]
    itself, and [compose(f, g, h)(...args)] is [f(g(h(...args)))]: [h]
    receives the whole argument list and runs first, [g] receives what
    [h] returned, [f] what [g] returned; an exception at any stage ends
    the call.  The last part says the same of the execution. *)
Theorem compose_right_to_left :
  (forall x rest, compose [] (x :: rest) = Ret x)
  /\ (forall f, compose [f] = f)
  /\ (forall f g h args,
         compose [f; g; h] args
         = seq (h args) (fun y => seq (g [y]) (fun z => f [z])))
  /\ (forall invoke budget f g h args w,
         run invoke budget (compose [f; g; h] args) w
         = (let* y := run invoke budget (h args) in
            let* z := run invoke budget (g [y]) in
            run invoke budget (f [z])) w).
Proof.
  split; [reflexivity|]. split; [reflexivity|]. split; [reflexivity|].
  intros invoke budget f g h args w. simpl. rewrite run_seq.
  unfold bind.
  destruct (run invoke budget (h args) w) as [[[y|e] w1]|]; try reflexivity.
  apply run_seq.
Qed.

(** ** getState *)

(** C5, as amended.  [getState()] returns [currentState] as it stands
    and leaves the world alone, whatever the dispatch guard says: the
    function has no guard check and never fails.  So user code that
    calls it, a reducer in mid-computation included, always continues
    with the current state. *)
Theorem getState_returns_currentState :
  (forall w, getState w = Some (Normal (currentState w), w))
  /\ (forall invoke budget k w,
         run invoke budget (Do OpGetState k) w
         = run invoke budget (k (Normal (currentState w))) w).
Proof.
  split; [reflexivity|].
  intros invoke budget k w. simpl. unfold bind, attempt. simpl. reflexivity.
Qed.

(** C5, counterexample.  With the guard set, [getState()] returns; and
    a reducer that calls [getState()] while it computes the state for
    the INIT action gets a value back, not an exception. *)
Lemma getState_during_reducer :
  (let w := set_isDispatching true (set_currentState (VNum 7) empty_world) in
   isDispatching w = true /\ getState w = Some (Normal (VNum 7), w))
  /\ (let w := Demo.world_after
                 (createStore Demo.call 10 (VFun 4) VUndefined VUndefined) in
      currentState w = VStr "getState returned").
Proof. split; [split|]; reflexivity. Qed.

(** ** Validation in dispatch *)

(** C4.  An action that is not a plain object is refused with the
    plain-object error, whatever its [type] is or whether [type] can be
    read at all; a plain object whose [type] is [undefined] is refused
    with the type error.  In both cases the world is returned as it
    was: no reducer has run and [currentState] is untouched. *)
Theorem dispatch_validates_action invoke budget action w :
  (JS.isPlainObject action = false ->
   dispatch invoke budget action w
   = Some (Thrown (new_error
             "Actions must be plain objects. Use custom middleware for async actions."),
           w))
  /\ (JS.isPlainObject action = true ->
      JS.get_prop action "type" = Normal VUndefined ->
      dispatch invoke budget action w
      = Some (Thrown (new_error
                ("Actions may not have an undefined " ++ dq ++ "type" ++ dq
                 ++ " property. Have you misspelled a constant?")%string),
              w)).
Proof.
  split.
  - intros H. unfold dispatch. rewrite H. reflexivity.
  - intros H Ht. unfold dispatch. rewrite H. simpl.
    unfold bind, lift. rewrite Ht. reflexivity.
Qed.

Lemma dispatch_validates_action_witness :
  dispatch Demo.call 10 (VNum 5) Demo.counter_world
  = Some (Thrown (new_error
            "Actions must be plain objects. Use custom middleware for async actions."),
          Demo.counter_world)
  /\ dispatch Demo.call 10 (VObj 9 KPlain [("payload", VNum 1)]) Demo.counter_world
     = Some (Thrown (new_error
               ("Actions may not have an undefined " ++ dq ++ "type" ++ dq
                ++ " property. Have you misspelled a constant?")%string),
             Demo.counter_world).
Proof.
  split.
  - apply (dispatch_validates_action Demo.call 10 (VNum 5) Demo.counter_world).
    reflexivity.
  - apply (dispatch_validates_action Demo.call 10
             (VObj 9 KPlain [("payload", VNum 1)]) Demo.counter_world);
      reflexivity.
Defined.


(** ** Construction *)

Lemma dispatch_quiet production functions fuel reducer f action w :
  pure_reducer functions reducer f ->
  JS.isPlainObject action = true ->
  JS.is_undefined (prev_part action "type") = false ->
  isDispatching w = false ->
  currentReducer w = reducer ->
  array_at w (nextListeners w) = [] ->
  exists w',
    dispatch (invoke production functions (S fuel)) (S fuel) action w
    = Some (Normal action, w')
    /\ currentState w' = f (currentState w) action
    /\ trace w' = trace w ++ [EvReduce true (currentState w) action]
    /\ currentReducer w' = reducer
    /\ isDispatching w' = false
    /\ array_at w' (nextListeners w') = []
    /\ nextObjectId w' = nextObjectId w.
Proof.
  intros (id & -> & Hpure) Hplain Htype Hg Hr Hl.
  destruct action as [| | | | | |aid [| |] props| | | |]; try discriminate Hplain.
  unfold prev_part in Htype. simpl in Htype.
  unfold dispatch, bind, lift, gets, try_finally, modify, log_event, ret.
  simpl. rewrite Htype, Hg, Hr. rewrite Hpure by reflexivity. simpl.
  unfold bind, gets, array_at in *. simpl. rewrite Hl. simpl.
  eexists. split; [reflexivity|]. simpl. rewrite Hl. repeat split; auto.
Qed.

Lemma createStore_quiet production functions fuel reducer f preloadedState w :
  pure_reducer functions reducer f ->
  JS.is_function preloadedState = false ->
  exists w',
    createStore (invoke production functions (S fuel)) (S fuel)
                reducer preloadedState VUndefined w
    = Some (Normal StoreObject, w')
    /\ currentState w'
       = f preloadedState (action_of_type (nextObjectId w) ActionTypes_INIT)
    /\ trace w'
       = trace w ++ [EvReduce true preloadedState
                              (action_of_type (nextObjectId w) ActionTypes_INIT)]
    /\ currentReducer w' = reducer
    /\ isDispatching w' = false
    /\ array_at w' (nextListeners w') = []
    /\ nextObjectId w' = S (nextObjectId w)
    /\ store_ok w'.
Proof.
  intros Hpure HP.
  assert (Hfun : JS.is_function reducer = true).
  { destruct Hpure as (id & -> & _). reflexivity. }
  set (call := invoke production functions (S fuel)).
  unfold createStore. rewrite HP, Hfun. simpl.
  unfold init_action, new_object, fresh_id.
  unfold bind at 1, modify at 1. unfold bind at 1, modify at 1.
  unfold bind at 1, gets at 1. unfold bind at 1, modify at 1.
  unfold bind at 1, modify at 1. unfold bind at 1, modify at 1.
  unfold bind at 1, modify at 1. unfold bind at 1. unfold bind at 1.
  unfold bind at 1. unfold ret at 1. simpl nextObjectId.
  match goal with |- context [dispatch _ _ ?a ?w0] =>
    destruct (dispatch_quiet production functions fuel reducer f a w0 Hpure)
      as (w' & E & Hs & Ht & Hr & Hg & Hl & Hn)
  end; try reflexivity.
  { unfold array_at. simpl. rewrite list_lookup_middle by reflexivity. reflexivity. }
  unfold action_of_type in *. fold call in E. rewrite E. unfold ret.
  exists w'. split; [reflexivity|].
  repeat (split; [assumption|]).
  unfold store_ok.
  pose proof (dispatch_evolves (invoke production functions (S fuel)) (S fuel)
                (safe_invoke production functions (S fuel))) as Hev.
  eapply Hev in E; [apply E|].
  unfold store_ok. simpl. rewrite length_app. simpl. lia.
Qed.

Lemma counter_is_pure functions id :
  functions id = Demo.counter ->
  pure_reducer functions (VFun id) Demo.counter_fn.
Proof.
  intros H. exists id. split; [reflexivity|].
  intros state action Hplain. rewrite H.
  destruct action as [| | | | | |aid [| |] props| | | |]; try discriminate Hplain.
  reflexivity.
Qed.

Lemma dispatch_INC_quiet production functions fuel id (n : Z) w :
  functions id = Demo.counter ->
  isDispatching w = false ->
  currentReducer w = VFun id ->
  currentState w = VNum n ->
  array_at w (nextListeners w) = [] ->
  exists a w',
    (let* a := new_object KPlain [("type", VStr "INC")] in
     dispatch (invoke production functions (S fuel)) (S fuel) a) w
    = Some (Normal a, w')
    /\ isDispatching w' = false
    /\ currentReducer w' = VFun id
    /\ currentState w' = VNum (n + 1)
    /\ array_at w' (nextListeners w') = [].
Proof.
  intros Hc Hg Hr Hs Hl.
  unfold new_object, fresh_id. unfold bind at 1. unfold bind at 1. unfold ret at 1.
  match goal with |- context [dispatch _ _ ?a ?w0] =>
    destruct (dispatch_quiet production functions fuel (VFun id) Demo.counter_fn a w0
                (counter_is_pure functions id Hc))
      as (w' & E & Hs' & _ & Hr' & Hg' & Hl' & _)
  end; try reflexivity; try assumption.
  eexists _, w'. split; [exact E|].
  repeat (split; [assumption|]). split; [|assumption].
  rewrite Hs'. simpl currentState. rewrite Hs. reflexivity.
Qed.

(** C1.  Let the reducer be callable and the preloaded state not (a
    callable second argument is taken as the enhancer).  Then
    [createStore] with no enhancer is one dispatch of a fresh
    [{ type: '@@redux/INIT' }] on the initialised store, and nothing
    else.  If the reducer is a function [f] of state and action, the
    store is returned after one call of the reducer, on the preloaded
    state and the INIT action, and no call of a listener, and
    [getState()] then returns [f preloadedState init].  With the counter
    reducer and no preloaded state, three dispatches of
    [{ type: 'INC' }] after construction leave [getState()] at 3. *)
Theorem createStore_dispatches_init production functions fuel reducer preloadedState w :
  JS.is_function reducer = true ->
  JS.is_function preloadedState = false ->
  let call := invoke production functions (S fuel) in
  let init := action_of_type (nextObjectId w) ActionTypes_INIT in
  createStore call (S fuel) reducer preloadedState VUndefined w
  = (dispatch call (S fuel) init;; ret StoreObject)
      (prepared_store reducer preloadedState w)
  /\ (forall f,
        pure_reducer functions reducer f ->
        exists w',
          createStore call (S fuel) reducer preloadedState VUndefined w
          = Some (Normal StoreObject, w')
          /\ trace w' = trace w ++ [EvReduce true preloadedState init]
          /\ getState w' = Some (Normal (f preloadedState init), w'))
  /\ (forall id, functions id = Demo.counter ->
        exists w',
          Demo.counter_scenario call (S fuel) (VFun id) w
          = Some (Normal (VNum 3), w')).
Proof.
  intros Hfun HP call init. split; [|split].
  - unfold createStore. rewrite HP, Hfun. reflexivity.
  - intros f Hpure.
    destruct (createStore_quiet production functions fuel reducer f preloadedState w
                Hpure HP) as (w' & E & Hs & Ht & _).
    exists w'. split; [exact E|]. split; [exact Ht|].
    unfold getState, gets. rewrite Hs. reflexivity.
  - intros id Hc.
    destruct (createStore_quiet production functions fuel (VFun id) Demo.counter_fn
                VUndefined w (counter_is_pure functions id Hc) eq_refl)
      as (w0 & E0 & Hs0 & _ & Hr0 & Hg0 & Hl0 & _).
    assert (Hz : currentState w0 = VNum 0) by (rewrite Hs0; reflexivity).
    destruct (dispatch_INC_quiet production functions fuel id 0 w0 Hc Hg0 Hr0 Hz Hl0)
      as (a1 & w1 & E1 & Hg1 & Hr1 & Hs1 & Hl1).
    destruct (dispatch_INC_quiet production functions fuel id _ w1 Hc Hg1 Hr1 Hs1 Hl1)
      as (a2 & w2 & E2 & Hg2 & Hr2 & Hs2 & Hl2).
    destruct (dispatch_INC_quiet production functions fuel id _ w2 Hc Hg2 Hr2 Hs2 Hl2)
      as (a3 & w3 & E3 & Hg3 & Hr3 & Hs3 & Hl3).
    exists w3. unfold Demo.counter_scenario.
    unfold bind at 1. fold call in E0. rewrite E0.
    unfold bind at 1. fold call in E1. rewrite E1.
    unfold bind at 1. fold call in E2. rewrite E2.
    unfold bind at 1. fold call in E3. rewrite E3.
    unfold getState, gets. rewrite Hs3. reflexivity.
Qed.

Lemma createStore_dispatches_init_witness :
  let call := invoke false Demo.functions 1 in
  let init := action_of_type 0 ActionTypes_INIT in
  createStore call 1 (VFun 0) (VNum 5) VUndefined empty_world
  = (dispatch call 1 init;; ret StoreObject) (prepared_store (VFun 0) (VNum 5) empty_world)
  /\ (exists w',
        createStore call 1 (VFun 0) (VNum 5) VUndefined empty_world
        = Some (Normal StoreObject, w')
        /\ trace w' = [EvReduce true (VNum 5) init]
        /\ getState w' = Some (Normal (VNum 5), w'))
  /\ exists w',
       Demo.counter_scenario call 1 (VFun 0) empty_world = Some (Normal (VNum 3), w').
Proof.
  intros call init.
  destruct (createStore_dispatches_init false Demo.functions 0 (VFun 0) (VNum 5)
              empty_world eq_refl eq_refl) as (H1 & H2 & H3).
  split; [exact H1|]. split.
  - apply (H2 Demo.counter_fn). apply counter_is_pure. reflexivity.
  - apply (H3 0). reflexivity.
Defined.

(** ** Subscriptions *)

Lemma strict_eq_function_refl f :
  JS.is_function f = true -> JS.strict_eq f f = true.
Proof.
  destruct f; try discriminate; intros _; simpl; apply Nat.eqb_refl.
Qed.

Lemma index_from_shift i x l :
  index_from i x l
  = (if (index_from 0 x l =? -1)%Z then (-1)%Z else (i + index_from 0 x l)%Z)
  /\ (-1 <= index_from 0 x l)%Z.
Proof.
  revert i. induction l as [|y rest IH]; intros i; simpl.
  - split; [reflexivity | lia].
  - destruct (JS.strict_eq y x).
    + simpl. split; [f_equal; lia | lia].
    + destruct (IH (i + 1)%Z) as [E1 Hge]. destruct (IH (0 + 1)%Z) as [E2 _].
      rewrite E1, E2.
      destruct (Z.eqb_spec (index_from 0 x rest) (-1)) as [Hm|Hm].
      * split; [reflexivity | lia].
      * destruct (Z.eqb_spec (0 + 1 + index_from 0 x rest) (-1)); split; lia.
Qed.

Lemma indexOf_cons x y l :
  indexOf x (y :: l)
  = if JS.strict_eq y x then 0%Z
    else if (indexOf x l =? -1)%Z then (-1)%Z else (1 + indexOf x l)%Z.
Proof.
  unfold indexOf. simpl. destruct (JS.strict_eq y x); [reflexivity|].
  apply index_from_shift.
Qed.

Lemma indexOf_found x l :
  0 < occurrences x l -> (0 <= indexOf x l)%Z.
Proof.
  induction l as [|y rest IH]; unfold occurrences; simpl; [lia|].
  rewrite indexOf_cons. destruct (JS.strict_eq y x); simpl; [lia|].
  intros H. specialize (IH H).
  destruct (Z.eqb_spec (indexOf x rest) (-1)); lia.
Qed.

Lemma splice_one_succ k y l :
  (0 <= k)%Z -> splice_one (1 + k) (y :: l) = y :: splice_one k l.
Proof.
  intros Hk. unfold splice_one. simpl length.
  destruct (Z.ltb_spec (1 + k) 0); [lia|]. destruct (Z.ltb_spec k 0); [lia|].
  replace (Z.to_nat (Z.min (1 + k) (Z.of_nat (S (length l)))))
    with (S (Z.to_nat (Z.min k (Z.of_nat (length l))))) by lia.
  reflexivity.
Qed.

(** [splice(indexOf(x), 1)] takes out one occurrence of [x]. *)
Lemma splice_indexOf_occurrences x l :
  0 < occurrences x l ->
  occurrences x (splice_one (indexOf x l) l) + 1 = occurrences x l.
Proof.
  induction l as [|y rest IH]; unfold occurrences; simpl; [lia|].
  rewrite indexOf_cons. destruct (JS.strict_eq y x) eqn:E.
  - intros _. unfold splice_one. simpl. rewrite drop_0. lia.
  - intros H. pose proof (indexOf_found x rest H) as Hf.
    destruct (Z.eqb_spec (indexOf x rest) (-1)); [lia|].
    rewrite splice_one_succ by assumption. simpl. rewrite E.
    apply IH. exact H.
Qed.

Lemma occurrences_app x l1 l2 :
  occurrences x (l1 ++ l2) = occurrences x l1 + occurrences x l2.
Proof. unfold occurrences. rewrite List.filter_app, length_app. reflexivity. Qed.

(** C9.  In a store whose listener variables are in order, subscribing
    a callable [f] twice hands out two distinct closures and registers
    [f] two more times.  Calling a closure is running [unsubscribe] for
    its subscription.  Calling either closure once takes exactly one
    registration of [f] away (one is left of the two; [f] is registered
    once if it was not registered before), and calling that closure
    again changes nothing at all. *)
Theorem unsubscribe_once_then_noop f w :
  store_ok w ->
  JS.is_function f = true ->
  exists h1 h2 w1 w2,
    subscribe f w = Some (Normal (VUnsubscribe h1), w1)
    /\ subscribe f w1 = Some (Normal (VUnsubscribe h2), w2)
    /\ (forall production functions fuel h args,
          invoke production functions (S fuel) (VUnsubscribe h) args = unsubscribe h)
    /\ h1 <> h2
    /\ registrations f w2 = registrations f w + 2
    /\ forall h, h = h1 \/ h = h2 ->
         exists w3,
           unsubscribe h w2 = Some (Normal VUndefined, w3)
           /\ registrations f w3 = registrations f w + 1
           /\ unsubscribe h w3 = Some (Normal VUndefined, w3).
Proof.
  intros Hok Hf.
  destruct (subscribe_spec f w Hok Hf) as (w1 & E1 & Ev1 & A1 & S1).
  destruct (subscribe_spec f w1 (ev_ok _ _ Ev1) Hf) as (w2 & E2 & Ev2 & A2 & S2).
  exists (length (subscriptions w)), (length (subscriptions w1)), w1, w2.
  split; [exact E1|]. split; [exact E2|]. split; [reflexivity|].
  assert (Hlen : length (subscriptions w1) = S (length (subscriptions w))).
  { rewrite S1, length_app. simpl. lia. }
  split; [lia|].
  assert (Hreg2 : registrations f w2 = registrations f w + 2).
  { unfold registrations.
    rewrite A2, A1, !occurrences_app. unfold occurrences at 2 3. simpl.
    rewrite (strict_eq_function_refl f Hf). simpl. lia. }
  split; [exact Hreg2|].
  intros h Hh.
  assert (Hcell : subscriptions w2 !! h = Some (f, true)).
  { rewrite S2, S1. destruct Hh as [-> | ->].
    - rewrite <- app_assoc. apply list_lookup_middle. reflexivity.
    - rewrite <- S1. apply list_lookup_middle. reflexivity. }
  destruct (unsubscribe_active h f w2 (ev_ok _ _ Ev2) Hcell) as (w3 & E3 & Ev3 & A3 & S3).
  exists w3. split; [exact E3|]. split.
  - unfold registrations in *.
    rewrite A3.
    pose proof (splice_indexOf_occurrences f (array_at w2 (nextListeners w2))) as Hs.
    lia.
  - apply (unsubscribe_inactive h f). rewrite S3.
    apply list_lookup_insert_eq. apply lookup_lt_Some in Hcell. exact Hcell.
Qed.

Lemma unsubscribe_once_then_noop_witness :
  exists h1 h2 w1 w2,
    subscribe (VFun 2) Demo.counter_world = Some (Normal (VUnsubscribe h1), w1)
    /\ subscribe (VFun 2) w1 = Some (Normal (VUnsubscribe h2), w2)
    /\ (forall production functions fuel h args,
          invoke production functions (S fuel) (VUnsubscribe h) args = unsubscribe h)
    /\ h1 <> h2
    /\ registrations (VFun 2) w2 = registrations (VFun 2) Demo.counter_world + 2
    /\ forall h, h = h1 \/ h = h2 ->
         exists w3,
           unsubscribe h w2 = Some (Normal VUndefined, w3)
           /\ registrations (VFun 2) w3 = registrations (VFun 2) Demo.counter_world + 1
           /\ unsubscribe h w3 = Some (Normal VUndefined, w3).
Proof.
  apply (unsubscribe_once_then_noop (VFun 2) Demo.counter_world).
  - unfold store_ok. simpl. lia.
  - reflexivity.
Defined.

(** ** Listener snapshots *)

(** C2.  Whatever a dispatch does, the specification's dispatch does:
    after the reducer call it takes the list [nextListeners] holds at
    that moment and calls exactly its members, in order and without
    arguments, however the listeners subscribe, unsubscribe or dispatch
    meanwhile; and whatever the specification's dispatch does, the
    dispatch does with enough fuel.  The array taken is frozen from
    then on: no code changes a frozen array, [subscribe] and
    [unsubscribe] in particular, which write to the array of
    [nextListeners] only, after copying it if it is shared; what they
    write is what the next dispatch takes. *)
Theorem dispatch_notifies_snapshot production functions fuel :
  (forall action w x,
      store_ok w ->
      dispatch (invoke production functions fuel) fuel action w = Some x ->
      dispatch_by_snapshot (invoke production functions fuel) action w = Some x)
  /\ (forall action w x,
         store_ok w ->
         dispatch_by_snapshot (invoke production functions fuel) action w = Some x ->
         exists fuel', forall fuel'',
             fuel' <= fuel'' ->
             dispatch (invoke production functions fuel'') fuel'' action w = Some x)
  /\ (forall w,
         store_ok w ->
         frozen (nextListeners w) (set_currentListeners (nextListeners w) w))
  /\ (forall f args w r w' snapshot,
         store_ok w ->
         frozen snapshot w ->
         invoke production functions fuel f args w = Some (r, w') ->
         frozen snapshot w' /\ array_at w' snapshot = array_at w snapshot)
  /\ (forall listener w snapshot,
         store_ok w ->
         frozen snapshot w ->
         JS.is_function listener = true ->
         exists w',
           subscribe listener w
           = Some (Normal (VUnsubscribe (length (subscriptions w))), w')
           /\ array_at w' snapshot = array_at w snapshot
           /\ array_at w' (nextListeners w')
              = array_at w (nextListeners w) ++ [listener])
  /\ (forall h listener w snapshot,
         store_ok w ->
         frozen snapshot w ->
         subscriptions w !! h = Some (listener, true) ->
         exists w',
           unsubscribe h w = Some (Normal VUndefined, w')
           /\ array_at w' snapshot = array_at w snapshot
           /\ array_at w' (nextListeners w')
              = splice_one (indexOf listener (array_at w (nextListeners w)))
                           (array_at w (nextListeners w))).
Proof.
  split; [|split; [|split; [|split; [|split]]]].
  - intros action w x Hok H.
    eapply dispatch_refines; [apply safe_invoke | exact Hok | exact H].
  - intros action w x Hok H.
    destruct (dispatch_complete (invoke production functions fuel)
                (safe_invoke production functions fuel) action w x Hok H) as (n & Hn).
    exists (Nat.max n fuel). intros fuel'' Hle.
    apply (dispatch_extends (invoke production functions fuel)
             (invoke production functions fuel'') fuel'' fuel'').
    + intros f args. apply invoke_extends_le. lia.
    + lia.
    + apply Hn. lia.
  - intros w [Hc Hn]. split; simpl; auto.
  - intros f args w r w' snapshot Hok Hfr H.
    apply safe_invoke in H; [|exact Hok]. apply (ev_frozen _ _ H). exact Hfr.
  - intros listener w snapshot Hok Hfr Hf.
    destruct (subscribe_spec listener w Hok Hf) as (w' & E & Ev & A & _).
    exists w'. split; [exact E|]. split; [|exact A].
    apply (ev_frozen _ _ Ev). exact Hfr.
  - intros h listener w snapshot Hok Hfr Hh.
    destruct (unsubscribe_active h listener w Hok Hh) as (w' & E & Ev & A & _).
    exists w'. split; [exact E|]. split; [|exact A].
    apply (ev_frozen _ _ Ev). exact Hfr.
Qed.

Lemma dispatch_notifies_snapshot_witness :
  exists x,
    dispatch Demo.call 10 (action_of_type 100 "INC") Demo.busy_world = Some x
    /\ dispatch_by_snapshot Demo.call (action_of_type 100 "INC") Demo.busy_world = Some x
    /\ trace (snd x)
       = [EvReduce true VUndefined (action_of_type 0 ActionTypes_INIT);
          EvReduce true (VNum 0) (action_of_type 100 "INC");
          EvNotify false (VFun 3); EvNotify false (VFun 1)]
    /\ array_at (snd x) (nextListeners (snd x)) = [VFun 1; VFun 2].
Proof.
  eexists. split; [vm_compute; reflexivity|]. split; [|split; reflexivity].
  apply (proj1 (dispatch_notifies_snapshot false Demo.functions 10)).
  - unfold store_ok. simpl. lia.
  - vm_compute. reflexivity.
Defined.

(** ** The dispatch guard *)

(** A dispatch that passes validation and the guard runs the
    [try]/[finally] block and goes on from the world it leaves. *)
Lemma dispatch_entered invoke budget action w r w' :
  (forall f args, safe (invoke f args)) ->
  store_ok w ->
  isDispatching w = false ->
  JS.isPlainObject action = true ->
  JS.is_undefined (prev_part action "type") = false ->
  dispatch invoke budget action w = Some (r, w') ->
  exists r2 w2, reduce_block invoke action w = Some (r2, w2) /\ evolves w2 w'.
Proof.
  intros Hsafe Hok Hg Hplain Htype H. unfold dispatch in H.
  rewrite Hplain in H. simpl in H.
  destruct action as [| | | | | |aid [| |] props| | | |]; try discriminate Hplain.
  unfold prev_part in Htype. simpl in Htype.
  unfold bind at 1, lift at 1 in H. simpl in H. rewrite Htype in H.
  unfold bind at 1, gets at 1 in H. rewrite Hg in H.
  fold (reduce_block invoke (VObj aid KPlain props)) in H.
  apply bind_inv in H. destruct H as [(u & w2 & E & H) | (e & E & _)].
  - exists (Normal u), w2. split; [exact E|].
    apply (reduce_block_evolves invoke Hsafe) in E; [|assumption..].
    destruct E as [Ev2 _].
    unfold bind at 1, modify at 1 in H. unfold bind at 1, gets at 1 in H.
    simpl in H.
    set (w3 := set_currentListeners _ _) in H.
    assert (Ev3 : evolves w2 w3).
    { destruct Ev2 as [g2 [o2c o2n] _ _]. split; auto.
      - split; simpl; auto.
      - intros r0 [Hlen Hal]. split; [split; simpl; auto | reflexivity].
      - exists []. rewrite app_nil_r. auto. }
    assert (Hg3 : isDispatching w3 = false).
    { rewrite (ev_guard _ _ Ev3), (ev_guard _ _ Ev2). exact Hg. }
    apply evolves_trans with w3; [assumption|].
    apply bind_inv in H. destruct H as [(u' & w4 & En & H) | (e & En & _)].
    + inversion H; subst.
      eapply (notify_evolves invoke Hsafe); [apply Ev3 | exact Hg3 | exact En].
    + eapply (notify_evolves invoke Hsafe); [apply Ev3 | exact Hg3 | exact En].
  - exists (Thrown e), w'. split; [exact E|].
    apply (reduce_block_evolves invoke Hsafe) in E; [|assumption..].
    apply evolves_refl. apply E.
Qed.

Lemma dispatch_trace_starts invoke budget action w r w' :
  (forall f args, safe (invoke f args)) ->
  store_ok w ->
  isDispatching w = false ->
  JS.isPlainObject action = true ->
  JS.is_undefined (prev_part action "type") = false ->
  dispatch invoke budget action w = Some (r, w') ->
  exists t, trace w' = trace w ++ EvReduce true (currentState w) action :: t
            /\ Forall event_ok t.
Proof.
  intros Hsafe Hok Hg Hplain Htype H.
  pose proof (dispatch_evolves invoke budget Hsafe _ _ _ _ Hok H) as Ev.
  destruct (ev_trace _ _ Ev) as (t0 & Ht0 & Hall).
  destruct (dispatch_entered _ _ _ _ _ _ Hsafe Hok Hg Hplain Htype H)
    as (r2 & w2 & E & Ev2).
  apply (reduce_block_evolves invoke Hsafe) in E; [|assumption..].
  destruct E as [_ [t2 Ht2]]. destruct (ev_trace _ _ Ev2) as (t3 & Ht3 & _).
  exists (t2 ++ t3).
  assert (Ht : trace w' = trace w ++ EvReduce true (currentState w) action :: t2 ++ t3).
  { rewrite Ht3, Ht2, <- app_assoc. reflexivity. }
  split; [exact Ht|].
  rewrite Ht in Ht0. apply app_inv_head in Ht0. subst t0.
  inversion Hall; assumption.
Qed.

(** C3.  With [call] the interpreter at any fuel:
    - a well-formed action dispatched while the guard is set is refused
      with 'Reducers may not dispatch actions.', the world unchanged;
    - a well-formed action dispatched while the guard is clear reaches
      the reducer, which is entered with the guard set, and whether the
      dispatch then returns or throws (the reducer or a listener threw)
      the guard is clear again at its end; every reducer call logged on
      the way was entered with the guard set, every listener call with
      the guard clear;
    - no call into user code changes the guard between its start and
      its end, so it stays set all through a reducer's computation and
      clear all through a listener's;
    - when such a dispatch throws, the exception was thrown by the
      reducer call or by the call of a listener that was entered with
      the guard clear, never by the guard check. *)
Theorem dispatch_guard production functions fuel :
  let call := invoke production functions fuel in
  (forall action w,
      JS.isPlainObject action = true ->
      JS.is_undefined (prev_part action "type") = false ->
      isDispatching w = true ->
      dispatch call fuel action w
      = Some (Thrown (new_error "Reducers may not dispatch actions."), w))
  /\ (forall action w r w',
         store_ok w ->
         isDispatching w = false ->
         JS.isPlainObject action = true ->
         JS.is_undefined (prev_part action "type") = false ->
         dispatch call fuel action w = Some (r, w') ->
         isDispatching w' = false
         /\ exists t, trace w' = trace w ++ EvReduce true (currentState w) action :: t
                      /\ Forall event_ok t)
  /\ (forall f args w r w',
         store_ok w ->
         call f args w = Some (r, w') ->
         isDispatching w' = isDispatching w)
  /\ (forall action w e w',
         store_ok w ->
         isDispatching w = false ->
         JS.isPlainObject action = true ->
         JS.is_undefined (prev_part action "type") = false ->
         dispatch call fuel action w = Some (Thrown e, w') ->
         (exists w1 w2, isDispatching w1 = true
                        /\ call (currentReducer w) [currentState w; action] w1
                           = Some (Thrown e, w2))
         \/ (exists listener w1 w2, isDispatching w1 = false
                                    /\ call listener [] w1 = Some (Thrown e, w2))).
Proof.
  intros call.
  assert (Hsafe : forall f args, safe (call f args)) by apply safe_invoke.
  split; [|split; [|split]].
  - intros action w Hplain Htype Hg. unfold dispatch. rewrite Hplain. simpl.
    destruct action as [| | | | | |aid [| |] props| | | |]; try discriminate Hplain.
    unfold prev_part in Htype. simpl in Htype.
    unfold bind at 1, lift at 1. simpl. rewrite Htype.
    unfold bind at 1, gets at 1. rewrite Hg. reflexivity.
  - intros action w r w' Hok Hg Hplain Htype H. split.
    + rewrite (ev_guard _ _ (dispatch_evolves call fuel Hsafe _ _ _ _ Hok H)). exact Hg.
    + eapply dispatch_trace_starts; eauto.
  - intros f args w r w' Hok H. apply (ev_guard _ _ (Hsafe f args w r w' Hok H)).
  - intros action w e w' Hok Hg Hplain Htype H.
    apply (dispatch_refines call Hsafe) in H; [|exact Hok].
    rewrite dispatch_by_snapshot_entered in H by assumption.
    apply bind_inv in H. destruct H as [(u & w2 & E & H) | (e' & E & He)].
    + right.
      apply (reduce_block_evolves call Hsafe) in E; [|assumption..].
      destruct E as [Ev2 _].
      unfold bind at 1, gets at 1 in H. unfold bind at 1, modify at 1 in H.
      apply bind_inv in H. destruct H as [(u' & w4 & En & H) | (e' & En & He)];
        [discriminate|].
      inversion He; subst e'.
      apply (notify_snapshot_thrown call Hsafe) in En.
      * destruct En as (l & w1 & _ & Hg1 & Hl). exists l, w1, w'. auto.
      * destruct (ev_ok _ _ Ev2). split; simpl; auto.
      * simpl. rewrite (ev_guard _ _ Ev2). exact Hg.
    + left. inversion He; subst e'.
      destruct (reduce_block_inv call _ _ _ _ E) as (r1 & w1 & Er & Hr).
      destruct r1 as [v|e1]; destruct Hr as [Hr _]; [discriminate|].
      inversion Hr; subst e1.
      eexists _, w1. split; [|exact Er]. reflexivity.
Qed.

Lemma dispatch_guard_witness :
  dispatch Demo.call 10 (action_of_type 100 "INC")
           (set_isDispatching true Demo.counter_world)
  = Some (Thrown (new_error "Reducers may not dispatch actions."),
          set_isDispatching true Demo.counter_world)
  /\ currentState (Demo.world_after
                     (createStore Demo.call 10 (VFun 5) VUndefined VUndefined))
     = VStr "Reducers may not dispatch actions."
  /\ exists w',
       dispatch Demo.call 10 (action_of_type 100 "INC") Demo.nested_world
       = Some (Normal (action_of_type 100 "INC"), w')
       /\ currentState w' = VNum 2
       /\ isDispatching w' = false
       /\ exists t, trace w'
                    = trace Demo.nested_world
                      ++ EvReduce true (currentState Demo.nested_world)
                                  (action_of_type 100 "INC") :: t
                    /\ Forall event_ok t.
Proof.
  split; [|split].
  - apply (dispatch_guard false Demo.functions 10); reflexivity.
  - reflexivity.
  - eexists. split; [vm_compute; reflexivity|]. split; [reflexivity|].
    eapply (dispatch_guard false Demo.functions 10).
    + unfold store_ok. simpl. lia.
    + reflexivity.
    + reflexivity.
    + reflexivity.
    + vm_compute. reflexivity.
Defined.

(** ** What a composed reducer returns *)

Section Combination_facts.

Variable production : bool.
Variable invoke : value -> list value -> M value.

(** The diagnostics of [combination] always come back, and allocate
    nothing. *)
Lemma diagnostics_return state finalReducers action cacheId w :
  exists w',
    (if negb production then
       let* warningMessage :=
         getUnexpectedStateShapeWarningMessage state finalReducers action cacheId in
       match warningMessage with
       | Some message => warning message
       | None => ret tt
       end
     else ret tt) w = Some (Normal tt, w')
    /\ nextObjectId w' = nextObjectId w.
Proof.
  destruct (negb production); [|eexists; split; reflexivity].
  unfold getUnexpectedStateShapeWarningMessage.
  destruct (Nat.eqb _ 0); [eexists; split; reflexivity|].
  destruct (negb (JS.isPlainObject state)); [eexists; split; reflexivity|].
  unfold bind, gets, modify, ret, warning. simpl.
  destruct (Nat.ltb 0 _); eexists; split; reflexivity.
Qed.

(** [combination] without a stored error: the state it works on, the
    identity of [nextState], and the loop. *)
Lemma combination_unfold cacheId finalReducers shapeAssertionError state action w :
  JS.truthy shapeAssertionError = false ->
  let state' := if JS.is_undefined state then VObj (nextObjectId w) KPlain [] else state in
  let id := if JS.is_undefined state then S (nextObjectId w) else nextObjectId w in
  exists w0,
    combination production invoke cacheId finalReducers shapeAssertionError state action w
    = (let* looped :=
         combination_each invoke finalReducers state' action (map fst finalReducers)
                          false [] in
       ret (if fst looped then VObj id KPlain (snd looped) else state')) w0.
Proof.
  intros Herr state' id. unfold combination.
  unfold bind at 1.
  assert (Hs : exists wa,
             (if JS.is_undefined state then new_object KPlain [] else ret state) w
             = Some (Normal state', wa)
             /\ nextObjectId wa = id).
  { subst state' id. destruct (JS.is_undefined state); eexists; split; reflexivity. }
  destruct Hs as (wa & -> & Hid). rewrite Herr.
  destruct (diagnostics_return state' finalReducers action cacheId wa) as (wb & Ew & Hn).
  unfold bind at 1. rewrite Ew.
  unfold bind at 1, fresh_id at 1. rewrite Hn, Hid.
  eexists. reflexivity.
Qed.

(** With a stored error, every call throws it. *)
Lemma combination_rethrows cacheId finalReducers shapeAssertionError state action w :
  JS.truthy shapeAssertionError = true ->
  exists w',
    combination production invoke cacheId finalReducers shapeAssertionError state action w
    = Some (Thrown shapeAssertionError, w').
Proof.
  intros Herr. unfold combination, bind, new_object, fresh_id, ret, throw.
  rewrite Herr. destruct (JS.is_undefined state); eexists; reflexivity.
Qed.

Lemma In_keys_lookup key (finalReducers : list (string * value)) :
  NoDup (map fst finalReducers) ->
  In key (map fst finalReducers) ->
  exists r, In (key, r) finalReducers
            /\ default VUndefined (JS.lookup_prop key finalReducers) = r.
Proof.
  intros Hnd Hin. apply in_map_iff in Hin. destruct Hin as ([k r] & E & Hin).
  simpl in E. subst k. exists r. split; [exact Hin|].
  rewrite (lookup_prop_In key r) by assumption. reflexivity.
Qed.

End Combination_facts.

Lemma get_prop_readable state key :
  state <> VUndefined -> state <> VNull ->
  JS.get_prop state key = Normal (prev_part state key).
Proof.
  intros H1 H2. unfold prev_part. destruct state; try reflexivity; congruence.
Qed.

(** [combineReducers] on a mapping object, when the shape assertion
    terminates, returns a closure over the callable entries and what the
    assertion threw, if anything. *)
Lemma combineReducers_closure production invoke rid kind props w r w1 :
  NoDup (map fst props) ->
  combineReducers production invoke (VObj rid kind props) w = Some (r, w1) ->
  exists wa ra,
    assertReducerShape invoke (surviving props) wa = Some (ra, w1)
    /\ r = Normal (VCombination (length (unexpectedKeyCaches w)) (surviving props)
                     match ra with
                     | Normal _ => VUndefined
                     | Thrown e => e
                     end).
Proof.
  intros Hnd H. unfold combineReducers in H.
  unfold bind at 1, lift at 1 in H. simpl in H.
  destruct (collect_reducers_surviving production rid kind [] props w Hnd)
    as (wc & Ec & Hc).
  simpl in Ec. unfold bind at 1 in H. rewrite Ec in H.
  unfold bind at 1, gets at 1 in H. unfold bind at 1, modify at 1 in H.
  unfold bind at 1, attempt in H.
  match type of H with context [assertReducerShape _ _ ?wa] =>
    destruct (assertReducerShape invoke (surviving props) wa) as [[ra wb]|] eqn:Ea;
      [exists wa, ra | discriminate]
  end.
  unfold ret in H. inversion H; subst. split; [exact Ea|].
  rewrite Hc. reflexivity.
Qed.

(** The loop of [combination], run to its end. *)
Lemma combination_each_parts invoke finalReducers state action w :
  NoDup (map fst finalReducers) ->
  state <> VUndefined -> state <> VNull ->
  (forall key r, In (key, r) finalReducers ->
     forall wa, exists v wb,
       invoke r [prev_part state key; action] wa = Some (Normal v, wb)
       /\ JS.is_undefined v = false) ->
  exists parts w',
    map fst parts = map fst finalReducers
    /\ Forall (fun kv => exists r wa wb,
                   In (fst kv, r) finalReducers
                   /\ invoke r [prev_part state (fst kv); action] wa
                      = Some (Normal (snd kv), wb)) parts
    /\ combination_each invoke finalReducers state action (map fst finalReducers)
                        false [] w
       = Some (Normal (existsb (part_changed state) parts, parts), w').
Proof.
  intros Hnd H1 H2 Htot.
  destruct (combination_each_total invoke finalReducers state action
              (map fst finalReducers)) with (hasChanged := false) (nextState := @nil (string * value)) (w := w)
    as (hc & ns & w' & E).
  - intros key _. eexists. apply get_prop_readable; assumption.
  - intros key wa Hin.
    destruct (In_keys_lookup key finalReducers Hnd Hin) as (r & Hr & ->).
    apply Htot. exact Hr.
  - destruct (combination_each_inv _ _ _ _ _ _ _ _ _ _ _ E) as (parts & Hk & Hn & Hc & Hf).
    exists parts, w'. split; [exact Hk|]. split.
    + apply List.Forall_forall. intros [k v] Hkv.
      pose proof (proj1 (List.Forall_forall _ _) Hf _ Hkv) as [_ (wa & wb & Hi)].
      simpl in *.
      assert (Hin : In k (map fst finalReducers)).
      { rewrite <- Hk. change k with (fst (k, v)). apply in_map. exact Hkv. }
      destruct (In_keys_lookup k finalReducers Hnd Hin) as (r & Hr & Hd).
      rewrite Hd in Hi. eauto.
    + rewrite E, Hc, Hn. simpl.
      rewrite fold_assign_fresh by (simpl; rewrite Hk; exact Hnd). reflexivity.
Qed.



(** Distinctness of the keys of a literal mapping. *)
Ltac distinct_keys :=
  simpl;
  repeat (apply NoDup_cons; split;
          [rewrite list_elem_of_In; simpl; intuition discriminate |]);
  apply NoDup_nil; exact I.


(** Sub-reducers that answer [resp key] on their part of the state
    return the parts [resp] names, in key order. *)
Lemma parts_determined (invoke : value -> list value -> M value)
      (finalReducers parts : list (string * value)) state action resp :
  map fst parts = map fst finalReducers ->
  Forall (fun kv => exists r wa wb,
              In (fst kv, r) finalReducers
              /\ invoke r [prev_part state (fst kv); action] wa
                 = Some (Normal (snd kv), wb)) parts ->
  (forall key r, In (key, r) finalReducers ->
     forall wa : world, exists wb : world,
       invoke r [prev_part state key; action] wa = Some (Normal (resp key), wb)) ->
  parts = map (fun kv : string * value => (fst kv, resp (fst kv))) finalReducers.
Proof.
  intros Hk Hf Hresp.
  assert (Hsnd : Forall (fun kv : string * value => snd kv = resp (fst kv)) parts).
  { eapply List.Forall_impl; [|exact Hf].
    intros [k v] (r & wa & wb & Hin & E). simpl in *.
    destruct (Hresp k r Hin wa) as (wb' & E'). congruence. }
  clear Hf Hresp. revert parts Hk Hsnd.
  induction finalReducers as [|[k r] rest IH]; intros [|[k' v] parts] Hk Hsnd;
    try discriminate; [reflexivity|].
  simpl in Hk. injection Hk as -> Hk.
  inversion Hsnd as [|? ? Hv Hrest]; subst. simpl in Hv. subst v.
  simpl. f_equal. apply IH; assumption.
Qed.



(** ** The shape assertion *)

Section Shape_facts.

Variable invoke : value -> list value -> M value.
Variable finalReducers : list (string * value).
Variable resp : string -> string -> value.

Hypothesis distinct : NoDup (map fst finalReducers).
Hypothesis responds :
  forall key r type id w,
    In (key, r) finalReducers ->
    type = ActionTypes_INIT \/ (exists tail, type = probe_type tail) ->
    exists w', invoke r [VUndefined; action_of_type id type] w
               = Some (Normal (resp key type), w').

(** The assertion passes over the keys whose reducer answers both
    probes, and stops with the error of the first key whose reducer
    does not. *)
Lemma assertReducerShape_each_outcome keys w :
  (forall key, In key keys -> In key (map fst finalReducers)) ->
  exists w',
    (assertReducerShape_each invoke finalReducers keys w = Some (Normal tt, w')
     /\ Forall (fun key =>
                  JS.is_undefined (resp key ActionTypes_INIT) = false
                  /\ exists tail, JS.is_undefined (resp key (probe_type tail)) = false)
               keys)
    \/ (exists key,
           In key keys
           /\ ((JS.is_undefined (resp key ActionTypes_INIT) = true
                /\ assertReducerShape_each invoke finalReducers keys w
                   = Some (Thrown (new_error (Messages.undefined_during_initialization key)),
                           w'))
               \/ (exists tail,
                      JS.is_undefined (resp key (probe_type tail)) = true
                      /\ assertReducerShape_each invoke finalReducers keys w
                         = Some (Thrown (new_error (Messages.undefined_when_probed key)),
                                 w')))).
Proof.
  revert w. induction keys as [|key rest IH]; intros w Hsub.
  - exists w. left. split; [reflexivity | constructor].
  - destruct (In_keys_lookup key finalReducers distinct (Hsub key (or_introl eq_refl)))
      as (r & Hr & Hd).
    remember (assertReducerShape_each invoke finalReducers (key :: rest) w) as res eqn:Eres.
    simpl in Eres. rewrite Hd in Eres.
    unfold new_object at 1, fresh_id at 1 in Eres.
    unfold bind at 1 in Eres. unfold bind at 1 in Eres. unfold ret at 1 in Eres.
    destruct (responds key r ActionTypes_INIT (nextObjectId w)
                (set_nextObjectId (S (nextObjectId w)) w) Hr (or_introl eq_refl))
      as (w1 & E1).
    unfold action_of_type in E1. unfold bind at 1 in Eres. rewrite E1 in Eres.
    destruct (JS.is_undefined (resp key ActionTypes_INIT)) eqn:Hi.
    { exists w1. right. exists key. split; [left; reflexivity|]. left.
      split; [exact Hi | exact Eres]. }
    unfold bind at 1 in Eres.
    destruct (random_tail w1) as [[[tail|e] w2]|] eqn:Et;
      [| unfold random_tail in Et; destruct (entropy w1); discriminate
       | unfold random_tail in Et; destruct (entropy w1); discriminate].
    unfold new_object at 1, fresh_id at 1 in Eres.
    unfold bind at 1 in Eres. unfold bind at 1 in Eres. unfold ret at 1 in Eres.
    destruct (responds key r (probe_type tail) (nextObjectId w2)
                (set_nextObjectId (S (nextObjectId w2)) w2) Hr
                (or_intror (ex_intro _ tail eq_refl))) as (w3 & E3).
    unfold action_of_type in E3. unfold bind at 1 in Eres. rewrite E3 in Eres.
    destruct (JS.is_undefined (resp key (probe_type tail))) eqn:Hp.
    { exists w3. right. exists key. split; [left; reflexivity|]. right.
      exists tail. split; [exact Hp | exact Eres]. }
    rewrite Eres.
    destruct (IH w3) as (w' & [[E Hall] | (k & Hk & Hcase)]).
    + intros k Hk. apply Hsub. right. exact Hk.
    + exists w'. left. split; [exact E|]. constructor; [|exact Hall]. eauto.
    + exists w'. right. exists k. split; [right; exact Hk | exact Hcase].
Qed.

End Shape_facts.




(** ** Stores are in order from construction on *)

Lemma createStore_store_ok production functions fuel reducer preloadedState enhancer w w' :
  createStore (invoke production functions fuel) fuel reducer preloadedState enhancer w
  = Some (Normal StoreObject, w') ->
  store_ok w'.
Proof.
  set (call := invoke production functions fuel).
  unfold createStore.
  destruct (negb (JS.is_undefined _)).
  { destruct (negb (JS.is_function _)); discriminate. }
  destruct (negb (JS.is_function reducer)); [discriminate|].
  unfold init_action, new_object, fresh_id.
  unfold bind at 1, modify at 1. unfold bind at 1, modify at 1.
  unfold bind at 1, gets at 1. unfold bind at 1, modify at 1.
  unfold bind at 1, modify at 1. unfold bind at 1, modify at 1.
  unfold bind at 1, modify at 1. unfold bind at 1. unfold bind at 1.
  unfold ret at 1. intros H.
  apply bind_inv in H. destruct H as [(a & w1 & E & H) | (e & _ & He)]; [|discriminate].
  inversion H; subst w1.
  apply (dispatch_evolves call fuel (safe_invoke production functions fuel)) in E.
  - apply E.
  - unfold store_ok. simpl. rewrite length_app. simpl. lia.
Qed.

(** Every operation a client can perform on a store in order leaves it
    in order. *)
Lemma store_ok_preserved production functions fuel o w r w' :
  store_ok w ->
  perform (invoke production functions fuel) fuel o w = Some (r, w') ->
  store_ok w'.
Proof.
  intros Hok H.
  apply (safe_perform (invoke production functions fuel) fuel
           (safe_invoke production functions fuel)) in H; [apply H | exact Hok].
Qed.

(** * Further properties *)

(** ** List and cells agree, and reducers run alone *)


Lemma tidy_refl w : tidy w w.
Proof. split; auto. Qed.

Lemma tidy_trans w1 w2 w3 :
  isDispatching w2 = isDispatching w1 -> tidy w1 w2 -> tidy w2 w3 -> tidy w1 w3.
Proof.
  intros Hg [L1 G1] [L2 G2]. split; [auto|].
  intros H. destruct (G1 H) as [S1 T1]. rewrite <- Hg in H.
  destruct (G2 H) as [S2 T2]. split; congruence.
Qed.

Lemma listed_same w w' :
  array_at w' (nextListeners w') = array_at w (nextListeners w) ->
  subscriptions w' = subscriptions w ->
  listed w -> listed w'.
Proof.
  intros Ha Hs [F R]. split.
  - rewrite Hs. exact F.
  - intros l. unfold registrations. rewrite Ha, Hs. apply R.
Qed.

Lemma tidy_discreet f w : discreet f -> tidy w (f w).
Proof.
  intros H. destruct (H w) as (Hn & Ha & Hs & Hc & Ht). split.
  - apply listed_same; [|exact Hs]. unfold array_at. rewrite Hn, Ha. reflexivity.
  - intros _. split; assumption.
Qed.

Lemma neat_ret {A : Type} (a : A) : neat (ret a).
Proof. intros w r w' _ H. inversion H; subst. apply tidy_refl. Qed.

Lemma neat_throw {A : Type} (e : value) : neat (@throw A e).
Proof. intros w r w' _ H. inversion H; subst. apply tidy_refl. Qed.

Lemma neat_lift {A : Type} (x : result A) : neat (lift x).
Proof. intros w r w' _ H. inversion H; subst. apply tidy_refl. Qed.

Lemma neat_gets {A : Type} (f : world -> A) : neat (gets f).
Proof. intros w r w' _ H. inversion H; subst. apply tidy_refl. Qed.

Lemma neat_modify (f : world -> world) : discreet f -> neat (modify f).
Proof. intros Hf w r w' _ H. inversion H; subst. apply tidy_discreet, Hf. Qed.

Lemma neat_bind {A B : Type} (m : M A) (k : A -> M B) :
  safe m -> neat m -> (forall a, neat (k a)) -> neat (bind m k).
Proof.
  intros Sm Hm Hk w r w' Hok H.
  apply bind_inv in H. destruct H as [(a & w1 & E1 & E2) | (e & E & _)].
  - pose proof (Sm _ _ _ Hok E1) as Hev.
    eapply tidy_trans; [apply Hev | apply (Hm _ _ _ Hok E1) |].
    apply (Hk a _ _ _ (ev_ok _ _ Hev) E2).
  - apply (Hm _ _ _ Hok E).
Qed.

Lemma neat_attempt {A : Type} (m : M A) : neat m -> neat (attempt m).
Proof.
  intros Hm w r w' Hok H. unfold attempt in H.
  destruct (m w) as [[r0 w0]|] eqn:E; [|discriminate].
  inversion H; subst. apply (Hm _ _ _ Hok E).
Qed.

Lemma neat_fresh_id : neat fresh_id.
Proof.
  intros w r w' _ H. inversion H; subst.
  apply (tidy_discreet (set_nextObjectId _)). intros w0. simpl. auto.
Qed.

Lemma neat_new_object k props : neat (new_object k props).
Proof.
  apply neat_bind; [apply safe_fresh_id | apply neat_fresh_id | intros; apply neat_ret].
Qed.

Lemma neat_warning message : neat (warning message).
Proof. apply neat_modify. intros w. simpl. auto. Qed.

Lemma neat_random_tail : neat random_tail.
Proof.
  intros w r w' _ H. unfold random_tail in H.
  destruct (entropy w); inversion H; subst; [apply tidy_refl|].
  apply (tidy_discreet (set_entropy _)). intros w0. simpl. auto.
Qed.

Lemma neat_getUnexpectedStateShapeWarningMessage inputState reducers action cacheId :
  neat (getUnexpectedStateShapeWarningMessage inputState reducers action cacheId).
Proof.
  unfold getUnexpectedStateShapeWarningMessage.
  destruct (Nat.eqb _ 0); [apply neat_ret|].
  destruct (negb (JS.isPlainObject inputState)); [apply neat_ret|].
  apply neat_bind; [apply safe_gets | apply neat_gets | intros cache].
  apply neat_bind.
  - apply safe_modify. intros w. simpl. auto.
  - apply neat_modify. intros w. simpl. auto.
  - intros _. destruct (Nat.ltb 0 _); apply neat_ret.
Qed.

(** ** Subscriptions and the listener list *)

Lemma strict_eq_class a b c :
  JS.strict_eq a b = true -> JS.strict_eq a c = JS.strict_eq b c.
Proof.
  destruct a, b; simpl; try discriminate; intros H; destruct c; simpl; try reflexivity.
  - apply Bool.eqb_prop in H. congruence.
  - apply Z.eqb_eq in H. congruence.
  - apply String.eqb_eq in H. congruence.
  - apply Nat.eqb_eq in H. congruence.
  - apply Nat.eqb_eq in H. congruence.
  - apply Nat.eqb_eq in H. congruence.
  - apply Nat.eqb_eq in H. congruence.
Qed.

Lemma splice_indexOf_any x l0 l :
  0 < occurrences l0 l ->
  occurrences x (splice_one (indexOf l0 l) l) + one_if (JS.strict_eq l0 x)
  = occurrences x l.
Proof.
  induction l as [|y l IH]; intros H.
  - unfold occurrences in H. simpl in H. lia.
  - rewrite indexOf_cons. destruct (JS.strict_eq y l0) eqn:E.
    + unfold splice_one. simpl. rewrite drop_0.
      unfold occurrences. simpl.
      rewrite (strict_eq_class y l0 x E).
      destruct (JS.strict_eq l0 x); simpl; lia.
    + assert (H' : 0 < occurrences l0 l).
      { unfold occurrences in *. simpl in H. rewrite E in H. exact H. }
      pose proof (indexOf_found l0 l H') as Hf.
      destruct (indexOf l0 l =? -1)%Z eqn:Em; [apply Z.eqb_eq in Em; lia|].
      rewrite splice_one_succ by exact Hf.
      specialize (IH H'). unfold occurrences in *. simpl.
      destruct (JS.strict_eq y x); simpl; lia.
Qed.

Lemma active_app x subs cell :
  active x (subs ++ [cell])
  = active x subs + one_if (snd cell && JS.strict_eq (fst cell) x).
Proof.
  unfold active. rewrite List.filter_app, length_app. simpl.
  destruct (snd cell && JS.strict_eq (fst cell) x); reflexivity.
Qed.

Lemma active_retire x l0 h subs :
  subs !! h = Some (l0, true) ->
  active x (<[h := (l0, false)]> subs) + one_if (JS.strict_eq l0 x) = active x subs.
Proof.
  revert h. induction subs as [|c subs IH]; intros h H.
  - destruct h; discriminate.
  - destruct h as [|h]; simpl in H.
    + inversion H; subst. unfold active. simpl.
      destruct (JS.strict_eq l0 x); simpl; lia.
    + specialize (IH h H). unfold active in *. simpl.
      destruct (snd c && JS.strict_eq (fst c) x); simpl; lia.
Qed.

Lemma active_positive l0 h subs :
  subs !! h = Some (l0, true) ->
  JS.is_function l0 = true ->
  0 < active l0 subs.
Proof.
  intros H Hf. pose proof (active_retire l0 l0 h subs H) as E.
  rewrite (strict_eq_function_refl l0 Hf) in E. simpl in E. lia.
Qed.

Lemma subscribe_listed listener w r w' :
  store_ok w -> listed w -> subscribe listener w = Some (r, w') -> listed w'.
Proof.
  intros Hok [F R] H.
  destruct (JS.is_function listener) eqn:Hf.
  - destruct (subscribe_spec listener w Hok Hf) as (w1 & E & _ & Ha & Hs).
    rewrite E in H. inversion H; subst. split.
    + intros h l Hl. rewrite Hs in Hl.
      destruct (lookup_app_Some (subscriptions w) [(listener, true)] h (l, true))
        as [[Hl' | [_ Hl']] _]; [exact Hl | eauto |].
      destruct (h - length (subscriptions w)); simpl in Hl'; [|discriminate].
      inversion Hl'; subst. exact Hf.
    + intros l. unfold registrations. rewrite Ha, Hs, occurrences_app, active_app.
      rewrite <- (R l). unfold registrations, occurrences. simpl.
      destruct (JS.strict_eq listener l); reflexivity.
  - unfold subscribe in H. rewrite Hf in H. inversion H; subst. split; assumption.
Qed.

Lemma unsubscribe_listed h w r w' :
  store_ok w -> listed w -> unsubscribe h w = Some (r, w') -> listed w'.
Proof.
  intros Hok [F R] H.
  destruct (subscriptions w !! h) as [[l [|]]|] eqn:Hc.
  - destruct (unsubscribe_active h l w Hok Hc) as (w1 & E & _ & Ha & Hs).
    rewrite E in H. inversion H; subst. split.
    + intros h' l' Hl. rewrite Hs in Hl.
      destruct (Nat.eq_dec h h') as [->|Hne].
      * rewrite list_lookup_insert_eq in Hl by (eapply lookup_lt_Some; eauto).
        discriminate.
      * rewrite list_lookup_insert_ne in Hl by exact Hne. eauto.
    + intros x. unfold registrations. rewrite Ha, Hs.
      pose proof (active_retire x l h _ Hc) as E1.
      assert (Hpos : 0 < occurrences l (array_at w (nextListeners w))).
      { specialize (R l). unfold registrations in R. rewrite R.
        eapply active_positive; eauto. }
      pose proof (splice_indexOf_any x l _ Hpos) as E2.
      specialize (R x). unfold registrations in R. lia.
  - rewrite (unsubscribe_inactive h l w Hc) in H. inversion H; subst. split; assumption.
  - unfold unsubscribe, bind, gets in H. rewrite Hc in H. inversion H; subst.
    split; assumption.
Qed.

Lemma neat_subscribe listener : neat (subscribe listener).
Proof.
  intros w r w' Hok H. split.
  - intros HL. eapply subscribe_listed; eauto.
  - intros _. destruct (JS.is_function listener) eqn:Hf.
    + unfold subscribe in H. rewrite Hf in H.
      unfold ensureCanMutateNextListeners, array_push, array_slice, bind, gets, modify,
        ret in H. simpl in H.
      destruct (Nat.eqb _ _); simpl in H; inversion H; subst; simpl; auto.
    + unfold subscribe in H. rewrite Hf in H. inversion H; subst. auto.
Qed.

Lemma neat_unsubscribe h : neat (unsubscribe h).
Proof.
  intros w r w' Hok H. split.
  - intros HL. eapply unsubscribe_listed; eauto.
  - intros _. unfold unsubscribe in H.
    unfold ensureCanMutateNextListeners, array_splice_one, array_slice, bind, gets, modify,
      ret, throw in H. simpl in H.
    destruct (subscriptions w !! h) as [[l [|]]|]; simpl in H.
    + destruct (Nat.eqb _ _); simpl in H; inversion H; subst; simpl; auto.
    + inversion H; subst. auto.
    + inversion H; subst. auto.
Qed.

(** ** The whole library keeps list and cells in agreement *)

Section Neat.

Variable production : bool.
Variable invoke : value -> list value -> M value.
Variable budget : nat.
Hypothesis safe_invoke : forall f args, safe (invoke f args).
Hypothesis neat_invoke : forall f args, neat (invoke f args).

Lemma dispatch_blocked action w r w' :
  isDispatching w = true ->
  dispatch invoke budget action w = Some (r, w') ->
  w' = w.
Proof.
  intros G H. unfold dispatch in H.
  destruct (negb (JS.isPlainObject action)); [inversion H; reflexivity|].
  unfold bind at 1, lift at 1 in H.
  destruct (JS.get_prop action "type") as [type|e]; [|inversion H; reflexivity].
  destruct (JS.is_undefined type); [inversion H; reflexivity|].
  unfold bind at 1, gets at 1 in H. rewrite G in H. inversion H; reflexivity.
Qed.

Lemma notify_snapshot_listed snapshot w r w' :
  store_ok w -> listed w ->
  notify_snapshot invoke snapshot w = Some (r, w') ->
  listed w'.
Proof.
  revert w. induction snapshot as [|l rest IH]; intros w Hok HL H.
  - inversion H; subst. exact HL.
  - simpl in H. unfold bind at 1, gets at 1 in H.
    unfold bind at 1, log_event, modify at 1 in H.
    set (wl := set_trace _ w) in H.
    assert (Hokl : store_ok wl) by exact Hok.
    assert (HLl : listed wl) by (apply (listed_same w); auto).
    apply bind_inv in H. destruct H as [(a & w1 & E1 & E2) | (e & E & _)].
    + apply (IH w1); [| |exact E2].
      * apply (safe_invoke _ _ _ _ _ Hokl E1).
      * apply (neat_invoke _ _ _ _ _ Hokl E1). exact HLl.
    + apply (neat_invoke _ _ _ _ _ Hokl E). exact HLl.
Qed.

Lemma neat_dispatch action : neat (dispatch invoke budget action).
Proof.
  intros w r w' Hok H.
  destruct (isDispatching w) eqn:G.
  { rewrite (dispatch_blocked action w r w' G H). apply tidy_refl. }
  split; [|intros G'; rewrite G in G'; discriminate].
  intros HL.
  apply (dispatch_refines invoke safe_invoke) in H; [|exact Hok].
  unfold dispatch_by_snapshot in H.
  destruct (negb (JS.isPlainObject action)); [inversion H; subst; exact HL|].
  unfold bind at 1, lift at 1 in H.
  destruct (JS.get_prop action "type") as [type|e]; [|inversion H; subst; exact HL].
  destruct (JS.is_undefined type); [inversion H; subst; exact HL|].
  unfold bind at 1, gets at 1 in H. rewrite G in H.
  apply bind_inv in H.
  assert (Hblock : forall r2 w2, reduce_block invoke action w = Some (r2, w2) ->
                                 store_ok w2 /\ listed w2).
  { intros r2 w2 E. split.
    - apply (reduce_block_evolves invoke safe_invoke action w r2 w2 Hok G E).
    - apply reduce_block_inv in E. destruct E as (r1 & w1 & E & Hcase).
      match type of E with invoke _ _ ?wa = _ =>
        assert (Hoka : store_ok wa) by exact Hok;
        assert (HLa : listed wa) by (apply (listed_same w); auto)
      end.
      pose proof (proj1 (neat_invoke _ _ _ _ _ Hoka E) HLa) as HL1.
      destruct r1 as [v|e]; destruct Hcase as [_ ->];
        (eapply listed_same; [| |exact HL1]; reflexivity). }
  destruct H as [(a & w2 & E1 & E2) | (e & E & _)];
    [|apply (Hblock _ _ E)].
  destruct (Hblock _ _ E1) as [Hok2 HL2].
  unfold bind at 1, gets at 1 in E2. unfold bind at 1, modify at 1 in E2.
  apply bind_inv in E2.
  match type of E2 with
  | context [notify_snapshot _ _ ?wn] =>
      assert (Hokn : store_ok wn) by (destruct Hok2; split; simpl; assumption);
      assert (HLn : listed wn) by (apply (listed_same w2); auto)
  end.
  destruct E2 as [(b & w3 & E3 & E4) | (e & E & _)].
  - inversion E4; subst. eapply notify_snapshot_listed; eauto.
  - eapply notify_snapshot_listed; eauto.
Qed.

Lemma neat_replaceReducer nextReducer : neat (replaceReducer invoke budget nextReducer).
Proof.
  unfold replaceReducer. destruct (negb _); [apply neat_throw|].
  apply neat_bind;
    [apply safe_modify; intros w; simpl; auto
    |apply neat_modify; intros w; simpl; auto|]. intros _.
  apply neat_bind; [apply safe_new_object | apply neat_new_object|]. intros init.
  apply neat_bind; [apply safe_dispatch, safe_invoke | apply neat_dispatch|].
  intros _. apply neat_ret.
Qed.

Lemma neat_combination_each finalReducers state action keys hasChanged nextState :
  neat (combination_each invoke finalReducers state action keys hasChanged nextState).
Proof.
  revert hasChanged nextState.
  induction keys as [|key rest IH]; intros hasChanged nextState; simpl.
  - apply neat_ret.
  - apply neat_bind; [apply safe_lift | apply neat_lift|]. intros prev.
    apply neat_bind; [apply safe_invoke | apply neat_invoke|]. intros next.
    destruct (JS.is_undefined next); [apply neat_throw | apply IH].
Qed.

Lemma neat_combination cacheId finalReducers shapeAssertionError state action :
  neat (combination production invoke cacheId finalReducers shapeAssertionError
                    state action).
Proof.
  unfold combination.
  apply neat_bind.
  { destruct (JS.is_undefined state); [apply safe_new_object | apply safe_ret]. }
  { destruct (JS.is_undefined state); [apply neat_new_object | apply neat_ret]. }
  intros state'.
  destruct (JS.truthy shapeAssertionError); [apply neat_throw|].
  apply neat_bind.
  { destruct (negb production); [|apply safe_ret].
    apply safe_bind; [apply safe_getUnexpectedStateShapeWarningMessage|].
    intros [message|]; [apply safe_warning | apply safe_ret]. }
  { destruct (negb production); [|apply neat_ret].
    apply neat_bind; [apply safe_getUnexpectedStateShapeWarningMessage
                     |apply neat_getUnexpectedStateShapeWarningMessage|].
    intros [message|]; [apply neat_warning | apply neat_ret]. }
  intros _.
  apply neat_bind; [apply safe_fresh_id | apply neat_fresh_id|]. intros nextStateId.
  apply neat_bind; [apply safe_combination_each, safe_invoke
                   |apply neat_combination_each|]. intros looped.
  apply neat_ret.
Qed.

Lemma neat_perform o : neat (perform invoke budget o).
Proof.
  destruct o; simpl.
  - apply neat_dispatch.
  - apply neat_gets.
  - apply neat_subscribe.
  - apply neat_replaceReducer.
  - apply neat_invoke.
  - apply neat_new_object.
Qed.

Lemma neat_run p : neat (run invoke budget p).
Proof.
  induction p as [v|e|o k IH]; simpl.
  - apply neat_ret.
  - apply neat_throw.
  - apply neat_bind;
      [apply safe_attempt, safe_perform, safe_invoke
      |apply neat_attempt, neat_perform | exact IH].
Qed.

End Neat.

Lemma neat_invoke production functions fuel :
  forall f args, neat (invoke production functions fuel f args).
Proof.
  induction fuel as [|n IH]; intros f args.
  - intros w r w' _ H. discriminate.
  - destruct f; simpl; try apply neat_throw.
    + apply neat_run; [apply safe_invoke | exact IH].
    + apply neat_unsubscribe.
    + apply neat_combination; [apply safe_invoke | exact IH].
Qed.

Lemma prepared_store_listed reducer preloadedState w :
  (forall h cell, subscriptions w !! h = Some cell -> snd cell = false) ->
  store_ok (prepared_store reducer preloadedState w)
  /\ listed (prepared_store reducer preloadedState w).
Proof.
  intros Hnone. split.
  - unfold store_ok. simpl. rewrite length_app. simpl. lia.
  - split.
    + intros h l H. simpl in H. apply Hnone in H. discriminate.
    + intros l. unfold registrations, array_at. simpl.
      rewrite list_lookup_middle by reflexivity. simpl.
      unfold active. induction (subscriptions w) as [|c subs IH]; [reflexivity|].
      simpl. rewrite (Hnone 0 c eq_refl). simpl.
      apply IH. intros h cell H. apply (Hnone (S h) cell H).
Qed.

Lemma createStore_prepared invoke budget reducer preloadedState enhancer w w' :
  createStore invoke budget reducer preloadedState enhancer w
  = Some (Normal StoreObject, w') ->
  exists r w1,
    dispatch invoke budget (action_of_type (nextObjectId w) ActionTypes_INIT)
             (prepared_store reducer
                (if JS.is_function preloadedState && JS.is_undefined enhancer
                 then VUndefined else preloadedState) w)
    = Some (r, w1)
    /\ w' = w1.
Proof.
  unfold createStore.
  destruct (negb (JS.is_undefined _)).
  { destruct (negb (JS.is_function _)); discriminate. }
  destruct (negb (JS.is_function reducer)); [discriminate|].
  unfold init_action, new_object, fresh_id.
  unfold bind at 1, modify at 1. unfold bind at 1, modify at 1.
  unfold bind at 1, gets at 1. unfold bind at 1, modify at 1.
  unfold bind at 1, modify at 1. unfold bind at 1, modify at 1.
  unfold bind at 1, modify at 1. unfold bind at 1. unfold bind at 1.
  unfold ret at 1. intros H.
  apply bind_inv in H. destruct H as [(a & w1 & E & H) | (e & _ & He)]; [|discriminate].
  inversion H; subst w1. eexists _, _. split; [exact E | reflexivity].
Qed.

(** X2.  The listener list and the subscriptions agree from construction
    on: a store built by [createStore] in a world without active
    subscriptions has its list and cells in agreement, and every store
    operation and every call of a function value keeps them so. *)
Theorem listeners_match_subscriptions production functions fuel :
  let call := invoke production functions fuel in
  (forall reducer preloadedState enhancer w w',
      (forall h cell, subscriptions w !! h = Some cell -> snd cell = false) ->
      createStore call fuel reducer preloadedState enhancer w
      = Some (Normal StoreObject, w') ->
      store_ok w' /\ listed w')
  /\ (forall o w r w',
         store_ok w -> listed w ->
         perform call fuel o w = Some (r, w') ->
         store_ok w' /\ listed w')
  /\ (forall f args w r w',
         store_ok w -> listed w ->
         call f args w = Some (r, w') ->
         store_ok w' /\ listed w').
Proof.
  intros call.
  pose proof (safe_invoke production functions fuel) as Hs.
  pose proof (neat_invoke production functions fuel) as Hn.
  split; [|split].
  - intros reducer preloadedState enhancer w w' Hnone H.
    apply createStore_prepared in H. destruct H as (r & w1 & E & ->).
    destruct (prepared_store_listed reducer
                (if JS.is_function preloadedState && JS.is_undefined enhancer
                 then VUndefined else preloadedState) w Hnone) as [Hok HL].
    split.
    + apply (safe_dispatch call fuel Hs _ _ _ _ Hok E).
    + apply (neat_dispatch call fuel Hs Hn _ _ _ _ Hok E). exact HL.
  - intros o w r w' Hok HL H. split.
    + apply (safe_perform call fuel Hs _ _ _ _ Hok H).
    + apply (neat_perform call fuel Hs Hn _ _ _ _ Hok H). exact HL.
  - intros f args w r w' Hok HL H. split.
    + apply (Hs _ _ _ _ _ Hok H).
    + apply (Hn _ _ _ _ _ Hok H). exact HL.
Qed.

Lemma listeners_match_subscriptions_witness :
  store_ok Demo.counter_world /\ listed Demo.counter_world.
Proof.
  apply (proj1 (listeners_match_subscriptions false Demo.functions 10)
           (VFun 0) VUndefined VUndefined empty_world).
  - intros h cell H. destruct h; discriminate.
  - vm_compute. reflexivity.
Defined.

(** X3.  In a store whose list and cells agree, the first call of an
    [unsubscribe] closure finds its listener in the list ([indexOf] is
    not -1), takes out one occurrence of it, and leaves the number of
    occurrences of every other listener as it was. *)
Theorem unsubscribe_removes_own_listener h listener w :
  store_ok w ->
  listed w ->
  subscriptions w !! h = Some (listener, true) ->
  exists w',
    unsubscribe h w = Some (Normal VUndefined, w')
    /\ (0 <= indexOf listener (array_at w (nextListeners w)))%Z
    /\ registrations listener w' + 1 = registrations listener w
    /\ (forall other, JS.strict_eq listener other = false ->
                      registrations other w' = registrations other w)
    /\ listed w'.
Proof.
  intros Hok HL Hc.
  destruct (unsubscribe_active h listener w Hok Hc) as (w' & E & _ & Ha & Hs).
  assert (Hpos : 0 < occurrences listener (array_at w (nextListeners w))).
  { destruct HL as [F R]. specialize (R listener). unfold registrations in R.
    rewrite R. eapply active_positive; eauto. }
  exists w'. split; [exact E|]. split; [apply indexOf_found, Hpos|].
  split; [|split].
  - unfold registrations. rewrite Ha.
    pose proof (splice_indexOf_any listener listener _ Hpos) as E2.
    destruct HL as [F _].
    rewrite (strict_eq_function_refl listener (F h listener Hc)) in E2.
    exact E2.
  - intros other Hne. unfold registrations. rewrite Ha.
    pose proof (splice_indexOf_any other listener _ Hpos) as E2.
    rewrite Hne in E2. simpl in E2. lia.
  - eapply unsubscribe_listed; eauto.
Qed.

Lemma unsubscribe_removes_own_listener_witness :
  exists w',
    unsubscribe 0 Demo.busy_world = Some (Normal VUndefined, w')
    /\ (0 <= indexOf (VFun 3) (array_at Demo.busy_world (nextListeners Demo.busy_world)))%Z
    /\ registrations (VFun 3) w' + 1 = registrations (VFun 3) Demo.busy_world
    /\ (forall other, JS.strict_eq (VFun 3) other = false ->
                      registrations other w' = registrations other Demo.busy_world)
    /\ listed w'.
Proof.
  apply (unsubscribe_removes_own_listener 0 (VFun 3) Demo.busy_world).
  - unfold store_ok. simpl. lia.
  - split.
    + intros [|[|h']] l H; simpl in H; inversion H; reflexivity.
    + intros l. destruct l as [| | | | | | | |id| |]; try reflexivity.
      do 4 (destruct id as [|id]; try reflexivity).
  - reflexivity.
Defined.

(** X4.  While a reducer runs, nothing else does: code entered with the
    guard set changes neither the state nor the record of reducer and
    listener calls.  So when the reducer throws, [dispatch] throws the
    same value with the guard released, the state is the one before the
    call, and no listener has been called. *)
Theorem reducer_runs_alone production functions fuel :
  let call := invoke production functions fuel in
  (forall f args w r w',
      store_ok w ->
      isDispatching w = true ->
      call f args w = Some (r, w') ->
      currentState w' = currentState w /\ trace w' = trace w)
  /\ (forall action w e w1,
         store_ok w ->
         isDispatching w = false ->
         JS.isPlainObject action = true ->
         JS.is_undefined (prev_part action "type") = false ->
         call (currentReducer w) [currentState w; action]
              (set_trace (trace w ++ [EvReduce true (currentState w) action])
                         (set_isDispatching true w))
         = Some (Thrown e, w1) ->
         dispatch call fuel action w = Some (Thrown e, set_isDispatching false w1)
         /\ currentState (set_isDispatching false w1) = currentState w
         /\ isDispatching (set_isDispatching false w1) = false
         /\ trace (set_isDispatching false w1)
            = trace w ++ [EvReduce true (currentState w) action]).
Proof.
  intros call.
  pose proof (neat_invoke production functions fuel) as Hn.
  split.
  - intros f args w r w' Hok G H. apply (Hn _ _ _ _ _ Hok H). exact G.
  - intros action w e w1 Hok G Hplain Htype H.
    split.
    + destruct action as [| | | | | |aid [| |] props| | | |]; try discriminate Hplain.
      unfold prev_part in Htype. simpl in Htype.
      unfold dispatch, bind, lift, gets, try_finally, modify, log_event, ret.
      simpl. rewrite Htype, G. simpl.
      unfold call in H |- *. simpl in H. rewrite H. reflexivity.
    + match type of H with call _ _ ?wa = _ =>
        assert (Hoka : store_ok wa) by exact Hok;
        destruct (proj2 (Hn _ _ _ _ _ Hoka H) eq_refl) as [Es Et]
      end.
      simpl in *. auto.
Qed.

Lemma reducer_runs_alone_witness :
  let w := set_currentReducer (VFun 20) Demo.counter_world in
  let action := action_of_type 100 "X" in
  (exists r w',
      More.call (VFun 5) [VNum 0; action] (set_isDispatching true w) = Some (r, w')
      /\ currentState w' = currentState (set_isDispatching true w)
      /\ trace w' = trace (set_isDispatching true w))
  /\ exists e w1,
       dispatch More.call 10 action w = Some (Thrown e, set_isDispatching false w1)
       /\ currentState (set_isDispatching false w1) = currentState w
       /\ isDispatching (set_isDispatching false w1) = false
       /\ trace (set_isDispatching false w1)
          = trace w ++ [EvReduce true (currentState w) action].
Proof.
  intros w action. split.
  - eexists _, _. split; [vm_compute; reflexivity|].
    eapply (proj1 (reducer_runs_alone false More.functions 10) (VFun 5) [VNum 0; action]
              (set_isDispatching true w)).
    + unfold store_ok. simpl. lia.
    + reflexivity.
    + vm_compute. reflexivity.
  - eexists _, _.
    eapply (proj2 (reducer_runs_alone false More.functions 10) action w).
    + unfold store_ok. simpl. lia.
    + reflexivity.
    + reflexivity.
    + reflexivity.
    + vm_compute. reflexivity.
Defined.

(** ** A dispatch with a well-behaved reducer and listeners *)

Lemma invoke_pure production functions fuel id f state action w :
  (forall state action, JS.isPlainObject action = true ->
                        functions id [state; action] = Ret (f state action)) ->
  JS.isPlainObject action = true ->
  invoke production functions (S fuel) (VFun id) [state; action] w
  = Some (Normal (f state action), w).
Proof. intros Hpure Hplain. simpl. rewrite Hpure by exact Hplain. reflexivity. Qed.

Lemma set_trace_app t1 t2 w :
  set_trace (trace (set_trace t1 w) ++ t2) (set_trace t1 w) = set_trace (t1 ++ t2) w.
Proof. reflexivity. Qed.

Lemma notify_snapshot_at_once production functions fuel snapshot w :
  isDispatching w = false ->
  Forall (returns_at_once functions) snapshot ->
  notify_snapshot (invoke production functions (S fuel)) snapshot w
  = Some (Normal tt, set_trace (trace w ++ map (EvNotify false) snapshot) w).
Proof.
  revert w. induction snapshot as [|l rest IH]; intros w G Hall.
  - simpl. rewrite app_nil_r. destruct w; reflexivity.
  - inversion Hall as [|? ? (id & v & -> & Hbody) Hrest]; subst.
    cbn [notify_snapshot].
    unfold bind at 1, gets at 1. rewrite G.
    unfold bind at 1, log_event, modify at 1.
    unfold bind at 1. cbn [invoke]. rewrite Hbody. cbn [run]. unfold ret at 1.
    rewrite IH by (try exact Hrest; exact G).
    rewrite set_trace_app. rewrite <- app_assoc. reflexivity.
Qed.

Lemma dispatch_pure_reduces production functions fuel reducer f action w budget :
  pure_reducer functions reducer f ->
  isDispatching w = false ->
  currentReducer w = reducer ->
  JS.isPlainObject action = true ->
  JS.is_undefined (prev_part action "type") = false ->
  dispatch (invoke production functions (S fuel)) budget action w
  = (notify (invoke production functions (S fuel)) budget (nextListeners w) 0;;
     ret action) (reduced (f (currentState w) action) action w).
Proof.
  intros (id & -> & Hpure) G Hr Hplain Htype.
  destruct action as [| | | | | |aid [| |] props| | | |]; try discriminate Hplain.
  unfold prev_part in Htype. simpl in Htype.
  unfold dispatch. cbn [negb JS.isPlainObject].
  unfold bind at 1, lift at 1. cbn [JS.get_prop]. rewrite Htype.
  unfold bind at 1, gets at 1. rewrite G.
  unfold bind at 1, try_finally.
  unfold bind at 1, modify at 1. unfold bind at 1, gets at 1.
  unfold bind at 1, gets at 1. unfold bind at 1, gets at 1.
  unfold bind at 1, log_event, modify at 1. unfold bind at 1.
  cbn [currentReducer currentState isDispatching set_isDispatching set_trace].
  rewrite Hr.
  rewrite (invoke_pure production functions fuel id f _ _ _ Hpure Hplain).
  unfold modify at 1.
  unfold bind at 1, modify at 1. unfold bind at 1, gets at 1.
  reflexivity.
Qed.

Lemma dispatch_at_once production functions fuel reducer f action w budget :
  pure_reducer functions reducer f ->
  store_ok w ->
  isDispatching w = false ->
  currentReducer w = reducer ->
  JS.isPlainObject action = true ->
  JS.is_undefined (prev_part action "type") = false ->
  Forall (returns_at_once functions) (array_at w (nextListeners w)) ->
  length (array_at w (nextListeners w)) < budget ->
  exists w',
    dispatch (invoke production functions (S fuel)) budget action w
    = Some (Normal action, w')
    /\ currentState w' = f (currentState w) action
    /\ trace w'
       = trace w ++ EvReduce true (currentState w) action
                 :: map (EvNotify false) (array_at w (nextListeners w))
    /\ array_at w' (nextListeners w') = array_at w (nextListeners w)
    /\ isDispatching w' = false
    /\ currentReducer w' = reducer
    /\ nextObjectId w' = nextObjectId w
    /\ store_ok w'.
Proof.
  intros Hpure Hok G Hr Hplain Htype Hall Hlen.
  rewrite (dispatch_pure_reduces production functions fuel reducer f action w budget
             Hpure G Hr Hplain Htype).
  set (wn := reduced (f (currentState w) action) action w).
  assert (Harr : array_at wn (nextListeners w) = array_at w (nextListeners w))
    by reflexivity.
  pose proof (notify_complete (invoke production functions (S fuel))
                (safe_invoke production functions (S fuel)) budget (nextListeners w) 0 wn
                (Normal tt,
                 set_trace (trace wn ++ map (EvNotify false)
                                            (array_at wn (nextListeners w))) wn))
    as Hn.
  unfold bind. rewrite Hn.
  - unfold ret. eexists. split; [reflexivity|].
    rewrite Harr. subst wn. unfold reduced. simpl. rewrite <- app_assoc. simpl.
    repeat split; try reflexivity; try exact Hr; apply Hok.
  - destruct Hok as [H1 H2]. split; assumption.
  - reflexivity.
  - split; [apply Hok | intros _; reflexivity].
  - rewrite Harr. lia.
  - rewrite drop_0. apply notify_snapshot_at_once; [reflexivity|].
    rewrite Harr. exact Hall.
Qed.


(** X5.  A dispatch in a store whose reducer is a pure function and
    whose listeners all return at once: it returns the very action it
    was given, the state becomes the reducer's result, and after the
    reducer every listener of the list is called exactly once, in list
    order, with the guard clear. *)
Theorem dispatch_notifies_each_once production functions fuel reducer f action w budget :
  pure_reducer functions reducer f ->
  store_ok w ->
  isDispatching w = false ->
  currentReducer w = reducer ->
  JS.isPlainObject action = true ->
  JS.is_undefined (prev_part action "type") = false ->
  Forall (returns_at_once functions) (array_at w (nextListeners w)) ->
  length (array_at w (nextListeners w)) < budget ->
  exists w',
    dispatch (invoke production functions (S fuel)) budget action w
    = Some (Normal action, w')
    /\ currentState w' = f (currentState w) action
    /\ trace w'
       = trace w ++ EvReduce true (currentState w) action
                 :: map (EvNotify false) (array_at w (nextListeners w))
    /\ array_at w' (nextListeners w') = array_at w (nextListeners w)
    /\ isDispatching w' = false.
Proof.
  intros Hpure Hok G Hr Hplain Htype Hall Hlen.
  destruct (dispatch_at_once production functions fuel reducer f action w budget
              Hpure Hok G Hr Hplain Htype Hall Hlen)
    as (w' & E & Hs & Ht & Ha & Hg & _).
  exists w'. auto.
Qed.

Lemma dispatch_notifies_each_once_witness :
  exists w',
    dispatch (invoke false Demo.functions 1) 3 (action_of_type 100 "INC")
             More.listening_world
    = Some (Normal (action_of_type 100 "INC"), w')
    /\ currentState w' = VNum 1
    /\ trace w'
       = [EvReduce true VUndefined (action_of_type 0 ActionTypes_INIT);
          EvReduce true (VNum 0) (action_of_type 100 "INC");
          EvNotify false (VFun 2); EvNotify false (VFun 2)]
    /\ array_at w' (nextListeners w') = [VFun 2; VFun 2]
    /\ isDispatching w' = false.
Proof.
  apply (dispatch_notifies_each_once false Demo.functions 0 (VFun 0) Demo.counter_fn
           (action_of_type 100 "INC")
           More.listening_world 3).
  - apply counter_is_pure. reflexivity.
  - unfold store_ok. vm_compute. lia.
  - reflexivity.
  - reflexivity.
  - reflexivity.
  - reflexivity.
  - vm_compute. repeat constructor; exists 2, VUndefined; split; reflexivity.
  - vm_compute. lia.
Defined.

(** ** replaceReducer *)

(** X7.  [replaceReducer] with a pure reducer, in a store whose
    listeners return at once: the new reducer is installed and called
    with the state the old one left and a fresh INIT action, its result
    is the new state, and every listener is notified once. *)
Theorem replaceReducer_swaps production functions fuel nextReducer g w budget :
  pure_reducer functions nextReducer g ->
  store_ok w ->
  isDispatching w = false ->
  Forall (returns_at_once functions) (array_at w (nextListeners w)) ->
  length (array_at w (nextListeners w)) < budget ->
  let init := action_of_type (nextObjectId w) ActionTypes_INIT in
  exists w',
    replaceReducer (invoke production functions (S fuel)) budget nextReducer w
    = Some (Normal VUndefined, w')
    /\ currentReducer w' = nextReducer
    /\ currentState w' = g (currentState w) init
    /\ trace w'
       = trace w ++ EvReduce true (currentState w) init
                 :: map (EvNotify false) (array_at w (nextListeners w)).
Proof.
  intros Hpure Hok G Hall Hlen init.
  assert (Hfun : JS.is_function nextReducer = true).
  { destruct Hpure as (id & -> & _). reflexivity. }
  unfold replaceReducer. rewrite Hfun. cbn [negb].
  unfold bind at 1, modify at 1.
  unfold init_action, new_object, fresh_id.
  unfold bind at 1. unfold bind at 1. unfold ret at 1.
  cbn [nextObjectId set_currentReducer].
  match goal with |- context [(dispatch ?c ?b ?a;; ?k) ?w0] =>
    destruct (dispatch_at_once production functions fuel nextReducer g a w0 budget Hpure)
      as (w' & E & Hs & Ht & Ha & Hg & Hr & _)
  end; try reflexivity; try assumption.
  unfold bind at 1. unfold action_of_type in E. rewrite E.
  exists w'. split; [reflexivity|]. split; [exact Hr|]. split; [exact Hs | exact Ht].
Qed.

Lemma replaceReducer_swaps_witness :
  exists w',
    replaceReducer (invoke false Demo.functions 1) 3 (VFun 8) More.listening_world
    = Some (Normal VUndefined, w')
    /\ currentReducer w' = VFun 8
    /\ currentState w' = VNum 0
    /\ trace w'
       = [EvReduce true VUndefined (action_of_type 0 ActionTypes_INIT);
          EvReduce true (VNum 0) (action_of_type 1 ActionTypes_INIT);
          EvNotify false (VFun 2); EvNotify false (VFun 2)].
Proof.
  apply (replaceReducer_swaps false Demo.functions 0 (VFun 8) (fun state _ => state)
           More.listening_world 3).
  - exists 8. split; reflexivity.
  - unfold store_ok. simpl. lia.
  - reflexivity.
  - simpl. repeat constructor; exists 2, VUndefined; split; reflexivity.
  - simpl. lia.
Defined.

(** X8.  [replaceReducer] fails in two ways.  A value that is not a
    function is rejected and the store is left as it was.  Called while
    a reducer runs, it throws the error of [dispatch], but the new
    reducer has already been installed. *)
Theorem replaceReducer_fails invoke budget nextReducer w :
  (JS.is_function nextReducer = false ->
   replaceReducer invoke budget nextReducer w
   = Some (Thrown (new_error "Expected the nextReducer to be a function."), w))
  /\ (JS.is_function nextReducer = true ->
      isDispatching w = true ->
      exists w',
        replaceReducer invoke budget nextReducer w
        = Some (Thrown (new_error "Reducers may not dispatch actions."), w')
        /\ currentReducer w' = nextReducer
        /\ currentState w' = currentState w
        /\ isDispatching w' = true).
Proof.
  split.
  - intros H. unfold replaceReducer. rewrite H. reflexivity.
  - intros H G. unfold replaceReducer. rewrite H. cbn [negb].
    unfold init_action, new_object, fresh_id, dispatch.
    unfold bind, modify, ret, lift, gets.
    simpl. rewrite G. eexists. split; [reflexivity|]. simpl. auto.
Qed.

Lemma replaceReducer_fails_witness :
  replaceReducer Demo.call 10 (VNum 3) Demo.counter_world
  = Some (Thrown (new_error "Expected the nextReducer to be a function."),
          Demo.counter_world)
  /\ exists w',
       replaceReducer Demo.call 10 (VFun 8) (set_isDispatching true Demo.counter_world)
       = Some (Thrown (new_error "Reducers may not dispatch actions."), w')
       /\ currentReducer w' = VFun 8
       /\ currentState w' = currentState (set_isDispatching true Demo.counter_world)
       /\ isDispatching w' = true.
Proof.
  split.
  - apply (proj1 (replaceReducer_fails Demo.call 10 (VNum 3) Demo.counter_world)).
    reflexivity.
  - apply (proj2 (replaceReducer_fails Demo.call 10 (VFun 8)
                    (set_isDispatching true Demo.counter_world)));
      reflexivity.
Defined.

(** ** The arguments of createStore *)

Lemma function_not_undefined v :
  JS.is_function v = true -> JS.is_undefined v = false.
Proof. destruct v; simpl; intros H; try reflexivity; discriminate. Qed.

(** X1.  [createStore] hands over to an enhancer without touching the
    store: a function in second place with nothing in third is taken
    as the enhancer, and a callable enhancer receives the reducer and
    the preloaded state whatever the reducer is.  An enhancer that is
    neither [undefined] nor a function, and a reducer that is not a
    function, are rejected, the enhancer first.  Only a call without
    enhancer and with a callable reducer builds the store. *)
Theorem createStore_arguments invoke budget reducer preloadedState enhancer w :
  (JS.is_function preloadedState = true ->
   JS.is_undefined enhancer = true ->
   createStore invoke budget reducer preloadedState enhancer w
   = Some (Normal (Enhanced preloadedState reducer VUndefined), w))
  /\ (JS.is_function enhancer = true ->
      createStore invoke budget reducer preloadedState enhancer w
      = Some (Normal (Enhanced enhancer reducer preloadedState), w))
  /\ (JS.is_function enhancer = false ->
      JS.is_undefined enhancer = false ->
      createStore invoke budget reducer preloadedState enhancer w
      = Some (Thrown (new_error "Expected the enhancer to be a function."), w))
  /\ (JS.is_undefined enhancer = true ->
      JS.is_function preloadedState = false ->
      JS.is_function reducer = false ->
      createStore invoke budget reducer preloadedState enhancer w
      = Some (Thrown (new_error "Expected the reducer to be a function."), w))
  /\ (forall w',
         createStore invoke budget reducer preloadedState enhancer w
         = Some (Normal StoreObject, w') ->
         JS.is_function reducer = true
         /\ JS.is_undefined enhancer = true
         /\ JS.is_function preloadedState = false).
Proof.
  unfold createStore. split; [|split; [|split; [|split]]].
  - intros HP HE. rewrite HP, HE. simpl.
    rewrite (function_not_undefined _ HP), HP. reflexivity.
  - intros HE.
    pose proof (function_not_undefined _ HE) as HU.
    rewrite HU, andb_false_r. simpl. rewrite HU, HE. reflexivity.
  - intros HE HU. rewrite HU, andb_false_r. simpl. rewrite HU, HE. reflexivity.
  - intros HU HP HR. rewrite HU, HP. simpl. rewrite HU, HR. reflexivity.
  - intros w' H.
    destruct (JS.is_function preloadedState) eqn:HP,
             (JS.is_undefined enhancer) eqn:HU; simpl in H.
    + rewrite (function_not_undefined _ HP), HP in H. discriminate.
    + rewrite HU in H. simpl in H. destruct (JS.is_function enhancer); discriminate.
    + rewrite HU in H. simpl in H.
      destruct (JS.is_function reducer); [auto | discriminate].
    + rewrite HU in H. simpl in H. destruct (JS.is_function enhancer); discriminate.
Qed.

Lemma createStore_arguments_witness :
  createStore Demo.call 10 (VNum 1) (VFun 9) VUndefined empty_world
  = Some (Normal (Enhanced (VFun 9) (VNum 1) VUndefined), empty_world)
  /\ createStore Demo.call 10 (VNum 1) (VNum 2) (VFun 9) empty_world
     = Some (Normal (Enhanced (VFun 9) (VNum 1) (VNum 2)), empty_world)
  /\ createStore Demo.call 10 (VFun 0) (VNum 2) (VNum 3) empty_world
     = Some (Thrown (new_error "Expected the enhancer to be a function."), empty_world)
  /\ createStore Demo.call 10 (VNum 1) (VNum 2) VUndefined empty_world
     = Some (Thrown (new_error "Expected the reducer to be a function."), empty_world)
  /\ (JS.is_function (VFun 0) = true
      /\ JS.is_undefined VUndefined = true
      /\ JS.is_function (VNum 2) = false).
Proof.
  split; [|split; [|split; [|split]]].
  - apply (createStore_arguments Demo.call 10 (VNum 1) (VFun 9) VUndefined empty_world);
      reflexivity.
  - apply (createStore_arguments Demo.call 10 (VNum 1) (VNum 2) (VFun 9) empty_world);
      reflexivity.
  - apply (createStore_arguments Demo.call 10 (VFun 0) (VNum 2) (VNum 3) empty_world);
      reflexivity.
  - apply (createStore_arguments Demo.call 10 (VNum 1) (VNum 2) VUndefined empty_world);
      reflexivity.
  - eapply (createStore_arguments Demo.call 10 (VFun 0) (VNum 2) VUndefined empty_world).
    vm_compute. reflexivity.
Defined.

(** ** compose, for any number of functions *)

Lemma bind_ret_r {A : Type} (m : M A) w : bind m ret w = m w.
Proof. unfold bind, ret. destruct (m w) as [[[a|e] w']|]; reflexivity. Qed.

Lemma bind_assoc {A B C : Type} (m : M A) (k : A -> M B) (h : B -> M C) w :
  bind (bind m k) h w = bind m (fun a => bind (k a) h) w.
Proof. unfold bind. destruct (m w) as [[[a|e] w']|]; reflexivity. Qed.

Lemma bind_ext {A B : Type} (m : M A) (k k' : A -> M B) w :
  (forall a w', k a w' = k' a w') -> bind m k w = bind m k' w.
Proof. intros H. unfold bind. destruct (m w) as [[[a|e] w']|]; auto. Qed.

Lemma bind_cong {A B : Type} (m m' : M A) (k k' : A -> M B) w :
  m w = m' w -> (forall a w', k a w' = k' a w') -> bind m k w = bind m' k' w.
Proof. intros Hm Hk. unfold bind. rewrite Hm. destruct (m' w) as [[[a|e] w']|]; auto. Qed.

Section Compose_facts.

Variable invoke : value -> list value -> M value.
Variable budget : nat.

Lemma nested_calls_app l1 l2 x w :
  nested_calls (run invoke budget) (l1 ++ l2) x w
  = (let* y := nested_calls (run invoke budget) l2 x in
     nested_calls (run invoke budget) l1 y) w.
Proof.
  revert w. induction l1 as [|f l1 IH]; intros w.
  - simpl. symmetry. apply bind_ret_r.
  - simpl. rewrite <- bind_assoc. unfold bind at 1. rewrite IH. reflexivity.
Qed.

Lemma fold_step_calls rest acc x w :
  run invoke budget (fold_left compose_step rest acc [x]) w
  = nested_calls (run invoke budget) (acc :: rest) x w.
Proof.
  revert x w. induction rest as [|h rest IH] using rev_ind; intros x w.
  - reflexivity.
  - rewrite fold_left_app. simpl fold_left. unfold compose_step at 1.
    rewrite run_seq.
    change (acc :: rest ++ [h]) with ((acc :: rest) ++ [h]).
    rewrite (nested_calls_app (acc :: rest) [h] x w).
    transitivity ((let* y := run invoke budget (h [x]) in
                   nested_calls (run invoke budget) (acc :: rest) y) w);
      [|reflexivity].
    apply bind_ext. intros y w'. apply IH.
Qed.

Lemma compose_last funcs g args w :
  run invoke budget (compose (funcs ++ [g]) args) w
  = (let* y := run invoke budget (g args) in
     nested_calls (run invoke budget) funcs y) w.
Proof.
  destruct funcs as [|f rest].
  - simpl. symmetry. apply bind_ret_r.
  - assert (E : compose ((f :: rest) ++ [g])
                = compose_step (fold_left compose_step rest f) g).
    { unfold compose. simpl app. destruct (rest ++ [g]) eqn:El.
      - destruct rest; discriminate.
      - rewrite <- El. rewrite fold_left_app. reflexivity. }
    rewrite E. unfold compose_step at 1. rewrite run_seq.
    apply bind_ext. intros y w'. apply fold_step_calls.
Qed.

End Compose_facts.

(** X12.  [compose] of any number of functions nests them from right to
    left: the last function receives all the arguments, each function
    before it receives the result of the one after it, and the result
    of the first is the result of the composite.  A thrown value ends
    the run at once; [compose()] returns its first argument. *)
Theorem compose_nests invoke budget funcs g args w :
  run invoke budget (compose (funcs ++ [g]) args) w
  = (let* y := run invoke budget (g args) in
     nested_calls (run invoke budget) funcs y) w
  /\ run invoke budget (compose [] args) w = Some (Normal (arg 0 args), w).
Proof.
  split; [apply compose_last | reflexivity].
Qed.

(** X13.  [compose] is associative in what it does: composing the
    composites of two non-empty lists of functions runs like composing
    the two lists joined. *)
Theorem compose_splits invoke budget left right args w :
  left <> [] -> right <> [] ->
  run invoke budget (compose (left ++ right) args) w
  = run invoke budget (compose [compose left; compose right] args) w.
Proof.
  intros Hl Hr.
  destruct (exists_last Hl) as (l' & f & ->).
  destruct (exists_last Hr) as (r' & g & ->).
  change (compose [compose (l' ++ [f]); compose (r' ++ [g])] args)
    with (seq (compose (r' ++ [g]) args) (fun x => compose (l' ++ [f]) [x])).
  rewrite run_seq.
  replace ((l' ++ [f]) ++ r' ++ [g]) with (((l' ++ [f]) ++ r') ++ [g])
    by (rewrite <- !app_assoc; reflexivity).
  rewrite compose_last.
  transitivity
    ((let* x := (let* y := run invoke budget (g args) in
                 nested_calls (run invoke budget) r' y) in
      let* z := run invoke budget (f [x]) in
      nested_calls (run invoke budget) l' z) w).
  - rewrite bind_assoc. apply bind_ext. intros y w'.
    rewrite nested_calls_app. apply bind_ext. intros z w''.
    rewrite nested_calls_app. reflexivity.
  - apply bind_cong.
    + symmetry. apply compose_last.
    + intros x w'. symmetry. apply compose_last.
Qed.

Lemma compose_splits_witness :
  run Demo.call 10 (compose ([Demo.silent_reducer; Demo.counter] ++ [Demo.lenient_reducer])
                            [VNum 1; action_of_type 0 "X"]) empty_world
  = run Demo.call 10 (compose [compose [Demo.silent_reducer; Demo.counter];
                               compose [Demo.lenient_reducer]]
                              [VNum 1; action_of_type 0 "X"]) empty_world.
Proof.
  apply (compose_splits Demo.call 10 [Demo.silent_reducer; Demo.counter]
           [Demo.lenient_reducer]); discriminate.
Defined.

(** ** More on composed reducers *)

Lemma defined_differs v : JS.is_undefined v = false -> JS.strict_eq v VUndefined = false.
Proof. destruct v; simpl; intros H; try reflexivity; discriminate. Qed.

(** X14.  Called with an undefined state, a composed reducer returns a
    new object that holds, under every key of [finalReducers] and in
    their order, what the reducer of that key returns for an undefined
    state and the action.  The statement is for keys that name no
    member of [Object.prototype]: under such a name the empty object
    that stands in for the state has an inherited member, which the
    reducer would receive in place of [undefined]. *)
Theorem combination_populates production invoke cid finalReducers err action w :
  NoDup (map fst finalReducers) ->
  JS.truthy err = false ->
  (forall key, In key (map fst finalReducers) -> inherited key = false) ->
  (forall key r, In (key, r) finalReducers ->
     forall wa, exists v wb,
       invoke r [VUndefined; action] wa = Some (Normal v, wb)
       /\ JS.is_undefined v = false) ->
  exists id parts w',
    combination production invoke cid finalReducers err VUndefined action w
    = Some (Normal (VObj id KPlain parts), w')
    /\ nextObjectId w <= id
    /\ map fst parts = map fst finalReducers
    /\ Forall (fun kv =>
                 JS.is_undefined (snd kv) = false
                 /\ exists w1 w2,
                     invoke (default VUndefined (JS.lookup_prop (fst kv) finalReducers))
                            [VUndefined; action] w1
                     = Some (Normal (snd kv), w2)) parts.
Proof.
  intros Hnd Herr _ Htotal.
  destruct (combination_unfold production invoke cid finalReducers err VUndefined action w
              Herr) as (w0 & E).
  cbn [JS.is_undefined JS.typeof String.eqb Ascii.eqb Bool.eqb] in E.
  set (state' := VObj (nextObjectId w) KPlain []) in E.
  destruct (combination_each_total invoke finalReducers state' action
              (map fst finalReducers)) with (hasChanged := false)
              (nextState := @nil (string * value)) (w := w0)
    as (hc & ns & w' & Eeach).
  { intros key _. eexists. reflexivity. }
  { intros key w1 Hin.
    destruct (In_keys_lookup key finalReducers Hnd Hin) as (r & Hr & ->).
    apply (Htotal key r Hr). }
  pose proof (combination_each_inv invoke _ _ _ _ _ _ _ _ _ _ Eeach)
    as (parts & Hkeys & Hns & Hhc & Hall).
  rewrite fold_assign_fresh in Hns by (simpl; rewrite Hkeys; exact Hnd).
  simpl in Hns. subst ns.
  rewrite E. unfold bind. rewrite Eeach. unfold ret. cbn [fst snd].
  assert (Hparts : Forall (fun kv =>
                 JS.is_undefined (snd kv) = false
                 /\ exists w1 w2,
                     invoke (default VUndefined (JS.lookup_prop (fst kv) finalReducers))
                            [VUndefined; action] w1
                     = Some (Normal (snd kv), w2)) parts).
  { eapply List.Forall_impl; [|exact Hall]. intros kv [Hd Hc]. split; [exact Hd | exact Hc]. }
  destruct parts as [|kv parts].
  - exists (nextObjectId w), [], w'. subst hc. simpl.
    repeat split; auto.
  - exists (S (nextObjectId w)), (kv :: parts), w'.
    assert (Hch : hc = true).
    { subst hc. simpl. inversion Hall as [|? ? [Hd _] _]; subst.
      unfold part_changed. cbn [prev_part state' JS.get_prop JS.lookup_prop default].
      unfold prev_part. simpl. rewrite (defined_differs _ Hd). reflexivity. }
    rewrite Hch. repeat split; auto.
Qed.

Lemma combination_populates_witness :
  exists id parts w',
    combination false Demo.call 0 [("count", VFun 0)] VUndefined VUndefined
                (action_of_type 8 "INC") empty_world
    = Some (Normal (VObj id KPlain parts), w')
    /\ nextObjectId empty_world <= id
    /\ map fst parts = map fst [("count", VFun 0)]
    /\ Forall (fun kv =>
                 JS.is_undefined (snd kv) = false
                 /\ exists w1 w2,
                     Demo.call (default VUndefined
                                  (JS.lookup_prop (fst kv) [("count", VFun 0)]))
                               [VUndefined; action_of_type 8 "INC"] w1
                     = Some (Normal (snd kv), w2)) parts.
Proof.
  apply (combination_populates false Demo.call 0 [("count", VFun 0)] VUndefined
           (action_of_type 8 "INC") empty_world).
  - distinct_keys.
  - reflexivity.
  - intros key [<- | []]. reflexivity.
  - intros key r [E | []] wa. inversion E; subst.
    eexists _, _. split; reflexivity.
Defined.

Section Undefined_part.

Variable invoke : value -> list value -> M value.

Lemma combination_each_stops finalReducers state action before key after :
  (forall k, exists prev, JS.get_prop state k = Normal prev) ->
  (forall k w1, In k before ->
     exists v w2,
       invoke (default VUndefined (JS.lookup_prop k finalReducers))
              [prev_part state k; action] w1 = Some (Normal v, w2)
       /\ JS.is_undefined v = false) ->
  (forall w1, exists w2,
       invoke (default VUndefined (JS.lookup_prop key finalReducers))
              [prev_part state key; action] w1 = Some (Normal VUndefined, w2)) ->
  forall hasChanged nextState w,
  exists w',
    combination_each invoke finalReducers state action (before ++ key :: after)
                     hasChanged nextState w
    = Some (Thrown (new_error (getUndefinedStateErrorMessage key action)), w').
Proof.
  intros Hread Htot Hbad.
  induction before as [|k rest IH]; intros hasChanged nextState w; simpl.
  - destruct (Hread key) as [prev Hp].
    unfold bind at 1, lift at 1. rewrite Hp.
    destruct (Hbad w) as (w2 & E).
    unfold prev_part in E. rewrite Hp in E.
    unfold bind at 1. rewrite E. simpl. eexists. reflexivity.
  - destruct (Hread k) as [prev Hp].
    unfold bind at 1, lift at 1. rewrite Hp.
    destruct (Htot k w) as (v & w2 & E & Hu); [left; reflexivity|].
    unfold prev_part in E. rewrite Hp in E.
    unfold bind at 1. rewrite E, Hu.
    apply IH. intros k' w1 Hk. apply Htot. right. exact Hk.
Qed.

End Undefined_part.

(** X15.  When the reducer of some key returns [undefined], and those of
    the keys before it do not, the composed reducer throws an error
    that names this key and the type of the action, or [an action]
    when the action has no type.  The statement is for a state that is
    an object literal or [undefined], for keys that name no member of
    [Object.prototype], and for an action whose type is a primitive
    (a number below [1e21] in size), which [toString()] prints as
    [Messages.to_string] does. *)
Theorem combination_undefined_part
        production invoke cid finalReducers err state action before key r after w :
  NoDup (map fst finalReducers) ->
  finalReducers = before ++ (key, r) :: after ->
  JS.truthy err = false ->
  let state' := if JS.is_undefined state then VObj (nextObjectId w) KPlain [] else state in
  JS.isPlainObject state' = true ->
  (forall k, In k (map fst finalReducers) -> inherited k = false) ->
  printable (action_and_type action) = true ->
  (forall k r', In (k, r') before ->
     forall wa, exists v wb,
       invoke r' [prev_part state' k; action] wa = Some (Normal v, wb)
       /\ JS.is_undefined v = false) ->
  (forall wa, exists wb,
       invoke r [prev_part state' key; action] wa = Some (Normal VUndefined, wb)) ->
  (exists w',
      combination production invoke cid finalReducers err state action w
      = Some (Thrown (new_error (getUndefinedStateErrorMessage key action)), w'))
  /\ (forall id type,
         action = action_of_type id type -> type <> EmptyString ->
         exists rest,
           getUndefinedStateErrorMessage key action
           = ("Given action " ++ (dq ++ type ++ dq) ++ ", reducer " ++ dq ++ key ++ dq
              ++ " returned undefined. " ++ rest)%string)
  /\ (JS.get_prop action "type" = Normal VUndefined ->
      exists rest,
        getUndefinedStateErrorMessage key action
        = ("Given action an action, reducer " ++ dq ++ key ++ dq
           ++ " returned undefined. " ++ rest)%string).
Proof.
  intros Hnd Hfr Herr state' Hplain _ _ Hbefore Hbad.
  assert (Hnull : state <> VNull).
  { intros E. subst state'. rewrite E in Hplain. discriminate Hplain. }
  split; [|split].
  - destruct (combination_unfold production invoke cid finalReducers err state action w
                Herr) as (w0 & E).
    fold state' in E. rewrite E.
    assert (Hread : forall k, exists prev, JS.get_prop state' k = Normal prev).
    { intros k. exists (prev_part state' k). apply get_prop_readable.
      - subst state'. destruct (JS.is_undefined state) eqn:Hu; [discriminate|].
        intros ->. discriminate.
      - subst state'. destruct (JS.is_undefined state); [discriminate | exact Hnull]. }
    assert (Hkeys : map fst finalReducers = map fst before ++ key :: map fst after).
    { rewrite Hfr, map_app. reflexivity. }
    destruct (combination_each_stops invoke finalReducers state' action
                (map fst before) key (map fst after) Hread) with
      (hasChanged := false) (nextState := @nil (string * value)) (w := w0)
      as (w' & Estop).
    + intros k w1 Hk. apply in_map_iff in Hk. destruct Hk as ([k0 r'] & <- & Hin).
      cbn [fst].
      rewrite (lookup_prop_In k0 r' finalReducers Hnd)
        by (rewrite Hfr; apply in_or_app; left; exact Hin).
      apply (Hbefore k0 r' Hin).
    + intros w1.
      rewrite (lookup_prop_In key r finalReducers Hnd)
        by (rewrite Hfr; apply in_or_app; right; left; reflexivity).
      apply Hbad.
    + exists w'. unfold bind. rewrite Hkeys, Estop. reflexivity.
  - intros id type -> Htype.
    unfold getUndefinedStateErrorMessage, action_and_type, action_of_type. simpl.
    destruct (String.eqb type EmptyString) eqn:Et.
    + apply String.eqb_eq in Et. contradiction.
    + simpl. eexists. reflexivity.
  - intros Hno.
    unfold getUndefinedStateErrorMessage, action_and_type. rewrite Hno.
    destruct (JS.truthy action) eqn:Ht; simpl; rewrite ?Ht; eexists; reflexivity.
Qed.

Lemma combination_undefined_part_witness :
  let finalReducers := [("count", VFun 0); ("silent", VFun 8)] in
  let state := VObj 7 KPlain [("count", VNum 5)] in
  (exists w',
      combination false Demo.call 0 finalReducers VUndefined state
                  (action_of_type 8 "INC") empty_world
      = Some (Thrown (new_error (getUndefinedStateErrorMessage "silent"
                                   (action_of_type 8 "INC"))), w'))
  /\ (exists rest,
         getUndefinedStateErrorMessage "silent" (action_of_type 8 "INC")
         = ("Given action " ++ (dq ++ "INC" ++ dq) ++ ", reducer " ++ dq ++ "silent" ++ dq
            ++ " returned undefined. " ++ rest)%string)
  /\ (exists rest,
         getUndefinedStateErrorMessage "silent" (VObj 9 KPlain [])
         = ("Given action an action, reducer " ++ dq ++ "silent" ++ dq
            ++ " returned undefined. " ++ rest)%string).
Proof.
  intros finalReducers state.
  destruct (combination_undefined_part false Demo.call 0 finalReducers VUndefined state
              (action_of_type 8 "INC") [("count", VFun 0)] "silent" (VFun 8) []
              empty_world) as (H1 & H2 & _).
  - distinct_keys.
  - reflexivity.
  - reflexivity.
  - reflexivity.
  - intros k [<- | [<- | []]]; reflexivity.
  - reflexivity.
  - intros k r' [E | []] wa. inversion E; subst. eexists _, _. split; reflexivity.
  - intros wa. eexists. reflexivity.
  - destruct (combination_undefined_part false Demo.call 0 finalReducers VUndefined state
                (VObj 9 KPlain []) [("count", VFun 0)] "silent" (VFun 8) []
                empty_world) as (_ & _ & H3).
    + distinct_keys.
    + reflexivity.
    + reflexivity.
    + reflexivity.
    + intros k [<- | [<- | []]]; reflexivity.
    + reflexivity.
    + intros k r' [E | []] wa. inversion E; subst. eexists _, _. split; reflexivity.
    + intros wa. eexists. reflexivity.
    + split; [exact H1|].
      split; [apply (H2 8 "INC" eq_refl); discriminate | apply H3; reflexivity].
Defined.



(** ** Warnings about unexpected keys *)

Lemma in_cache_app key c1 c2 :
  in_cache key (c1 ++ c2) = in_cache key c1 || existsb (String.eqb key) c2.
Proof.
  unfold in_cache. rewrite existsb_app.
  destruct (existsb (String.eqb key) c1), (existsb (String.eqb key) c2), (inherited key);
    reflexivity.
Qed.

Lemma existsb_eqb_In key (l : list string) :
  In key l -> existsb (String.eqb key) l = true.
Proof.
  intros H. apply existsb_exists. exists key.
  split; [exact H | apply String.eqb_refl].
Qed.

Lemma nothing_left_unexpected reducers cache (keys : list string) :
  let unexpected :=
    List.filter (fun key => negb (has_own key reducers) && negb (in_cache key cache)) keys in
  List.filter (fun key => negb (has_own key reducers)
                          && negb (in_cache key (cache ++ unexpected))) keys = [].
Proof.
  intros unexpected.
  assert (H : forall key, In key keys ->
            negb (has_own key reducers) && negb (in_cache key (cache ++ unexpected)) = false).
  { intros key Hin. rewrite in_cache_app.
    destruct (has_own key reducers) eqn:Ho; [reflexivity|].
    destruct (in_cache key cache) eqn:Hc; [reflexivity|].
    rewrite (existsb_eqb_In key unexpected); [reflexivity|].
    apply filter_In. split; [exact Hin|]. rewrite Ho, Hc. reflexivity. }
  induction keys as [|k keys IH]; [reflexivity|].
  simpl. rewrite (H k) by (left; reflexivity).
  clear IH. revert H. generalize (cache ++ unexpected). intros c H.
  induction keys as [|k' keys IH]; [reflexivity|].
  simpl. rewrite (H k') by (right; left; reflexivity).
  apply IH. intros key [->|Hin]; apply H; [left | right; right]; auto.
Qed.

(** X17.  Each unexpected key of a state is reported once.  For a
    plain-object state and reducers none of which is named
    [hasOwnProperty], a call returns a message exactly when the state
    has a key that is not a reducer key, is not marked in the cache of
    the composed reducer and names no member the cache object inherits;
    the message lists these keys, and the call marks them.  A further
    call on that state, for any action, returns no message and leaves
    the cache as it is.  So a state key such as [toString] is never
    reported. *)
Theorem unexpected_keys_reported_once inputState reducers action action' cacheId w :
  JS.isPlainObject inputState = true ->
  reducers <> [] ->
  has_own "hasOwnProperty" reducers = false ->
  cacheId < length (unexpectedKeyCaches w) ->
  let cache := default [] (unexpectedKeyCaches w !! cacheId) in
  let unexpected :=
    List.filter (fun key => negb (has_own key reducers) && negb (in_cache key cache))
                (JS.keys inputState) in
  exists message w1 w2,
    getUnexpectedStateShapeWarningMessage inputState reducers action cacheId w
    = Some (Normal message, w1)
    /\ (message = None <-> unexpected = [])
    /\ (unexpected <> [] ->
        exists rest,
          message
          = Some ("Unexpected " ++ (if Nat.ltb 1 (length unexpected) then "keys" else "key")
                  ++ " " ++ Messages.quoted_keys unexpected ++ rest)%string)
    /\ (forall key, In key unexpected <->
                    (In key (JS.keys inputState)
                     /\ has_own key reducers = false
                     /\ ~ In key cache
                     /\ inherited key = false))
    /\ unexpectedKeyCaches w1 !! cacheId = Some (cache ++ unexpected)
    /\ getUnexpectedStateShapeWarningMessage inputState reducers action' cacheId w1
       = Some (Normal None, w2)
    /\ unexpectedKeyCaches w2 = unexpectedKeyCaches w1.
Proof.
  intros Hplain Hne _ Hcid cache unexpected.
  assert (Hlen : Nat.eqb (length (map fst reducers)) 0 = false).
  { destruct reducers; [contradiction | reflexivity]. }
  assert (Hmembers : forall key, In key unexpected <->
                       (In key (JS.keys inputState)
                        /\ has_own key reducers = false
                        /\ ~ In key cache
                        /\ inherited key = false)).
  { intros key. unfold unexpected. rewrite filter_In. unfold in_cache.
    split.
    - intros (Hin & Hf). apply andb_prop in Hf. destruct Hf as [Ho Hc].
      apply negb_true_iff in Ho, Hc. apply orb_false_elim in Hc. destruct Hc as [Hc Hi].
      repeat split; try assumption.
      intros Hk. rewrite (existsb_eqb_In key cache Hk) in Hc. discriminate.
    - intros (Hin & Ho & Hc & Hi). split; [exact Hin|].
      rewrite Ho, Hi. simpl. rewrite orb_false_r. apply negb_true_iff.
      apply not_true_is_false. intros Hex. apply existsb_exists in Hex.
      destruct Hex as (k & Hk & E). apply String.eqb_eq in E. subst k. contradiction. }
  unfold getUnexpectedStateShapeWarningMessage.
  rewrite Hlen, Hplain. cbn [negb].
  unfold bind at 1, gets at 1. unfold bind at 1, modify at 1.
  fold cache. fold unexpected.
  set (w1 := set_unexpectedKeyCaches _ w).
  assert (Hw1 : unexpectedKeyCaches w1 !! cacheId = Some (cache ++ unexpected)).
  { subst w1. simpl. apply list_lookup_insert_eq. exact Hcid. }
  assert (Hsecond : exists w2,
             (let* cache0 := gets (fun w => default [] (unexpectedKeyCaches w !! cacheId)) in
              let unexpectedKeys :=
                List.filter (fun key => negb (has_own key reducers)
                                        && negb (in_cache key cache0))
                            (JS.keys inputState) in
              modify (fun w => set_unexpectedKeyCaches
                                 (<[cacheId := cache0 ++ unexpectedKeys]>
                                    (unexpectedKeyCaches w)) w);;
              if Nat.ltb 0 (length unexpectedKeys) then
                ret (Some ("Unexpected "
                           ++ (if Nat.ltb 1 (length unexpectedKeys) then "keys" else "key")
                           ++ " " ++ Messages.quoted_keys unexpectedKeys
                           ++ " found in "
                           ++ (if JS.truthy action'
                                  && JS.strict_eq (action_and_type action')
                                                  (VStr ActionTypes_INIT)
                               then "preloadedState argument passed to createStore"
                               else "previous state received by the reducer") ++ ". "
                           ++ "Expected to find one of the known reducer keys instead: "
                           ++ Messages.quoted_keys (map fst reducers)
                           ++ ". Unexpected keys will be ignored.")%string)
              else ret None) w1
             = Some (Normal None, w2)
             /\ unexpectedKeyCaches w2 = unexpectedKeyCaches w1).
  { unfold bind at 1, gets at 1. rewrite Hw1.
    change (default [] (Some (cache ++ unexpected))) with (cache ++ unexpected).
    pose proof (nothing_left_unexpected reducers cache (JS.keys inputState)) as Hnl.
    cbv zeta in Hnl. fold unexpected in Hnl. rewrite Hnl. rewrite app_nil_r.
    unfold bind, modify, ret. simpl.
    eexists. split; [reflexivity|]. simpl.
    apply list_insert_id. exact Hw1. }
  destruct Hsecond as (w2 & E2 & Hc2).
  clearbody unexpected.
  destruct unexpected as [|k rest].
  - exists None, w1, w2. simpl.
    split; [reflexivity|]. split; [tauto|]. split; [intros H; contradiction|].
    split; [exact Hmembers|]. split; [exact Hw1|]. split; assumption.
  - eexists (Some _), w1, w2. simpl.
    split; [reflexivity|]. split; [split; discriminate|].
    split; [intros _; eexists; reflexivity|].
    split; [exact Hmembers|]. split; [exact Hw1|]. split; assumption.
Qed.

Lemma unexpected_keys_reported_once_witness :
  let w := set_unexpectedKeyCaches [[]] empty_world in
  let state := VObj 7 KPlain [("count", VNum 5); ("extra", VNum 1); ("toString", VNum 2)] in
  exists message w1 w2,
    getUnexpectedStateShapeWarningMessage state [("count", VFun 0)]
                                          (action_of_type 8 "X") 0 w
    = Some (Normal message, w1)
    /\ (message = None <-> ["extra"] = [])
    /\ (["extra"] <> [] ->
        exists rest,
          message
          = Some ("Unexpected key " ++ Messages.quoted_keys ["extra"] ++ rest)%string)
    /\ (forall key, In key ["extra"] <->
                    (In key ["count"; "extra"; "toString"]
                     /\ has_own key [("count", VFun 0)] = false
                     /\ ~ In key []
                     /\ inherited key = false))
    /\ unexpectedKeyCaches w1 !! 0 = Some ["extra"]
    /\ getUnexpectedStateShapeWarningMessage state [("count", VFun 0)]
                                             (action_of_type 9 "Y") 0 w1
       = Some (Normal None, w2)
    /\ unexpectedKeyCaches w2 = unexpectedKeyCaches w1.
Proof.
  intros w state.
  apply (unexpected_keys_reported_once state [("count", VFun 0)]
           (action_of_type 8 "X") (action_of_type 9 "Y") 0 w).
  - reflexivity.
  - discriminate.
  - reflexivity.
  - simpl. lia.
Defined.

(** ** Production builds do not warn *)

Lemma silent_ret {A : Type} (a : A) : silent (ret a).
Proof. intros w r w' H. inversion H; reflexivity. Qed.

Lemma silent_throw {A : Type} (e : value) : silent (@throw A e).
Proof. intros w r w' H. inversion H; reflexivity. Qed.

Lemma silent_lift {A : Type} (x : result A) : silent (lift x).
Proof. intros w r w' H. inversion H; reflexivity. Qed.

Lemma silent_gets {A : Type} (f : world -> A) : silent (gets f).
Proof. intros w r w' H. inversion H; reflexivity. Qed.

Lemma silent_modify (f : world -> world) :
  (forall w, console (f w) = console w) -> silent (modify f).
Proof. intros Hf w r w' H. inversion H; subst. apply Hf. Qed.

Lemma silent_bind {A B : Type} (m : M A) (k : A -> M B) :
  silent m -> (forall a, silent (k a)) -> silent (bind m k).
Proof.
  intros Hm Hk w r w' H.
  apply bind_inv in H. destruct H as [(a & w1 & E1 & E2) | (e & E & _)].
  - rewrite (Hk a _ _ _ E2). apply (Hm _ _ _ E1).
  - apply (Hm _ _ _ E).
Qed.

Lemma silent_attempt {A : Type} (m : M A) : silent m -> silent (attempt m).
Proof.
  intros Hm w r w' H. unfold attempt in H.
  destruct (m w) as [[r0 w0]|] eqn:E; [|discriminate].
  inversion H; subst. apply (Hm _ _ _ E).
Qed.

Lemma silent_try_finally {A : Type} (m : M A) fin :
  silent m -> (forall w, console (fin w) = console w) -> silent (try_finally m fin).
Proof.
  intros Hm Hf w r w' H. unfold try_finally in H.
  destruct (m w) as [[r0 w0]|] eqn:E; [|discriminate].
  inversion H; subst. rewrite Hf. apply (Hm _ _ _ E).
Qed.

Lemma silent_new_object k props : silent (new_object k props).
Proof.
  apply silent_bind; [|intros; apply silent_ret].
  intros w r w' H. inversion H; reflexivity.
Qed.

Lemma silent_random_tail : silent random_tail.
Proof.
  intros w r w' H. unfold random_tail in H.
  destruct (entropy w); inversion H; reflexivity.
Qed.

Lemma silent_ensureCanMutateNextListeners : silent ensureCanMutateNextListeners.
Proof.
  unfold ensureCanMutateNextListeners.
  apply silent_bind; [apply silent_gets|]. intros next.
  apply silent_bind; [apply silent_gets|]. intros cur.
  destruct (Nat.eqb next cur); [|apply silent_ret].
  apply silent_bind; [|intros; apply silent_modify; reflexivity].
  intros w r w' H. inversion H; reflexivity.
Qed.

Lemma silent_subscribe listener : silent (subscribe listener).
Proof.
  unfold subscribe. destruct (negb _); [apply silent_throw|].
  apply silent_bind; [apply silent_gets|]. intros h.
  apply silent_bind; [apply silent_modify; reflexivity|]. intros _.
  apply silent_bind; [apply silent_ensureCanMutateNextListeners|]. intros _.
  apply silent_bind; [apply silent_gets|]. intros next.
  apply silent_bind; [apply silent_modify; reflexivity|]. intros _.
  apply silent_ret.
Qed.

Lemma silent_unsubscribe h : silent (unsubscribe h).
Proof.
  unfold unsubscribe.
  apply silent_bind; [apply silent_gets|]. intros [[l [|]]|]; simpl.
  - apply silent_bind; [apply silent_modify; reflexivity|]. intros _.
    apply silent_bind; [apply silent_ensureCanMutateNextListeners|]. intros _.
    apply silent_bind; [apply silent_gets|]. intros next.
    apply silent_bind; [apply silent_gets|]. intros index.
    apply silent_bind; [apply silent_modify; reflexivity|]. intros _.
    apply silent_ret.
  - apply silent_ret.
  - apply silent_throw.
Qed.

Section Silent.

Variable invoke : value -> list value -> M value.
Variable budget : nat.
Hypothesis silent_invoke : forall f args, silent (invoke f args).

Lemma silent_notify steps listeners i : silent (notify invoke steps listeners i).
Proof.
  revert i. induction steps as [|steps IH]; intros i; simpl.
  - intros w r w' H. discriminate.
  - apply silent_bind; [apply silent_gets|]. intros len.
    destruct (Nat.ltb i len); [|apply silent_ret].
    apply silent_bind; [apply silent_gets|]. intros listener.
    apply silent_bind; [apply silent_gets|]. intros dispatching.
    apply silent_bind; [apply silent_modify; reflexivity|]. intros _.
    apply silent_bind; [apply silent_invoke|]. intros _.
    apply IH.
Qed.

Lemma silent_dispatch action : silent (dispatch invoke budget action).
Proof.
  unfold dispatch. destruct (negb _); [apply silent_throw|].
  apply silent_bind; [apply silent_lift|]. intros type.
  destruct (JS.is_undefined type); [apply silent_throw|].
  apply silent_bind; [apply silent_gets|]. intros [|]; [apply silent_throw|].
  apply silent_bind.
  { apply silent_try_finally; [|reflexivity].
    apply silent_bind; [apply silent_modify; reflexivity|]. intros _.
    apply silent_bind; [apply silent_gets|]. intros reducer.
    apply silent_bind; [apply silent_gets|]. intros state.
    apply silent_bind; [apply silent_gets|]. intros dispatching.
    apply silent_bind; [apply silent_modify; reflexivity|]. intros _.
    apply silent_bind; [apply silent_invoke|]. intros next.
    apply silent_modify. reflexivity. }
  intros _.
  apply silent_bind; [apply silent_modify; reflexivity|]. intros _.
  apply silent_bind; [apply silent_gets|]. intros listeners.
  apply silent_bind; [apply silent_notify|]. intros _.
  apply silent_ret.
Qed.

Lemma silent_replaceReducer nextReducer :
  silent (replaceReducer invoke budget nextReducer).
Proof.
  unfold replaceReducer. destruct (negb _); [apply silent_throw|].
  apply silent_bind; [apply silent_modify; reflexivity|]. intros _.
  apply silent_bind; [apply silent_new_object|]. intros init.
  apply silent_bind; [apply silent_dispatch|]. intros _. apply silent_ret.
Qed.

Lemma silent_createStore reducer preloadedState enhancer :
  silent (createStore invoke budget reducer preloadedState enhancer).
Proof.
  unfold createStore.
  destruct (negb (JS.is_undefined _)).
  { destruct (negb _); [apply silent_throw | apply silent_ret]. }
  destruct (negb (JS.is_function reducer)); [apply silent_throw|].
  apply silent_bind; [apply silent_modify; reflexivity|]. intros _.
  apply silent_bind; [apply silent_modify; reflexivity|]. intros _.
  apply silent_bind; [apply silent_gets|]. intros fresh.
  apply silent_bind; [apply silent_modify; reflexivity|]. intros _.
  apply silent_bind; [apply silent_modify; reflexivity|]. intros _.
  apply silent_bind; [apply silent_modify; reflexivity|]. intros _.
  apply silent_bind; [apply silent_modify; reflexivity|]. intros _.
  apply silent_bind; [apply silent_new_object|]. intros init.
  apply silent_bind; [apply silent_dispatch|]. intros _. apply silent_ret.
Qed.

Lemma silent_combination_each finalReducers state action keys hasChanged nextState :
  silent (combination_each invoke finalReducers state action keys hasChanged nextState).
Proof.
  revert hasChanged nextState.
  induction keys as [|key rest IH]; intros hasChanged nextState; simpl.
  - apply silent_ret.
  - apply silent_bind; [apply silent_lift|]. intros prev.
    apply silent_bind; [apply silent_invoke|]. intros next.
    destruct (JS.is_undefined next); [apply silent_throw | apply IH].
Qed.

Lemma silent_combination cacheId finalReducers shapeAssertionError state action :
  silent (combination true invoke cacheId finalReducers shapeAssertionError state action).
Proof.
  unfold combination.
  apply silent_bind.
  { destruct (JS.is_undefined state); [apply silent_new_object | apply silent_ret]. }
  intros state'.
  destruct (JS.truthy shapeAssertionError); [apply silent_throw|].
  apply silent_bind; [apply silent_ret|]. intros _.
  apply silent_bind; [intros w r w' H; inversion H; reflexivity|]. intros nextStateId.
  apply silent_bind; [apply silent_combination_each|]. intros looped.
  apply silent_ret.
Qed.

Lemma silent_assertReducerShape_each reducers keys :
  silent (assertReducerShape_each invoke reducers keys).
Proof.
  induction keys as [|key rest IH]; simpl.
  - apply silent_ret.
  - apply silent_bind; [apply silent_new_object|]. intros init.
    apply silent_bind; [apply silent_invoke|]. intros initialState.
    destruct (JS.is_undefined initialState); [apply silent_throw|].
    apply silent_bind; [apply silent_random_tail|]. intros tail.
    apply silent_bind; [apply silent_new_object|]. intros probe.
    apply silent_bind; [apply silent_invoke|]. intros probed.
    destruct (JS.is_undefined probed); [apply silent_throw | apply IH].
Qed.

Lemma silent_collect_reducers reducers keys finalReducers :
  silent (collect_reducers true reducers keys finalReducers).
Proof.
  revert finalReducers. induction keys as [|key rest IH]; intros finalReducers; simpl.
  - apply silent_ret.
  - apply silent_bind; [apply silent_lift|]. intros r.
    apply silent_bind; [apply silent_ret|]. intros _. apply IH.
Qed.

Lemma silent_combineReducers reducers : silent (combineReducers true invoke reducers).
Proof.
  unfold combineReducers.
  apply silent_bind; [apply silent_lift|]. intros reducerKeys.
  apply silent_bind; [apply silent_collect_reducers|]. intros finalReducers.
  apply silent_bind; [apply silent_gets|]. intros cacheId.
  apply silent_bind; [apply silent_modify; reflexivity|]. intros _.
  apply silent_bind; [apply silent_attempt, silent_assertReducerShape_each|].
  intros outcome. apply silent_ret.
Qed.

Lemma silent_perform o : silent (perform invoke budget o).
Proof.
  destruct o; simpl.
  - apply silent_dispatch.
  - apply silent_gets.
  - apply silent_subscribe.
  - apply silent_replaceReducer.
  - apply silent_invoke.
  - apply silent_new_object.
Qed.

Lemma silent_run p : silent (run invoke budget p).
Proof.
  induction p as [v|e|o k IH]; simpl.
  - apply silent_ret.
  - apply silent_throw.
  - apply silent_bind; [apply silent_attempt, silent_perform | exact IH].
Qed.

End Silent.

Lemma silent_invoke functions fuel :
  forall f args, silent (invoke true functions fuel f args).
Proof.
  induction fuel as [|n IH]; intros f args.
  - intros w r w' H. discriminate.
  - destruct f; simpl; try apply silent_throw.
    + apply silent_run. exact IH.
    + apply silent_unsubscribe.
    + apply silent_combination. exact IH.
Qed.

(** X18.  In production nothing warns: building a store, composing
    reducers, every store operation and every call of a function value,
    composed reducers among them, leave the console as it was. *)
Theorem production_is_silent functions fuel :
  let call := invoke true functions fuel in
  (forall reducer preloadedState enhancer w r w',
      createStore call fuel reducer preloadedState enhancer w = Some (r, w') ->
      console w' = console w)
  /\ (forall reducers w r w',
         combineReducers true call reducers w = Some (r, w') ->
         console w' = console w)
  /\ (forall o w r w',
         perform call fuel o w = Some (r, w') -> console w' = console w)
  /\ (forall f args w r w',
         call f args w = Some (r, w') -> console w' = console w).
Proof.
  intros call.
  pose proof (silent_invoke functions fuel) as H.
  split; [|split; [|split]].
  - intros reducer preloadedState enhancer. apply silent_createStore, H.
  - intros reducers. apply silent_combineReducers, H.
  - intros o. apply silent_perform, H.
  - apply H.
Qed.

Lemma production_is_silent_witness :
  exists r w',
    combineReducers true (invoke true Demo.functions 10)
                    (VObj 100 KPlain [("count", VFun 0); ("missing", VUndefined)])
                    empty_world
    = Some (r, w')
    /\ console w' = console empty_world.
Proof.
  eexists _, _. split; [vm_compute; reflexivity|].
  eapply (proj1 (proj2 (production_is_silent Demo.functions 10))
            (VObj 100 KPlain [("count", VFun 0); ("missing", VUndefined)]) empty_world).
  vm_compute. reflexivity.
Defined.

(** ** bindActionCreators *)

Lemma assign_bound_fresh key f (members : list (string * jsfun)) :
  ~ In key (map fst members) -> assign_bound key f members = members ++ [(key, f)].
Proof.
  induction members as [|[k g] rest IH]; simpl; intros H; [reflexivity|].
  destruct (String.eqb k key) eqn:E.
  - apply String.eqb_eq in E. subst. exfalso. apply H. left. reflexivity.
  - rewrite IH; [reflexivity|]. intros Hin. apply H. right. exact Hin.
Qed.

Lemma bound_entries_keys dispatch props :
  map fst (bound_entries dispatch props) = map fst (surviving props).
Proof. unfold bound_entries. rewrite map_map. reflexivity. Qed.

Lemma surviving_app (l1 l2 : list (string * value)) :
  surviving (l1 ++ l2) = surviving l1 ++ surviving l2.
Proof. apply List.filter_app. Qed.

Lemma surviving_keys_in key (props : list (string * value)) :
  In key (map fst (surviving props)) -> In key (map fst props).
Proof.
  intros H. apply in_map_iff in H. destruct H as (kv & <- & Hin).
  apply filter_In in Hin. apply in_map. apply Hin.
Qed.

Lemma bind_each_surviving id k dispatch (done rest : list (string * value)) :
  NoDup (map fst (done ++ rest)) ->
  bind_each (VObj id k (done ++ rest)) dispatch (map fst rest) (bound_entries dispatch done)
  = Normal (bound_entries dispatch (done ++ rest)).
Proof.
  revert done. induction rest as [|[key v] rest IH]; intros done Hnd.
  - simpl. rewrite app_nil_r. reflexivity.
  - cbn [map fst bind_each JS.get_prop].
    rewrite (lookup_prop_In key v (done ++ (key, v) :: rest) Hnd)
      by (apply in_or_app; right; left; reflexivity).
    change (default VUndefined (Some v)) with v.
    replace (done ++ (key, v) :: rest) with ((done ++ [(key, v)]) ++ rest) in *
      by (rewrite <- app_assoc; reflexivity).
    rewrite <- (IH (done ++ [(key, v)]) Hnd). f_equal.
    assert (Eb : bound_entries dispatch (done ++ [(key, v)])
                 = bound_entries dispatch done
                   ++ (if JS.is_function v
                       then [(key, bindActionCreator v dispatch)] else [])).
    { unfold bound_entries. rewrite surviving_app, map_app.
      unfold surviving at 2. simpl. destruct (JS.is_function v); reflexivity. }
    rewrite Eb.
    destruct (JS.is_function v) eqn:Hf.
    + apply assign_bound_fresh. rewrite bound_entries_keys.
      intros Hin. apply surviving_keys_in in Hin.
      rewrite <- app_assoc, map_app in Hnd. simpl in Hnd.
      apply NoDup_app in Hnd. destruct Hnd as (_ & Hdis & _).
      apply (Hdis key); [apply list_elem_of_In; exact Hin | left].
    + rewrite app_nil_r. reflexivity.
Qed.

Lemma run_bindActionCreator invoke budget actionCreator send args w :
  run invoke budget (bindActionCreator actionCreator send args) w
  = (let* action := invoke actionCreator args in
     run invoke budget (send [action])) w.
Proof.
  unfold bindActionCreator. rewrite run_seq.
  unfold call_value. cbn [run perform].
  unfold bind, attempt.
  destruct (invoke actionCreator args w) as [[[a|e] w1]|]; reflexivity.
Qed.

Lemma run_store_dispatch invoke budget action w :
  run invoke budget (store_dispatch [action]) w = dispatch invoke budget action w.
Proof.
  unfold store_dispatch. cbn [run perform]. change (arg 0 [action]) with action.
  unfold bind, attempt.
  destruct (dispatch invoke budget action w) as [[[v|e] w']|]; reflexivity.
Qed.



(** X20.  [bindActionCreators] throws exactly when its first argument is
    neither a function nor an object other than [null]; the message
    names [null], or the [typeof] of the argument. *)
Theorem bindActionCreators_rejects actionCreators dispatch :
  ((exists e, bindActionCreators actionCreators dispatch = Thrown e)
   <-> JS.is_function actionCreators = false
       /\ (JS.typeof actionCreators <> "object" \/ actionCreators = VNull))
  /\ (bindActionCreators VNull dispatch
      = Thrown (new_error
                  ("bindActionCreators expected an object or a function, instead received null. "
                   ++ "Did you write " ++ dq ++ "import ActionCreators from" ++ dq
                   ++ " instead of " ++ dq ++ "import * as ActionCreators from" ++ dq ++ "?")))
  /\ (JS.is_function actionCreators = false ->
      JS.typeof actionCreators <> "object" ->
      bindActionCreators actionCreators dispatch
      = Thrown (new_error
                  (("bindActionCreators expected an object or a function, instead received "
                    ++ JS.typeof actionCreators ++ ". ")
                   ++ "Did you write " ++ dq ++ "import ActionCreators from" ++ dq
                   ++ " instead of " ++ dq ++ "import * as ActionCreators from" ++ dq ++ "?"))).
Proof.
  assert (Hloop : forall id k props keys members,
             exists members',
               bind_each (VObj id k props) dispatch keys members = Normal members').
  { intros id k props keys. induction keys as [|key rest IH]; intros members; simpl.
    - eexists. reflexivity.
    - apply IH. }
  split; [|split].
  - split.
    + intros [e H]. destruct actionCreators; simpl in H; try discriminate;
        try (split; [reflexivity | left; discriminate]);
        try (split; [reflexivity | right; reflexivity]).
      destruct (Hloop id k props (map fst props) []) as (members & E).
      unfold bindActionCreators in H. simpl in H. rewrite E in H. discriminate.
    + intros [Hf [Ht | ->]].
      * destruct actionCreators; simpl in *; try discriminate; try (eexists; reflexivity);
          exfalso; apply Ht; reflexivity.
      * eexists. reflexivity.
  - reflexivity.
  - intros Hf Ht.
    destruct actionCreators; simpl in *; try discriminate; try reflexivity;
      exfalso; apply Ht; reflexivity.
Qed.

Lemma bindActionCreators_rejects_witness :
  (exists e, bindActionCreators (VStr "inc") store_dispatch = Thrown e)
  /\ bindActionCreators (VNum 5) store_dispatch
     = Thrown (new_error
                 (("bindActionCreators expected an object or a function, instead received "
                   ++ "number" ++ ". ")
                  ++ "Did you write " ++ dq ++ "import ActionCreators from" ++ dq
                  ++ " instead of " ++ dq ++ "import * as ActionCreators from" ++ dq ++ "?")).
Proof.
  split.
  - apply (proj1 (bindActionCreators_rejects (VStr "inc") store_dispatch)).
    split; [reflexivity | left; discriminate].
  - apply (proj2 (proj2 (bindActionCreators_rejects (VNum 5) store_dispatch)));
      [reflexivity | discriminate].
Defined.

(** ** The observable *)

(** X9.  What [observable().subscribe] rejects.  An observer whose
    [typeof] is not [object] is refused with a [TypeError].  [null]
    passes that test, its [typeof] being [object]; the call then fails
    with the [TypeError] of reading [next] of [null].  Either way the
    store is left as it was, with nothing subscribed. *)
Theorem observable_subscribe_rejects production functions fuel closure observer w :
  (JS.typeof observer <> "object" ->
   observable_subscribe (invoke production functions fuel) closure observer w
   = Some (Thrown (new_type_error "Expected the observer to be an object."), w))
  /\ (observer = VNull ->
      functions closure = observeState observer ->
      observable_subscribe (invoke production functions (S fuel)) closure observer w
      = Some (Thrown (new_type_error "Cannot read property 'next' of null"), w)).
Proof.
  split.
  - intros Ht. unfold observable_subscribe.
    destruct (String.eqb (JS.typeof observer) "object") eqn:E.
    + apply String.eqb_eq in E. contradiction.
    + reflexivity.
  - intros -> Hbody. unfold observable_subscribe.
    change (negb (String.eqb (JS.typeof VNull) "object")) with false. cbv iota.
    unfold bind at 1. cbn [invoke]. rewrite Hbody. reflexivity.
Qed.

Lemma observable_subscribe_rejects_witness :
  observable_subscribe Demo.call 22 (VNum 3) Demo.counter_world
  = Some (Thrown (new_type_error "Expected the observer to be an object."),
          Demo.counter_world)
  /\ observable_subscribe (invoke false (fun _ => observeState VNull) 1) 0 VNull
                          Demo.counter_world
     = Some (Thrown (new_type_error "Cannot read property 'next' of null"),
             Demo.counter_world).
Proof.
  split.
  - apply (proj1 (observable_subscribe_rejects false Demo.functions 10 22 (VNum 3)
                    Demo.counter_world)).
    discriminate.
  - apply (proj2 (observable_subscribe_rejects false (fun _ => observeState VNull) 0 0
                    VNull Demo.counter_world)); reflexivity.
Defined.

Lemma observeState_runs production functions fuel closure observer next w :
  functions closure = observeState observer ->
  JS.get_prop observer "next" = Normal next ->
  JS.truthy next = true ->
  invoke production functions (S (S fuel)) (VFun closure) [] w
  = (invoke production functions (S fuel) next [currentState w];; ret VUndefined) w.
Proof.
  intros Hbody Hnext Htruthy.
  change (invoke production functions (S (S fuel)) (VFun closure) [] w)
    with (run (invoke production functions (S fuel)) (S fuel) (functions closure []) w).
  rewrite Hbody. unfold observeState. rewrite Hnext, Htruthy.
  set (inner := invoke production functions (S fuel)).
  cbn [run perform]. unfold bind at 1, attempt at 1, getState, gets.
  cbn [run perform]. unfold bind, attempt.
  destruct (inner next [currentState w] w) as [[[v|e] w1]|]; reflexivity.
Qed.

(** X10.  An observer with a [next] method is told the state at once and
    after every dispatch: the listener [observable().subscribe]
    registers calls [next] with the current state; the subscription
    first makes that call, and if it returns, adds the listener to the
    list and returns an object whose [unsubscribe] is the closure of
    that subscription.  If the first call of [next] throws, nothing is
    subscribed. *)
Theorem observable_delivers_state production functions fuel closure observer next :
  functions closure = observeState observer ->
  JS.typeof observer = "object" ->
  JS.get_prop observer "next" = Normal next ->
  JS.truthy next = true ->
  (forall w,
      invoke production functions (S (S fuel)) (VFun closure) [] w
      = (invoke production functions (S fuel) next [currentState w];; ret VUndefined) w)
  /\ (forall w v w1,
         store_ok w1 ->
         invoke production functions (S fuel) next [currentState w] w
         = Some (Normal v, w1) ->
         exists w',
           observable_subscribe (invoke production functions (S (S fuel))) closure observer w
           = Some (Normal (VObj (nextObjectId w1) KPlain
                                [("unsubscribe", VUnsubscribe (length (subscriptions w1)))]),
                   w')
           /\ array_at w' (nextListeners w')
              = array_at w1 (nextListeners w1) ++ [VFun closure]
           /\ subscriptions w' = subscriptions w1 ++ [(VFun closure, true)])
  /\ (forall w e w1,
         invoke production functions (S fuel) next [currentState w] w
         = Some (Thrown e, w1) ->
         observable_subscribe (invoke production functions (S (S fuel))) closure observer w
         = Some (Thrown e, w1)).
Proof.
  intros Hbody Htype Hnext Htruthy.
  pose proof (fun w => observeState_runs production functions fuel closure observer next w
                         Hbody Hnext Htruthy) as Hrun.
  set (call := invoke production functions (S (S fuel))) in *.
  split; [exact Hrun|]. split.
  - intros w v w1 Hok E.
    unfold observable_subscribe. rewrite Htype.
    change (negb (String.eqb "object" "object")) with false. cbv iota.
    unfold bind at 1. rewrite Hrun. unfold bind at 1. rewrite E. unfold ret at 1.
    destruct (subscribe_spec (VFun closure) w1 Hok eq_refl) as (w2 & Es & _ & Ha & Hs).
    unfold bind at 1. rewrite Es.
    unfold new_object, fresh_id, bind, ret.
    eexists. split; [|split].
    + f_equal. f_equal. f_equal. f_equal.
      unfold subscribe in Es. cbn [JS.is_function JS.typeof String.eqb negb] in Es.
      simpl negb in Es. cbv iota in Es.
      unfold ensureCanMutateNextListeners, array_push, array_slice, bind, gets, modify,
        ret in Es. simpl in Es.
      destruct (Nat.eqb _ _); inversion Es; reflexivity.
    + simpl. exact Ha.
    + simpl. exact Hs.
  - intros w e w1 E.
    unfold observable_subscribe. rewrite Htype.
    change (negb (String.eqb "object" "object")) with false. cbv iota.
    unfold bind at 1. rewrite Hrun. unfold bind at 1. rewrite E. reflexivity.
Qed.

Lemma observable_delivers_state_witness :
  exists w',
    observable_subscribe More.call 22 More.observer Demo.counter_world
    = Some (Normal (VObj 1 KPlain [("unsubscribe", VUnsubscribe 0)]), w')
    /\ array_at w' (nextListeners w') = [VFun 22]
    /\ subscriptions w' = [(VFun 22, true)].
Proof.
  destruct (observable_delivers_state false More.functions 8 22 More.observer (VFun 2))
    as (_ & H & _); try reflexivity.
  apply (H Demo.counter_world VUndefined Demo.counter_world).
  - unfold store_ok. simpl. lia.
  - reflexivity.
Defined.

(** ** applyMiddleware *)

Lemma run_code_then {A B : Type} invoke budget (c : code A) (k : A -> code B) w :
  run_code invoke budget (code_then c k) w
  = (let* a := run_code invoke budget c in run_code invoke budget (k a)) w.
Proof.
  revert w. induction c as [a|e|o k' IH]; intros w; simpl; try reflexivity.
  unfold bind, attempt.
  destruct (perform invoke budget o w) as [[r w1]|]; [|reflexivity].
  apply IH.
Qed.

Lemma run_prog_then {A : Type} invoke budget (p : prog) (k : value -> code A) w :
  run_code invoke budget (prog_then p k) w
  = (let* v := run invoke budget p in run_code invoke budget (k v)) w.
Proof.
  revert w. induction p as [v|e|o k' IH]; intros w; simpl; try reflexivity.
  unfold bind, attempt.
  destruct (perform invoke budget o w) as [[r w1]|]; [|reflexivity].
  apply IH.
Qed.

Section Chain_facts.

Variable invoke : value -> list value -> M value.
Variable budget : nat.

Lemma apply_chain_app l1 l2 next w :
  apply_chain invoke budget (l1 ++ l2) next w
  = (let* inner := apply_chain invoke budget l2 next in
     apply_chain invoke budget l1 inner) w.
Proof.
  revert w. induction l1 as [|f l1 IH]; intros w.
  - simpl. symmetry. apply bind_ret_r.
  - simpl. rewrite <- bind_assoc. unfold bind at 1. rewrite IH. reflexivity.
Qed.

Lemma fold_chain_runs rest (acc : wrapper) next w :
  run_code invoke budget
           (fold_left (fun (a b : wrapper) => fun arg => code_then (b arg) a) rest acc next) w
  = apply_chain invoke budget (acc :: rest) next w.
Proof.
  revert next w. induction rest as [|h rest IH] using rev_ind; intros next w.
  - reflexivity.
  - rewrite fold_left_app. simpl fold_left.
    rewrite run_code_then.
    change (acc :: rest ++ [h]) with ((acc :: rest) ++ [h]).
    rewrite (apply_chain_app (acc :: rest) [h] next w).
    transitivity ((let* inner := run_code invoke budget (h next) in
                   apply_chain invoke budget (acc :: rest) inner) w);
      [|reflexivity].
    apply bind_ext. intros inner w'. apply IH.
Qed.

(** Applying the composite calls the members of the chain from the
    last to the first. *)
Lemma compose_chain_runs chain next w :
  run_code invoke budget (compose_chain chain next) w
  = apply_chain invoke budget chain next w.
Proof.
  destruct chain as [|f [|g rest]].
  - reflexivity.
  - simpl. symmetry.
    transitivity ((let* inner := ret next in run_code invoke budget (f inner)) w);
      reflexivity.
  - unfold compose_chain. apply fold_chain_runs.
Qed.

Lemma map_middlewares_settled api layers w :
  map_middlewares invoke budget api (map settled layers) w
  = Some (Normal (map (fun layer next => Done (layer api next)) layers), w).
Proof.
  induction layers as [|layer rest IH]; [reflexivity|].
  simpl. unfold bind at 1. unfold ret at 1. unfold bind at 1. rewrite IH. reflexivity.
Qed.

Lemma apply_chain_settled api (layers : list (middlewareAPI -> jsfun -> jsfun)) next w :
  apply_chain invoke budget (map (fun layer next => Done (layer api next)) layers) next w
  = Some (Normal (fold_right (fun layer next => layer api next) next layers), w).
Proof.
  induction layers as [|layer rest IH]; [reflexivity|].
  simpl. unfold bind. rewrite IH. reflexivity.
Qed.

Lemma applyMiddleware_runs middlewares slot reducer preloadedState enhancer w w1 :
  createStore invoke budget reducer preloadedState enhancer w
  = Some (Normal StoreObject, w1) ->
  applyMiddleware invoke budget middlewares slot reducer preloadedState enhancer w
  = (let* chain := map_middlewares invoke budget (the_middlewareAPI slot) middlewares in
     let* dispatch := apply_chain invoke budget chain store_dispatch in
     ret (WithDispatch dispatch)) w1.
Proof.
  intros E. unfold applyMiddleware. unfold bind at 1. rewrite E.
  apply bind_ext. intros chain w'.
  apply bind_cong; [apply compose_chain_runs | reflexivity].
Qed.

End Chain_facts.



(** ** A listener that throws *)

Lemma notify_snapshot_stops production functions fuel before listener after e w :
  isDispatching w = false ->
  Forall (returns_at_once functions) before ->
  throws_at_once functions listener e ->
  notify_snapshot (invoke production functions (S fuel)) (before ++ listener :: after) w
  = Some (Thrown e,
          set_trace (trace w ++ map (EvNotify false) (before ++ [listener])) w).
Proof.
  intros G Hall (id & -> & Hbody). revert w G.
  induction before as [|l rest IH]; intros w G.
  - cbn [app notify_snapshot].
    unfold bind at 1, gets at 1. rewrite G.
    unfold bind at 1, log_event, modify at 1.
    unfold bind at 1. cbn [invoke]. rewrite Hbody. reflexivity.
  - inversion Hall as [|? ? (id' & v & -> & Hbody') Hrest]; subst.
    cbn [app notify_snapshot].
    unfold bind at 1, gets at 1. rewrite G.
    unfold bind at 1, log_event, modify at 1.
    unfold bind at 1. cbn [invoke]. rewrite Hbody'. cbn [run]. unfold ret at 1.
    rewrite (IH Hrest) by exact G.
    rewrite set_trace_app. rewrite <- app_assoc. reflexivity.
Qed.

(** X6.  A listener that throws ends the notification: in a store with
    a pure reducer, when the listeners before it return at once, the
    dispatch throws what that listener throws, the state is the
    reducer's result all the same, the listeners after it are not
    called, and the guard is clear. *)
Theorem listener_error_stops_notification
        production functions fuel reducer f action w budget before listener after e :
  pure_reducer functions reducer f ->
  store_ok w ->
  isDispatching w = false ->
  currentReducer w = reducer ->
  JS.isPlainObject action = true ->
  JS.is_undefined (prev_part action "type") = false ->
  array_at w (nextListeners w) = before ++ listener :: after ->
  Forall (returns_at_once functions) before ->
  throws_at_once functions listener e ->
  length (array_at w (nextListeners w)) < budget ->
  exists w',
    dispatch (invoke production functions (S fuel)) budget action w
    = Some (Thrown e, w')
    /\ currentState w' = f (currentState w) action
    /\ trace w'
       = trace w ++ EvReduce true (currentState w) action
                 :: map (EvNotify false) (before ++ [listener])
    /\ isDispatching w' = false.
Proof.
  intros Hpure Hok G Hr Hplain Htype Hlist Hall Hthrows Hlen.
  rewrite (dispatch_pure_reduces production functions fuel reducer f action w budget
             Hpure G Hr Hplain Htype).
  set (wn := reduced (f (currentState w) action) action w).
  assert (Harr : array_at wn (nextListeners w) = before ++ listener :: after)
    by exact Hlist.
  pose proof (notify_complete (invoke production functions (S fuel))
                (safe_invoke production functions (S fuel)) budget (nextListeners w) 0 wn
                (Thrown e,
                 set_trace (trace wn ++ map (EvNotify false) (before ++ [listener])) wn))
    as Hn.
  unfold bind. rewrite Hn.
  - eexists. split; [reflexivity|].
    subst wn. unfold reduced. simpl. rewrite <- app_assoc. simpl.
    repeat split; reflexivity.
  - destruct Hok as [H1 H2]. split; assumption.
  - reflexivity.
  - split; [apply Hok | intros _; reflexivity].
  - rewrite Harr. rewrite Hlist in Hlen. lia.
  - rewrite drop_0, Harr. apply notify_snapshot_stops; [reflexivity | | ]; assumption.
Qed.

Lemma listener_error_stops_notification_witness :
  exists w',
    dispatch (invoke false More.functions 1) 4 (action_of_type 100 "INC") More.failing_world
    = Some (Thrown (new_error "boom"), w')
    /\ currentState w' = VNum 1
    /\ trace w'
       = [EvReduce true VUndefined (action_of_type 0 ActionTypes_INIT);
          EvReduce true (VNum 0) (action_of_type 100 "INC");
          EvNotify false (VFun 2); EvNotify false (VFun 20)]
    /\ isDispatching w' = false.
Proof.
  apply (listener_error_stops_notification false More.functions 0 (VFun 0) Demo.counter_fn
           (action_of_type 100 "INC") More.failing_world 4
           [VFun 2] (VFun 20) [VFun 2] (new_error "boom")).
  - apply counter_is_pure. reflexivity.
  - unfold store_ok. simpl. lia.
  - reflexivity.
  - reflexivity.
  - reflexivity.
  - reflexivity.
  - reflexivity.
  - repeat constructor. exists 2, VUndefined. split; reflexivity.
  - exists 20. split; reflexivity.
  - simpl. lia.
Defined.

(** ** Warnings about missing reducers *)

Lemma collect_reducers_warns id k (done rest : list (string * value)) w :
  NoDup (map fst (done ++ rest)) ->
  exists w',
    collect_reducers false (VObj id k (done ++ rest)) (map fst rest) (surviving done) w
    = Some (Normal (surviving (done ++ rest)), w')
    /\ console w' = console w ++ map no_reducer_warning (missing rest).
Proof.
  revert done w. induction rest as [|[key v] rest IH]; intros done w Hnd.
  - rewrite app_nil_r. simpl. eexists. split; [reflexivity|].
    rewrite app_nil_r. reflexivity.
  - simpl. unfold bind at 1, lift at 1.
    rewrite (lookup_prop_In key v) by (auto; apply in_or_app; right; left; reflexivity).
    simpl.
    assert (Hs : (if JS.is_function v
                  then JS.assign_prop key v (surviving done)
                  else surviving done) = surviving (done ++ [(key, v)])).
    { unfold surviving. rewrite List.filter_app. simpl.
      destruct (JS.is_function v); [|rewrite app_nil_r; reflexivity].
      apply assign_prop_fresh.
      intros Hin. apply in_map_iff in Hin. destruct Hin as ([k' v'] & E & Hin).
      simpl in E. subst. apply filter_In in Hin. destruct Hin as [Hin _].
      rewrite map_app in Hnd. apply NoDup_app in Hnd. destruct Hnd as (_ & Hd & _).
      apply (Hd key).
      - apply list_elem_of_In. change key with (fst (key, v')). apply in_map. exact Hin.
      - left. }
    rewrite Hs.
    replace (done ++ (key, v) :: rest) with ((done ++ [(key, v)]) ++ rest) in *
      by (rewrite <- app_assoc; reflexivity).
    unfold missing. simpl List.filter.
    destruct (JS.is_undefined v) eqn:Hu.
    + unfold bind at 1, warning, modify.
      destruct (IH (done ++ [(key, v)])
                  (set_console (console w ++ [no_reducer_warning (key, v)]) w) Hnd)
        as (w2 & E2 & Hc2).
      exists w2. split; [exact E2|].
      rewrite Hc2. simpl. rewrite <- app_assoc. reflexivity.
    + unfold bind at 1, ret at 1.
      destruct (IH (done ++ [(key, v)]) w Hnd) as (w2 & E2 & Hc2).
      exists w2. split; [exact E2 | exact Hc2].
Qed.

Section Missing_reducers.

Variable invoke : value -> list value -> M value.
Variable reducers : list (string * value).
Hypothesis reducers_silent :
  forall key r args, In (key, r) reducers -> silent (invoke r args).
Hypothesis distinct : NoDup (map fst reducers).

Lemma assertReducerShape_each_quiet keys :
  (forall key, In key keys -> In key (map fst reducers)) ->
  silent (assertReducerShape_each invoke reducers keys).
Proof.
  induction keys as [|key rest IH]; intros Hsub; simpl.
  - apply silent_ret.
  - destruct (In_keys_lookup key reducers distinct (Hsub key (or_introl eq_refl)))
      as (r & Hr & ->).
    apply silent_bind; [apply silent_new_object|]. intros init.
    apply silent_bind; [apply (reducers_silent key r _ Hr)|]. intros initialState.
    destruct (JS.is_undefined initialState); [apply silent_throw|].
    apply silent_bind; [apply silent_random_tail|]. intros tail.
    apply silent_bind; [apply silent_new_object|]. intros probe.
    apply silent_bind; [apply (reducers_silent key r _ Hr)|]. intros probed.
    destruct (JS.is_undefined probed); [apply silent_throw|].
    apply IH. intros k Hk. apply Hsub. right. exact Hk.
Qed.

End Missing_reducers.


